(** * FluidNC homing: phase planner, run loop and cycle orchestration

    A shallow embedding of [FluidNC/src/Machine/Homing.cpp].

    - C++ [float] is IEEE-754 binary32; it is modelled by [spec_float] with
      the operations of [SpecFloat] at precision 24 and [emax] 128.
    - [MotorMask] and [AxisMask] are bit sets, modelled as [Z] with
      [Z.testbit], [Z.lor], [Z.land], [Z.shiftr].
    - The globals the file reads and writes ([_approach], the realtime flags,
      the limit masks, [sys.state], the step counters) live in one record,
      threaded through a state-and-alarm monad.  [throw] of an [ExecAlarm] is
      an outcome of that monad and keeps the globals as they were at the
      point of the throw.
    - Calls into collaborators (stepper, planner, reporting) are recorded in
      the order they are made. *)

From Stdlib Require Import ZArith Lia Bool List String.
From Stdlib Require Import Floats.SpecFloat.
From Stdlib Require Import Ascii.
From stdpp Require Import base list.

Local Open Scope Z_scope.

(** ** binary32 arithmetic *)

Module F32.

Definition prec : Z := 24.
Definition emax : Z := 128.

Definition float : Type := spec_float.

Definition zero : float := S754_zero false.
Definition one : float := S754_finite false 8388608 (-23).

Definition add : float -> float -> float := SFadd prec emax.
Definition mul : float -> float -> float := SFmul prec emax.
Definition div : float -> float -> float := SFdiv prec emax.
Definition sqrtf : float -> float := SFsqrt prec emax.
Definition opp : float -> float := SFopp.
Definition abs : float -> float := SFabs.

(** [a < b]; false as soon as one side is a NaN. *)
Definition ltb : float -> float -> bool := SFltb.
(** [a > b], as the source writes it. *)
Definition gtb (a b : float) : bool := ltb b a.
Definition leb : float -> float -> bool := SFleb.
Definition eqb : float -> float -> bool := SFeqb.

(** Conversion of a float to [bool] in a condition: [x != 0]. *)
Definition to_bool (x : float) : bool := negb (eqb x zero).

(** The binary32 value nearest to an integer, and to a ratio of integers. *)
Definition of_Z (n : Z) : float := binary_normalize prec emax n 0 false.
Definition of_ratio (n d : Z) : float := div (of_Z n) (of_Z d).

(** Well-formed binary32 datum: canonical mantissa, exponent in range. *)
Definition valid (x : float) : Prop := valid_binary prec emax x = true.

Definition is_finite_nonzero (x : float) : bool :=
  match x with S754_finite _ _ _ => true | _ => false end.

(** Values whose square neither overflows nor loses bits to underflow:
    [+0], and the normal values [x] with [2^-63 <= x < 2^64]. *)
Definition square_safe (x : float) : bool :=
  match x with
  | S754_zero false => true
  | S754_finite false m e =>
      (Z.pos (digits2_pos m) =? 24) && (-86 <=? e) && (e <=? 40)
  | _ => false
  end.

End F32.

Abbreviation float := F32.float.

#[global] Instance float_inhabited : Inhabited float := populate F32.zero.

(** ** Bit sets *)

(** [uint32_t] masks, kept as non-negative [Z]: the file sets only bits
    numbered below the mask width and never shifts left on a mask, so no
    bit is lost to wrap-around. *)
Definition MotorMask : Type := Z.
Definition AxisMask : Type := Z.

(** Modelled from the spec: the bit macros come from NutsBolts.h, which the
    file includes; they are the single-bit test, set and clear on a mask
    that the specification describes as "at least one motor bit set in
    [motors]" and "clears from [motors] every motor bit". *)
Definition bitnum_to_mask (bit : nat) : Z := Z.shiftl 1 (Z.of_nat bit).
Definition bitnum_is_true (x : Z) (bit : nat) : bool :=
  negb (Z.land x (bitnum_to_mask bit) =? 0).
Definition bitnum_is_false (x : Z) (bit : nat) : bool :=
  Z.land x (bitnum_to_mask bit) =? 0.
Definition set_bitnum (x : Z) (bit : nat) : Z := Z.lor x (bitnum_to_mask bit).
Definition clear_bits (x y : Z) : Z := Z.land x (Z.lnot y).

(** Modelled from the spec: [Machine::Axes::motor_bit] is declared in Axes.h;
    the masks are packed with the motor-0 set in the low 16 bits and the
    motor-1 set in the high 16 bits, as [MOTOR0], [MOTOR1] and the shift by 16
    in [needsPulloff2] also say. *)
Definition motor_bit (axis motor : nat) : nat :=
  match motor with O => axis | _ => (axis + 16)%nat end.

Definition MOTOR0 : Z := 0xffff.
Definition MOTOR1 : Z := 0xffff0000.

(** ** Enumerations *)

Inductive HomingPhase : Set :=
| PrePulloff | FastApproach | Pulloff0 | SlowApproach | Pulloff1 | Pulloff2.

Inductive ExecAlarm : Set :=
| HomingFailReset | HomingFailDoor | HomingFailApproach | HomingFailPulloff.

(** [sys.state]; the source distinguishes [State::Alarm] from the rest. *)
Inductive State : Set := Idle | Alarm | Homing.

Definition HomingPhase_eqb (a b : HomingPhase) : bool :=
  match a, b with
  | PrePulloff, PrePulloff | FastApproach, FastApproach | Pulloff0, Pulloff0
  | SlowApproach, SlowApproach | Pulloff1, Pulloff1 | Pulloff2, Pulloff2 => true
  | _, _ => false
  end.

Definition State_eqb (a b : State) : bool :=
  match a, b with
  | Idle, Idle | Alarm, Alarm | Homing, Homing => true
  | _, _ => false
  end.

(** ** Configuration *)

(** Per-axis homing settings ([Machine::Homing] objects). *)
Record HomingConfig : Type := {
  _cycle : Z;
  _positiveDirection : bool;
  _mpos : float;
  _feedRate : float;
  _seekRate : float;
  _settle_ms : Z;
  _seek_scaler : float;
  _feed_scaler : float
}.

(** [Machine::Axis].  [_homing] may be null.  [commonPulloff()] and
    [extraPulloff()] are defined outside this file: their results are taken as
    given per axis. *)
Record Axis : Type := {
  _homing : option HomingConfig;
  _maxTravel : float;
  commonPulloff : float;
  extraPulloff : float
}.

(** The machine: [config->_axes] and the collaborators' pure parts.
    [_numberAxis] is the length of [_axis]. *)
Record MachineConfig : Type := {
  _axis : list Axis;
  MAX_N_AXIS : nat;
  homingMask : AxisMask;
  (** the motor set [set_homing_mode(axisMask, true)] returns *)
  homing_motors : AxisMask -> MotorMask;
  steps_to_mpos : nat -> Z -> float;
  mpos_to_steps : float -> nat -> Z
}.

Definition _numberAxis (config : MachineConfig) : nat := length (_axis config).

(** Modelled from the spec: the sentinel [AllCycles] is declared in Homing.h;
    [axisMask = 0] means "all configured cycles". *)
Definition AllCycles : AxisMask := 0.

(** ** Globals and collaborators *)

(** What the realtime layer did since the previous poll: the signals it
    raised, and the limit masks as they now read. *)
Record Event : Type := {
  ev_status_report : bool;
  ev_reset : bool;
  ev_safety_door : bool;
  ev_cycle_stop : bool;
  ev_posLimitMask : MotorMask;
  ev_negLimitMask : MotorMask
}.

(** [plan_line_data_t] as [plan_move] fills it in. *)
Record plan_line_data_t : Type := {
  feed_rate : float;
  spindle_speed : Z;
  systemMotion : bool;
  noFeedOverride : bool;
  is_jog : bool
}.

(** Calls into collaborators, in program order. *)
Inductive Call : Type :=
| Stepper_prep_buffer
| Stepper_wake_up
| Stepper_reset
| delay_ms_call (ms : Z)
| report_realtime_status_call
| pollChannels_call
| set_homing_mode_call (axisMask : AxisMask) (isHoming : bool)
| mc_reset_call
| protocol_execute_realtime_call
| log_debug_call (msg : string)
| log_target_call (axis : nat) (target rate : float)
| log_error_call (msg : string).

Record Globals : Type := mkGlobals {
  _approach : bool;
  motor_steps : list Z;
  rtStatusReport : bool;
  rtReset : bool;
  rtSafetyDoor : bool;
  rtCycleStop : bool;
  rtAlarm : option ExecAlarm;
  posLimitMask : MotorMask;
  negLimitMask : MotorMask;
  sys_state : State;
  executeSysMotion : bool;
  (** motors told to [block()], as (axis, motor) *)
  blocked : list (nat * nat);
  (** blocks handed to [plan_buffer_line] *)
  planner : list (list float * plan_line_data_t);
  calls : list Call;
  (** what the realtime layer will do at the coming polls *)
  pending : list Event
}.

Definition with_approach (b : bool) (g : Globals) : Globals :=
  mkGlobals b (motor_steps g) (rtStatusReport g) (rtReset g) (rtSafetyDoor g)
    (rtCycleStop g) (rtAlarm g) (posLimitMask g) (negLimitMask g) (sys_state g)
    (executeSysMotion g) (blocked g) (planner g) (calls g) (pending g).
Definition with_motor_steps (v : list Z) (g : Globals) : Globals :=
  mkGlobals (_approach g) v (rtStatusReport g) (rtReset g) (rtSafetyDoor g)
    (rtCycleStop g) (rtAlarm g) (posLimitMask g) (negLimitMask g) (sys_state g)
    (executeSysMotion g) (blocked g) (planner g) (calls g) (pending g).
Definition with_rtStatusReport (b : bool) (g : Globals) : Globals :=
  mkGlobals (_approach g) (motor_steps g) b (rtReset g) (rtSafetyDoor g)
    (rtCycleStop g) (rtAlarm g) (posLimitMask g) (negLimitMask g) (sys_state g)
    (executeSysMotion g) (blocked g) (planner g) (calls g) (pending g).
Definition with_rtCycleStop (b : bool) (g : Globals) : Globals :=
  mkGlobals (_approach g) (motor_steps g) (rtStatusReport g) (rtReset g)
    (rtSafetyDoor g) b (rtAlarm g) (posLimitMask g) (negLimitMask g)
    (sys_state g) (executeSysMotion g) (blocked g) (planner g) (calls g)
    (pending g).
Definition with_rtAlarm (a : option ExecAlarm) (g : Globals) : Globals :=
  mkGlobals (_approach g) (motor_steps g) (rtStatusReport g) (rtReset g)
    (rtSafetyDoor g) (rtCycleStop g) a (posLimitMask g) (negLimitMask g)
    (sys_state g) (executeSysMotion g) (blocked g) (planner g) (calls g)
    (pending g).
Definition with_sys_state (st : State) (g : Globals) : Globals :=
  mkGlobals (_approach g) (motor_steps g) (rtStatusReport g) (rtReset g)
    (rtSafetyDoor g) (rtCycleStop g) (rtAlarm g) (posLimitMask g)
    (negLimitMask g) st (executeSysMotion g) (blocked g) (planner g) (calls g)
    (pending g).
Definition with_executeSysMotion (b : bool) (g : Globals) : Globals :=
  mkGlobals (_approach g) (motor_steps g) (rtStatusReport g) (rtReset g)
    (rtSafetyDoor g) (rtCycleStop g) (rtAlarm g) (posLimitMask g)
    (negLimitMask g) (sys_state g) b (blocked g) (planner g) (calls g)
    (pending g).
Definition with_blocked (v : list (nat * nat)) (g : Globals) : Globals :=
  mkGlobals (_approach g) (motor_steps g) (rtStatusReport g) (rtReset g)
    (rtSafetyDoor g) (rtCycleStop g) (rtAlarm g) (posLimitMask g)
    (negLimitMask g) (sys_state g) (executeSysMotion g) v (planner g) (calls g)
    (pending g).
Definition with_planner (v : list (list float * plan_line_data_t))
    (g : Globals) : Globals :=
  mkGlobals (_approach g) (motor_steps g) (rtStatusReport g) (rtReset g)
    (rtSafetyDoor g) (rtCycleStop g) (rtAlarm g) (posLimitMask g)
    (negLimitMask g) (sys_state g) (executeSysMotion g) (blocked g) v (calls g)
    (pending g).
Definition with_calls (v : list Call) (g : Globals) : Globals :=
  mkGlobals (_approach g) (motor_steps g) (rtStatusReport g) (rtReset g)
    (rtSafetyDoor g) (rtCycleStop g) (rtAlarm g) (posLimitMask g)
    (negLimitMask g) (sys_state g) (executeSysMotion g) (blocked g) (planner g)
    v (pending g).

(** The realtime layer acts between two polls: raised signals stay raised
    until consumed, the limit masks read as the pins now are. *)
Definition deliver (ev : Event) (rest : list Event) (g : Globals) : Globals :=
  mkGlobals (_approach g) (motor_steps g)
    (rtStatusReport g || ev_status_report ev)
    (rtReset g || ev_reset ev)
    (rtSafetyDoor g || ev_safety_door ev)
    (rtCycleStop g || ev_cycle_stop ev)
    (rtAlarm g) (ev_posLimitMask ev) (ev_negLimitMask ev) (sys_state g)
    (executeSysMotion g) (blocked g) (planner g) (calls g) rest.

(** ** The monad of the homing code *)

Inductive Outcome (A : Type) : Type :=
| Done (a : A)              (* normal return *)
| Raised (alarm : ExecAlarm) (* [throw alarm] *)
| Fault                     (* a null [_homing] was dereferenced *)
| Starved.                  (* still polling when the modelled events end *)
Arguments Done {A} a.
Arguments Raised {A} alarm.
Arguments Fault {A}.
Arguments Starved {A}.

Definition M (A : Type) : Type := Globals -> Outcome A * Globals.

Definition ret {A} (a : A) : M A := fun g => (Done a, g).
Definition bind {A B} (m : M A) (k : A -> M B) : M B :=
  fun g =>
    match m g with
    | (Done a, g') => k a g'
    | (Raised alarm, g') => (Raised alarm, g')
    | (Fault, g') => (Fault, g')
    | (Starved, g') => (Starved, g')
    end.
Definition throw {A} (alarm : ExecAlarm) : M A := fun g => (Raised alarm, g).
Definition fault {A} : M A := fun g => (Fault, g).
Definition get {A} (f : Globals -> A) : M A := fun g => (Done (f g), g).
Definition modify (f : Globals -> Globals) : M unit := fun g => (Done tt, f g).
Definition call (c : Call) : M unit :=
  modify (fun g => with_calls (calls g ++ [c]) g).
Definition when (b : bool) (m : M unit) : M unit := if b then m else ret tt.

Declare Scope homing_scope.
Delimit Scope homing_scope with homing.
Notation "x <- m ;; k" := (bind m (fun x => k))
  (at level 100, m at next level, right associativity) : homing_scope.
Notation "m ;; k" := (bind m (fun _ => k))
  (at level 100, right associativity) : homing_scope.
Local Open Scope homing_scope.

(** [for (int axis = 0; axis < n_axis; axis++)] over [axes->_axis[axis]],
    carrying the locals the loop body updates. *)
Fixpoint for_axes {V} (body : nat -> Axis -> V -> M V)
    (axis : nat) (axes : list Axis) (v : V) : M V :=
  match axes with
  | [] => ret v
  | axisConfig :: rest =>
      v' <- body axis axisConfig v ;; for_axes body (S axis) rest v'
  end.

(** ** Homing.cpp *)

(** Locals of [plan_move] that its loops update. *)
Record PlanLocals : Type := {
  maxSeekTime : float;
  limitingRate : float;
  settle : Z;
  rate : float;
  axesMask : AxisMask;
  target : list float;
  rates : list float
}.

Section Program.

Variable config : MachineConfig.

(** [get_mpos()]: the machine position computed from the step counters. *)
Definition get_mpos (g : Globals) : list float :=
  imap (steps_to_mpos config) (motor_steps g).

Definition set_motor_steps (axis : nat) (steps : Z) : M unit :=
  modify (fun g => with_motor_steps (<[axis := steps]> (motor_steps g)) g).

(** [axisConfig->_motors[motor]->block()] *)
Definition block (axis motor : nat) : M unit :=
  modify (fun g => with_blocked (blocked g ++ [(axis, motor)]) g).

Definition plan_buffer_line (target : list float)
    (plan_data : plan_line_data_t) : M unit :=
  modify (fun g => with_planner (planner g ++ [(target, plan_data)]) g).

(** The [switch (phase)] of [plan_move]: the axis rate and the travel. *)
Definition rate_and_travel (phase : HomingPhase) (axis : nat)
    (axisConfig : Axis) (homing : HomingConfig) : M (float * float) :=
  match phase with
  | FastApproach => ret (_seekRate homing, _maxTravel axisConfig)
  | PrePulloff | SlowApproach | Pulloff0 | Pulloff1 =>
      ret (_feedRate homing, commonPulloff axisConfig)
  | Pulloff2 =>
      let travel := extraPulloff axisConfig in
      if F32.ltb travel F32.zero then
        block axis 1 ;; ret (_feedRate homing, F32.opp travel)
      else if F32.gtb travel F32.zero then
        block axis 0 ;; ret (_feedRate homing, travel)
      else ret (_feedRate homing, travel)
  end.

(** Body of the first loop of [plan_move]. *)
Definition first_pass (motors : MotorMask) (phase : HomingPhase)
    (axis : nat) (axisConfig : Axis) (v : PlanLocals) : M PlanLocals :=
  if bitnum_is_false motors (motor_bit axis 0)
     && bitnum_is_false motors (motor_bit axis 1)
  then ret v
  else
    set_motor_steps axis 0 ;;
    match _homing axisConfig with
    | None => fault
    | Some homing =>
        rt <- rate_and_travel phase axis axisConfig homing ;;
        approach <- get _approach ;;
        let axis_rate := fst rt in
        let travel := snd rt in
        let seekTime := F32.div travel axis_rate in
        let longer := F32.gtb seekTime (maxSeekTime v) in
        ret {| maxSeekTime := if longer then seekTime else maxSeekTime v;
               limitingRate := if longer then axis_rate else limitingRate v;
               settle := Z.max (settle v) (_settle_ms homing);
               rate := F32.add (rate v) (F32.mul axis_rate axis_rate);
               axesMask := set_bitnum (axesMask v) axis;
               target :=
                 <[axis := if xorb (_positiveDirection homing) approach
                           then F32.opp travel else travel]> (target v);
               rates := <[axis := axis_rate]> (rates v) |}
    end.

(** Body of the second loop of [plan_move].  [scaler] has the value of a
    float; the product with it is evaluated in double and stored as float,
    which rounds once, as the float product does. *)
Definition second_pass (phase : HomingPhase) (seeking : bool)
    (v : PlanLocals) (axis : nat) (axisConfig : Axis)
    (target : list float) : M (list float) :=
  if bitnum_is_true (axesMask v) axis then
    match _homing axisConfig with
    | None => fault
    | Some homing =>
        approach <- get _approach ;;
        let scaler :=
          if approach
          then (if seeking then _seek_scaler homing else _feed_scaler homing)
          else F32.one in
        let scaled := F32.mul (target !!! axis) scaler in
        let final :=
          if HomingPhase_eqb phase FastApproach
          then F32.mul scaled (F32.div (rates v !!! axis) (limitingRate v))
          else scaled in
        call (log_target_call axis final (rates v !!! axis)) ;;
        ret (<[axis := final]> target)
    end
  else ret target.

Definition plan_move (motors : MotorMask) (phase : HomingPhase) : M Z :=
  mpos <- get get_mpos ;;
  let n_axis := _numberAxis config in
  let seeking := HomingPhase_eqb phase FastApproach in
  v <- for_axes (first_pass motors phase) 0 (_axis config)
         {| maxSeekTime := F32.zero; limitingRate := F32.zero; settle := 0;
            rate := F32.zero; axesMask := 0; target := mpos;
            rates := replicate n_axis F32.zero |} ;;
  target <- for_axes (second_pass phase seeking v) 0 (_axis config)
              (target v) ;;
  plan_buffer_line target
    {| feed_rate := F32.sqrtf (rate v); spindle_speed := 0;
       systemMotion := true; noFeedOverride := true; is_jog := false |} ;;
  modify (with_executeSysMotion true) ;;
  call Stepper_prep_buffer ;;
  call Stepper_wake_up ;;
  ret (settle v).

Definition limitedMotors (g : Globals) : MotorMask :=
  Z.lor (posLimitMask g) (negLimitMask g).

Definition is_approach (phase : HomingPhase) : bool :=
  HomingPhase_eqb phase FastApproach || HomingPhase_eqb phase SlowApproach.

(** One turn of the [do ... while] of [run], up to the safety-door check. *)
Definition poll_signals (remainingMotors : MotorMask) : M MotorMask :=
  approach <- get _approach ;;
  limited <- get limitedMotors ;;
  let remainingMotors :=
    if approach then clear_bits remainingMotors limited
    else remainingMotors in
  call Stepper_prep_buffer ;;
  report <- get rtStatusReport ;;
  when report (modify (with_rtStatusReport false) ;;
               call report_realtime_status_call) ;;
  reset <- get rtReset ;;
  when reset (throw HomingFailReset) ;;
  door <- get rtSafetyDoor ;;
  when door (throw HomingFailDoor) ;;
  ret remainingMotors.

(** The [if (rtCycleStop)] block of the same turn. *)
Definition poll_cycle_stop (remainingMotors : MotorMask) : M MotorMask :=
  stop <- get rtCycleStop ;;
  if stop then
    modify (with_rtCycleStop false) ;;
    approach <- get _approach ;;
    if approach then throw HomingFailApproach
    else
      limited <- get limitedMotors ;;
      if negb (Z.land limited remainingMotors =? 0)
      then throw HomingFailPulloff
      else ret 0
  else ret remainingMotors.

(** From the cycle-stop check to the end of [run]: the rest of the turn,
    the remaining turns, and the statements after the loop. *)
Fixpoint poll_loop (events : list Event) (remainingMotors : MotorMask)
    : M unit :=
  match events with
  | [] => fun g => (Starved, g)
  | ev :: rest =>
      modify (deliver ev rest) ;;
      remainingMotors <- poll_signals remainingMotors ;;
      remainingMotors <- poll_cycle_stop remainingMotors ;;
      call pollChannels_call ;;
      if remainingMotors =? 0 then ret tt else poll_loop rest remainingMotors
  end.

Definition settle_down (settling_ms : Z) : M unit :=
  call Stepper_reset ;;
  call (delay_ms_call settling_ms) ;;
  modify (with_approach false).

Definition run (remainingMotors : MotorMask) (phase : HomingPhase) : M unit :=
  if remainingMotors =? 0 then ret tt
  else
    limited <- get limitedMotors ;;
    if HomingPhase_eqb phase PrePulloff
       && (Z.land limited remainingMotors =? 0)
    then ret tt
    else
      modify (with_approach (is_approach phase)) ;;
      settling_ms <- plan_move remainingMotors phase ;;
      events <- get pending ;;
      poll_loop events remainingMotors ;;
      settle_down settling_ms.

Fixpoint differing_pulloffs (squaredAxes : AxisMask) (axis : nat)
    (axes : list Axis) : bool :=
  match axes with
  | [] => false
  | axisConfig :: rest =>
      if bitnum_is_false squaredAxes axis
      then differing_pulloffs squaredAxes (S axis) rest
      else if F32.to_bool (extraPulloff axisConfig) then true
      else differing_pulloffs squaredAxes (S axis) rest
  end.

Definition needsPulloff2 (motors : MotorMask) : bool :=
  let squaredAxes := Z.land motors (Z.shiftr motors 16) in
  if squaredAxes =? 0 then false
  else differing_pulloffs squaredAxes 0 (_axis config).

(** Modelled from the spec: [Axes::set_homing_mode] is defined outside this
    file; it enters or leaves homing mode for the axes of the mask, returns
    the motor set engaged, and undoes any blocking of motors. *)
Definition set_homing_mode (axisMask : AxisMask) (isHoming : bool)
    : M MotorMask :=
  call (set_homing_mode_call axisMask isHoming) ;;
  modify (with_blocked []) ;;
  ret (homing_motors config axisMask).

(** Modelled from the spec: [protocol_execute_realtime] is defined outside
    this file; a pending alarm puts the system in the alarm state. *)
Definition protocol_execute_realtime : M unit :=
  call protocol_execute_realtime_call ;;
  alarm <- get rtAlarm ;;
  match alarm with
  | Some _ => modify (with_sys_state Alarm)
  | None => ret tt
  end.

Definition set_mpos (axisMask : AxisMask) : M unit :=
  for_axes (fun axis axisConfig _ =>
              if bitnum_is_true axisMask axis then
                match _homing axisConfig with
                | None => fault
                | Some homing =>
                    set_motor_steps axis
                      (mpos_to_steps config (_mpos homing) axis)
                end
              else ret tt) 0 (_axis config) tt ;;
  modify (with_executeSysMotion false) ;;
  set_homing_mode axisMask false ;;
  ret tt.

(** [try { ... } catch (ExecAlarm alarm) { ... }] *)
Definition try_catch {A} (body : M A) (handler : ExecAlarm -> M A) : M A :=
  fun g =>
    match body g with
    | (Raised alarm, g') => handler alarm g'
    | r => r
    end.

(** The phases up to [Pulloff1]. *)
Definition first_phases (motors : MotorMask) : M unit :=
  call (log_debug_call "PrePulloff") ;;
  run motors PrePulloff ;;
  call (log_debug_call "Fast approach") ;;
  run motors FastApproach ;;
  call (log_debug_call "Pulloff0") ;;
  run motors Pulloff0 ;;
  call (log_debug_call "Slow approach") ;;
  run motors SlowApproach ;;
  call (log_debug_call "Pulloff1") ;;
  run motors Pulloff1.

(** The body of the [try] block of [run_one_cycle]. *)
Definition phases (motors : MotorMask) : M unit :=
  first_phases motors ;;
  if needsPulloff2 motors then
    call (log_debug_call "Differential Pulloff") ;;
    run motors Pulloff2
  else ret tt.

Definition homing_failed (axisMask : AxisMask) (alarm : ExecAlarm) : M unit :=
  modify (with_rtAlarm (Some alarm)) ;;
  set_homing_mode axisMask false ;;
  call (log_error_call "Homing fail") ;;
  call mc_reset_call ;;
  protocol_execute_realtime.

(** The [catch] block ends in [return]: [set_mpos] runs only when the
    [try] block completed. *)
Definition run_one_cycle (axisMask : AxisMask) : M unit :=
  let axisMask := Z.land axisMask (homingMask config) in
  call (log_debug_call "Homing") ;;
  motors <- set_homing_mode axisMask true ;;
  caught <- try_catch (phases motors ;; ret false)
              (fun alarm => homing_failed axisMask alarm ;; ret true) ;;
  if caught : bool then ret tt else set_mpos axisMask.

Fixpoint cycle_axes (cycle : Z) (axis : nat) (axes : list Axis)
    (axisMask : AxisMask) : AxisMask :=
  match axes with
  | [] => axisMask
  | axisConfig :: rest =>
      cycle_axes cycle (S axis) rest
        match _homing axisConfig with
        | Some homing =>
            if _cycle homing =? cycle then set_bitnum axisMask axis
            else axisMask
        | None => axisMask
        end
  end.

Definition axis_mask_from_cycle (cycle : Z) : AxisMask :=
  cycle_axes cycle 0 (_axis config) 0.

(** The [for (cycle = 1; cycle <= MAX_N_AXIS; cycle++)] loop of
    [run_cycles] and the check after it. *)
Fixpoint all_cycles (cycles : list nat) (someAxisHomed : bool) : M unit :=
  match cycles with
  | [] =>
      if negb someAxisHomed then
        call (log_error_call "No homing cycles defined") ;;
        modify (with_sys_state Alarm)
      else ret tt
  | cycle :: rest =>
      st <- get sys_state ;;
      if State_eqb st Alarm then ret tt
      else
        let axisMask := axis_mask_from_cycle (Z.of_nat cycle) in
        if negb (axisMask =? 0) then
          run_one_cycle axisMask ;; all_cycles rest true
        else all_cycles rest someAxisHomed
  end.

Definition run_cycles (axisMask : AxisMask) : M unit :=
  if negb (axisMask =? AllCycles) then run_one_cycle axisMask
  else all_cycles (seq 1 (MAX_N_AXIS config)) false.

End Program.

(** ** Vocabulary of the specification *)

(** An axis takes part in a move when one of its two motor bits is set. *)
Definition active (motors : MotorMask) (axis : nat) : bool :=
  Z.testbit motors (Z.of_nat axis) || Z.testbit motors (Z.of_nat axis + 16).

(** An axis is squared in a mask when both of its motor bits are set. *)
Definition squared (motors : MotorMask) (axis : nat) : bool :=
  Z.testbit motors (Z.of_nat axis) && Z.testbit motors (Z.of_nat axis + 16).

(** The per-axis rate of a phase: the seek rate for the fast approach, the
    feed rate otherwise. *)
Definition rate_of (phase : HomingPhase) (homing : HomingConfig) : float :=
  match phase with
  | FastApproach => _seekRate homing
  | _ => _feedRate homing
  end.

(** Square root of the sum of squares, summed in list order from zero. *)
Definition euclidean_norm (rs : list float) : float :=
  F32.sqrtf (fold_left (fun acc r => F32.add acc (F32.mul r r)) rs F32.zero).

(** The rates of the active axes of [axes], numbered from [axis] on, in axis
    order. *)
Fixpoint active_rates (phase : HomingPhase) (motors : MotorMask) (axis : nat)
    (axes : list Axis) : list float :=
  match axes with
  | [] => []
  | axisConfig :: rest =>
      match _homing axisConfig with
      | Some homing =>
          if active motors axis
          then rate_of phase homing :: active_rates phase motors (S axis) rest
          else active_rates phase motors (S axis) rest
      | None => active_rates phase motors (S axis) rest
      end
  end.

(** Every axis that takes part has homing settings: what [run_one_cycle]
    gets from masking with [homingMask] and from [set_homing_mode]. *)
Definition homing_ready (config : MachineConfig) (motors : MotorMask) : Prop :=
  forall axis axisConfig,
    _axis config !! axis = Some axisConfig ->
    active motors axis = true ->
    is_Some (_homing axisConfig).

(** The step counters cover every configured axis. *)
Definition steps_cover (config : MachineConfig) (g : Globals) : Prop :=
  (_numberAxis config <= length (motor_steps g))%nat.

(** The travel of a phase for an axis, as the [switch] of [plan_move]
    leaves it. *)
Definition travel_of (phase : HomingPhase) (axisConfig : Axis) : float :=
  match phase with
  | FastApproach => _maxTravel axisConfig
  | Pulloff2 =>
      if F32.ltb (extraPulloff axisConfig) F32.zero
      then F32.opp (extraPulloff axisConfig)
      else extraPulloff axisConfig
  | _ => commonPulloff axisConfig
  end.

(** The motors of an axis that a phase blocks. *)
Definition blocks_of (phase : HomingPhase) (axis : nat) (axisConfig : Axis)
    : list (nat * nat) :=
  match phase with
  | Pulloff2 =>
      if F32.ltb (extraPulloff axisConfig) F32.zero then [(axis, 1%nat)]
      else if F32.gtb (extraPulloff axisConfig) F32.zero then [(axis, 0%nat)]
      else []
  | _ => []
  end.

(** The provisional target of an axis: the travel, signed by the homing
    direction and the approach flag. *)
Definition signed_travel (approach : bool) (phase : HomingPhase)
    (axisConfig : Axis) (homing : HomingConfig) : float :=
  if xorb (_positiveDirection homing) approach
  then F32.opp (travel_of phase axisConfig)
  else travel_of phase axisConfig.

(** Time to cover the travel at the axis rate. *)
Definition seek_time (phase : HomingPhase) (axisConfig : Axis)
    (homing : HomingConfig) : float :=
  F32.div (travel_of phase axisConfig) (rate_of phase homing).

(** One turn of the first loop of [plan_move] on an active axis: the locals
    and the globals it leaves. *)
Definition turn_locals (approach : bool) (phase : HomingPhase) (axis : nat)
    (a : Axis) (h : HomingConfig) (v : PlanLocals) : PlanLocals :=
  {| maxSeekTime :=
       if F32.gtb (seek_time phase a h) (maxSeekTime v)
       then seek_time phase a h else maxSeekTime v;
     limitingRate :=
       if F32.gtb (seek_time phase a h) (maxSeekTime v)
       then rate_of phase h else limitingRate v;
     settle := Z.max (settle v) (_settle_ms h);
     rate := F32.add (rate v) (F32.mul (rate_of phase h) (rate_of phase h));
     axesMask := set_bitnum (axesMask v) axis;
     target := <[axis := signed_travel approach phase a h]> (target v);
     rates := <[axis := rate_of phase h]> (rates v) |}.

Definition turn_globals (phase : HomingPhase) (axis : nat) (a : Axis)
    (g : Globals) : Globals :=
  with_blocked (blocked g ++ blocks_of phase axis a)
    (with_motor_steps (<[axis := 0]> (motor_steps g)) g).

(** The fudge factor of the second loop of [plan_move]. *)
Definition scaler_of (approach : bool) (phase : HomingPhase)
    (homing : HomingConfig) : float :=
  if approach
  then (if HomingPhase_eqb phase FastApproach
        then _seek_scaler homing else _feed_scaler homing)
  else F32.one.

(** What the second loop makes of a provisional target [t] of an axis with
    rate [r], the limiting rate being [L]. *)
Definition scaled_target (phase : HomingPhase) (scaler t r L : float) : float :=
  if HomingPhase_eqb phase FastApproach
  then F32.mul (F32.mul t scaler) (F32.div r L)
  else F32.mul t scaler.

(** The locals before the first loop. *)
Definition initial_locals (config : MachineConfig) (g : Globals) : PlanLocals :=
  {| maxSeekTime := F32.zero; limitingRate := F32.zero; settle := 0;
     rate := F32.zero; axesMask := 0; target := get_mpos config g;
     rates := replicate (_numberAxis config) F32.zero |}.

(** The block [plan_move] hands to the planner. *)
Definition plan_data_of (v : PlanLocals) : plan_line_data_t :=
  {| feed_rate := F32.sqrtf (rate v); spindle_speed := 0;
     systemMotion := true; noFeedOverride := true; is_jog := false |}.

(** The globals when [plan_move] returns, from those after its second loop. *)
Definition planned (v : PlanLocals) (target : list float) (g : Globals)
    : Globals :=
  let g1 := with_planner (planner g ++ [(target, plan_data_of v)]) g in
  let g2 := with_executeSysMotion true g1 in
  let g3 := with_calls (calls g2 ++ [Stepper_prep_buffer]) g2 in
  with_calls (calls g3 ++ [Stepper_wake_up]) g3.

(** The motors a phase blocks over the active axes, in axis order. *)
Fixpoint phase_blocks (phase : HomingPhase) (motors : MotorMask) (axis : nat)
    (axes : list Axis) : list (nat * nat) :=
  match axes with
  | [] => []
  | axisConfig :: rest =>
      match _homing axisConfig with
      | Some _ =>
          if active motors axis
          then blocks_of phase axis axisConfig
               ++ phase_blocks phase motors (S axis) rest
          else phase_blocks phase motors (S axis) rest
      | None => phase_blocks phase motors (S axis) rest
      end
  end.

(** Axis [j] of [axes], with settings [a] and [h], takes part in the move. *)
Definition takes_part (motors : MotorMask) (axes : list Axis) (j : nat)
    (a : Axis) (h : HomingConfig) : Prop :=
  axes !! j = Some a /\ _homing a = Some h /\ active motors j = true.

(** The limiting axis among the first [k] axes: either none of them has a
    positive seek time, and the limiting rate is still zero; or the limiting
    rate is the rate of the first of them whose seek time none exceeds. *)
Definition limiting_upto (motors : MotorMask) (phase : HomingPhase)
    (axes : list Axis) (k : nat) (v : PlanLocals) : Prop :=
  (maxSeekTime v = F32.zero /\ limitingRate v = F32.zero /\
   forall i a h, (i < k)%nat -> takes_part motors axes i a h ->
                 F32.gtb (seek_time phase a h) F32.zero = false)
  \/
  (exists j a h,
      (j < k)%nat /\ takes_part motors axes j a h /\
      maxSeekTime v = seek_time phase a h /\
      limitingRate v = rate_of phase h /\
      F32.gtb (seek_time phase a h) F32.zero = true /\
      (forall i a' h', (i < k)%nat -> takes_part motors axes i a' h' ->
          F32.gtb (seek_time phase a' h') (seek_time phase a h) = false) /\
      (forall i a' h', (i < j)%nat -> takes_part motors axes i a' h' ->
          F32.leb (seek_time phase a h) (seek_time phase a' h') = false)).

(** Axis [j] is the only configured axis that takes part. *)
Definition sole_active (config : MachineConfig) (motors : MotorMask) (j : nat)
    : bool :=
  forallb (fun i => Nat.eqb i j || negb (active motors i))
    (seq 0 (_numberAxis config)).

(** The blocks of a list that concern axis [j]. *)
Definition blocks_on (j : nat) (blocks : list (nat * nat)) : list (nat * nat) :=
  List.filter (fun b => Nat.eqb (fst b) j) blocks.

(** The globals when the [try] block of [run_one_cycle] starts, for the axis
    mask already restricted to [homingMask]. *)
Definition cycle_start (config : MachineConfig) (axisMask : AxisMask)
    (g : Globals) : Globals :=
  snd (bind (call (log_debug_call "Homing"))
         (fun _ => set_homing_mode config axisMask true) g).

(** What [run_one_cycle] does with the outcome of its [try] block: the
    [catch] block on an alarm, [set_mpos] on completion. *)
Definition cycle_end (config : MachineConfig) (axisMask : AxisMask)
    (r : Outcome unit * Globals) : Outcome unit * Globals :=
  match r with
  | (Done _, g) => set_mpos config axisMask g
  | (Raised alarm, g) => homing_failed config axisMask alarm g
  | (Fault, g) => (Fault, g)
  | (Starved, g) => (Starved, g)
  end.

(** What an alarm raised by [run] leaves in the realtime flags: the
    cycle-stop flag consumed, the reset and safety-door flags still set. *)
Definition alarm_flags (alarm : ExecAlarm) (g : Globals) : Prop :=
  match alarm with
  | HomingFailApproach | HomingFailPulloff => rtCycleStop g = false
  | HomingFailReset => rtReset g = true
  | HomingFailDoor => rtSafetyDoor g = true
  end.

(** [homing_ready], as a check that runs. *)
Fixpoint ready_from (motors : MotorMask) (axis : nat) (axes : list Axis)
    : bool :=
  match axes with
  | [] => true
  | axisConfig :: rest =>
      (negb (active motors axis)
       || match _homing axisConfig with Some _ => true | None => false end)
      && ready_from motors (S axis) rest
  end.

Definition homing_readyb (config : MachineConfig) (motors : MotorMask) : bool :=
  ready_from motors 0 (_axis config).

(** *** The "all cycles" request, in the words of the specification *)

(** The axis sets of the cycle numbers that match some axis, by increasing
    cycle number from 1 up to the maximum number of axes. *)
Definition matching_cycles (config : MachineConfig) : list AxisMask :=
  List.filter (fun axisMask => negb (axisMask =? 0))
    (map (fun cycle => axis_mask_from_cycle config (Z.of_nat cycle))
       (seq 1 (MAX_N_AXIS config))).

(** Run the cycles in order; stop as soon as the system is in alarm. *)
Fixpoint run_each (config : MachineConfig) (masks : list AxisMask) : M unit :=
  match masks with
  | [] => ret tt
  | axisMask :: rest =>
      st <- get sys_state ;;
      if State_eqb st Alarm then ret tt
      else run_one_cycle config axisMask ;; run_each config rest
  end.

(** The alarm for a machine without homing cycles. *)
Definition no_homing_cycles : M unit :=
  call (log_error_call "No homing cycles defined") ;;
  modify (with_sys_state Alarm).

Definition all_cycles_spec (config : MachineConfig) : M unit :=
  match matching_cycles config with
  | [] => no_homing_cycles
  | masks => run_each config masks
  end.

(** ** Vocabulary of the further properties *)

(** The globals that the realtime layer owns: the signals, the limit masks
    and what is still to come. *)
Definition signal_part (g : Globals) :=
  (rtStatusReport g, rtReset g, rtSafetyDoor g, rtCycleStop g,
   posLimitMask g, negLimitMask g, pending g).

(** The globals that only the homing code and its collaborators write. *)
Definition machine_part (g : Globals) :=
  (_approach g, motor_steps g, rtAlarm g, sys_state g, executeSysMotion g,
   blocked g, planner g).

(** A [log_debug] of an axis target. *)
Definition is_target_log (c : Call) : bool :=
  match c with log_target_call _ _ _ => true | _ => false end.

(** The globals after the first part of a turn of the polling loop: the
    segment buffer prepared, a requested status report made. *)
Definition polled (g : Globals) : Globals :=
  let g1 := with_calls (calls g ++ [Stepper_prep_buffer]) g in
  if rtStatusReport g
  then with_calls (calls g1 ++ [report_realtime_status_call])
         (with_rtStatusReport false g1)
  else g1.

(** The motors still to reach their switch, as a turn sees them. *)
Definition still_to_home (g : Globals) (remainingMotors : MotorMask)
    : MotorMask :=
  if _approach g then clear_bits remainingMotors (limitedMotors g)
  else remainingMotors.

Definition channels_polled (g : Globals) : Globals :=
  with_calls (calls g ++ [pollChannels_call]) g.

(** The limit switches an event reports. *)
Definition ev_limits (ev : Event) : MotorMask :=
  Z.lor (ev_posLimitMask ev) (ev_negLimitMask ev).

(** An event that raises none of reset, safety door and cycle stop. *)
Definition raises_nothing (ev : Event) : bool :=
  negb (ev_reset ev) && negb (ev_safety_door ev) && negb (ev_cycle_stop ev).

(** The polling loop, started with [remainingMotors], takes a turn for each
    of the events and is still going after the last: none of them raises a
    signal, and in an approach the limit switches they report leave some
    motor to home. *)
Fixpoint keeps_polling (approach : bool) (remainingMotors : MotorMask)
    (events : list Event) : bool :=
  match events with
  | [] => true
  | ev :: rest =>
      let remaining :=
        if approach then clear_bits remainingMotors (ev_limits ev)
        else remainingMotors in
      raises_nothing ev && negb (remaining =? 0)
      && keeps_polling approach remaining rest
  end.

(** The globals when [run] returns, from those at the end of its loop. *)
Definition settled (settling_ms : Z) (g : Globals) : Globals :=
  snd (settle_down settling_ms g).

(** Body of the loop of [set_mpos]. *)
Definition set_axis_mpos (config : MachineConfig) (axisMask : AxisMask)
    (axis : nat) (axisConfig : Axis) (_ : unit) : M unit :=
  if bitnum_is_true axisMask axis then
    match _homing axisConfig with
    | None => fault
    | Some homing =>
        set_motor_steps axis (mpos_to_steps config (_mpos homing) axis)
    end
  else ret tt.

(** The globals when [set_mpos] returns, from those after its loop. *)
Definition homing_left (axisMask : AxisMask) (g : Globals) : Globals :=
  let g1 := with_executeSysMotion false g in
  with_blocked []
    (with_calls (calls g1 ++ [set_homing_mode_call axisMask false]) g1).

(** The outcome is a thrown alarm. *)
Definition raised {A} (o : Outcome A) : bool :=
  match o with Raised _ => true | _ => false end.

(** From [g] to [g'] at most [n] moves were handed to the planner, and the
    alarm and the system state were left alone. *)
Definition phase_step (n : nat) (g g' : Globals) : Prop :=
  rtAlarm g' = rtAlarm g /\ sys_state g' = sys_state g
  /\ exists blocks, planner g' = planner g ++ blocks
                    /\ (length blocks <= n)%nat.

(** A computation that, when it returns or throws, has made a
    [phase_step]. *)
Definition plans_at_most (n : nat) {A} (m : M A) : Prop :=
  forall g o g', m g = (o, g') -> o <> Fault -> o <> Starved ->
                 phase_step n g g'.

(** [axisNames]: the letters of the axes of a mask.  [Machine::Axes::_names]
    is declared outside the file; the letter of each axis is taken as
    given. *)
Definition axisNames (_names : nat -> ascii) (config : MachineConfig)
    (axisMask : AxisMask) : string :=
  fold_left
    (fun retval axis =>
       if bitnum_is_true axisMask axis
       then String.append retval (String (_names axis) EmptyString)
       else retval)
    (seq 0 (_numberAxis config)) EmptyString.

(** *** Machines and event scripts used to exercise the statements *)

Module Bench.

Definition homing_of (cycle : Z) (positive : bool) (feed seek : Z)
    (seek_scaler : float) : HomingConfig :=
  {| _cycle := cycle; _positiveDirection := positive; _mpos := F32.zero;
     _feedRate := F32.of_Z feed; _seekRate := F32.of_Z seek;
     _settle_ms := 250; _seek_scaler := seek_scaler;
     _feed_scaler := F32.of_ratio 11 10 |}.

Definition axis_of (homing : option HomingConfig) (travel : Z)
    (common extra : float) : Axis :=
  {| _homing := homing; _maxTravel := F32.of_Z travel;
     commonPulloff := common; extraPulloff := extra |}.

(** Every axis has its motor 0, and motor 1 where [dual] says so. *)
Definition machine (axes : list Axis) (dual : AxisMask) : MachineConfig :=
  {| _axis := axes; MAX_N_AXIS := 6;
     homingMask := Z.ones (Z.of_nat (length axes));
     homing_motors := fun axisMask =>
       Z.lor axisMask (Z.shiftl (Z.land axisMask dual) 16);
     steps_to_mpos := fun _ steps => F32.of_Z steps;
     mpos_to_steps := fun _ _ => 0 |}.

Definition at_rest (steps : list Z) (events : list Event) : Globals :=
  mkGlobals false steps false false false false None 0 0 Homing false
    [] [] [] events.

(** The same, inside an approach phase. *)
Definition approaching (steps : list Z) (events : list Event) : Globals :=
  with_approach true (at_rest steps events).

Definition quiet : Event := Build_Event false false false false 0 0.
Definition limits (pos : MotorMask) : Event :=
  Build_Event false false false false pos 0.
Definition cycle_stop (pos : MotorMask) : Event :=
  Build_Event false false false true pos 0.
Definition reset : Event := Build_Event false true false false 0 0.
Definition door : Event := Build_Event false false true false 0 0.

(** Both motors of Y reach their switches, then the pull-offs and the slow
    approach complete in turn. *)
Definition y_homes : list Event :=
  [limits 0x20002; cycle_stop 0; limits 0x20002; cycle_stop 0;
   cycle_stop 0].

(** X and both motors of Y home in cycle 1, then Z homes in cycle 2. *)
Definition all_home : list Event :=
  [limits 0x20003; cycle_stop 0; limits 0x20003; cycle_stop 0;
   cycle_stop 0;
   limits 4; cycle_stop 0; limits 4; cycle_stop 0].

Definition scale_11_10 : float := F32.of_ratio 11 10.

(** One axis: seek rate 500, feed rate 100, travel 200, pull-off 1. *)
Definition x_axis (positive : bool) (seek : Z) (travel : Z) : Axis :=
  axis_of (Some (homing_of 1 positive 100 seek scale_11_10)) travel
    (F32.of_Z 1) F32.zero.

Definition one_axis (positive : bool) (seek : Z) (travel : Z)
    : MachineConfig :=
  machine [x_axis positive seek travel] 0.

(** X and Y home together in cycle 1, Z in cycle 2, A is not homed.  Y is
    a squared axis whose motor 1 pulls off 1 mm more than its motor 0. *)
Definition four_axes : MachineConfig :=
  machine
    [axis_of (Some (homing_of 1 false 100 500 scale_11_10)) 200
       (F32.of_Z 2) F32.zero;
     axis_of (Some (homing_of 1 false 100 1000 scale_11_10)) 300
       (F32.of_Z 2) (F32.of_Z 1);
     axis_of (Some (homing_of 2 true 100 800 scale_11_10)) 100
       (F32.of_Z 1) F32.zero;
     axis_of None 50 (F32.of_Z 1) F32.zero]
    2.

End Bench.

(** Closed statements about concrete runs are settled by running them. *)
Ltac by_evaluation :=
  repeat match goal with |- _ /\ _ => split end;
  vm_compute; reflexivity.

(** ** Bit sets: the macros against [Z.testbit] *)

Lemma bitnum_is_false_testbit (x : Z) (bit : nat) :
  bitnum_is_false x bit = negb (Z.testbit x (Z.of_nat bit)).
Proof.
  unfold bitnum_is_false, bitnum_to_mask.
  rewrite Z.shiftl_1_l.
  destruct (Z.testbit x (Z.of_nat bit)) eqn:Hb; simpl.
  - apply Z.eqb_neq. intros H0.
    assert (Hc : Z.testbit (Z.land x (2 ^ Z.of_nat bit)) (Z.of_nat bit) = true).
    { rewrite Z.land_spec, Hb, Z.pow2_bits_true by lia. reflexivity. }
    rewrite H0, Z.bits_0 in Hc. discriminate.
  - apply Z.eqb_eq, Z.bits_inj'. intros n Hn.
    rewrite Z.land_spec, Z.bits_0, Z.pow2_bits_eqb by lia.
    destruct (Z.eqb_spec (Z.of_nat bit) n) as [<-|]; [rewrite Hb|];
      apply andb_false_r || reflexivity.
Qed.

Lemma bitnum_is_true_testbit (x : Z) (bit : nat) :
  bitnum_is_true x bit = Z.testbit x (Z.of_nat bit).
Proof.
  unfold bitnum_is_true. fold (bitnum_is_false x bit).
  rewrite bitnum_is_false_testbit. apply negb_involutive.
Qed.

Lemma set_bitnum_testbit (x : Z) (bit n : nat) :
  Z.testbit (set_bitnum x bit) (Z.of_nat n)
  = Z.testbit x (Z.of_nat n) || Nat.eqb bit n.
Proof.
  unfold set_bitnum, bitnum_to_mask.
  rewrite Z.shiftl_1_l, Z.lor_spec, Z.pow2_bits_eqb by lia.
  f_equal. destruct (Nat.eqb_spec bit n) as [->|Hne].
  - apply Z.eqb_refl.
  - apply Z.eqb_neq. lia.
Qed.

Lemma inactive_test (motors : MotorMask) (axis : nat) :
  bitnum_is_false motors (motor_bit axis 0)
  && bitnum_is_false motors (motor_bit axis 1)
  = negb (active motors axis).
Proof.
  unfold active, motor_bit. rewrite !bitnum_is_false_testbit.
  rewrite Nat2Z.inj_add. simpl (Z.of_nat 16).
  symmetry. apply negb_orb.
Qed.

(** ** Facts of binary32 arithmetic *)

Module F32Facts.

(** *** Order *)

Ltac cmp_cases :=
  repeat match goal with
    | |- context [Z.compare ?a ?b] =>
        destruct (Z.compare_spec a b); simpl; try lia; try discriminate
    | |- context [Pos.compare_cont Eq ?a ?b] =>
        change (Pos.compare_cont Eq a b) with (Pos.compare a b);
        destruct (Pos.compare_spec a b); simpl; try lia; try discriminate
    end.

Lemma ltb_trans a b c :
  F32.ltb a b = true -> F32.ltb b c = true -> F32.ltb a c = true.
Proof.
  unfold F32.ltb, SFltb, SFcompare.
  destruct a as [[]|[]| |[] ma ea], b as [[]|[]| |[] mb eb],
           c as [[]|[]| |[] mc ec];
    simpl; try discriminate; try reflexivity; cmp_cases; auto.
Qed.

Lemma ltb_leb_trans a b c :
  F32.ltb a b = true -> F32.leb b c = true -> F32.ltb a c = true.
Proof.
  unfold F32.ltb, F32.leb, SFltb, SFleb, SFcompare.
  destruct a as [[]|[]| |[] ma ea], b as [[]|[]| |[] mb eb],
           c as [[]|[]| |[] mc ec];
    simpl; try discriminate; try reflexivity; cmp_cases; auto.
Qed.

(** *** Division *)
Lemma div_eucl_eq a b :
  Z.div_eucl a b = (a / b, a mod b).
Proof.
  unfold Z.div, Z.modulo. destruct (Z.div_eucl a b). reflexivity.
Qed.

(** A finite value divided by itself is one. *)
Lemma div_same (x : float) :
  F32.is_finite_nonzero x = true -> F32.div x x = F32.one.
Proof.
  destruct x as [| | |s m e]; try discriminate. intros _.
  unfold F32.div, SFdiv, SFdiv_core_binary.
  replace (Zdigits2 (Z.pos m) + e - (Zdigits2 (Z.pos m) + e)) with 0 by lia.
  replace (e - e) with 0 by lia.
  change (Z.min (fexp F32.prec F32.emax 0) 0) with (-24).
  change (0 - -24) with 24.
  rewrite div_eucl_eq, Z.shiftl_mul_pow2 by lia.
  rewrite (Z.mul_comm (Z.pos m)), Z.div_mul, Z.mod_mul by lia.
  replace (new_location (Z.pos m) 0) with loc_Exact
    by (unfold new_location; destruct (Z.even (Z.pos m)); reflexivity).
  destruct s; reflexivity.
Qed.


(** *** Number of binary digits *)

Lemma digits2_pos_bounds (m : positive) :
  2 ^ (Z.pos (digits2_pos m) - 1) <= Z.pos m < 2 ^ Z.pos (digits2_pos m).
Proof.
  induction m as [m IH|m IH|]; simpl digits2_pos.
  - rewrite Pos2Z.inj_succ.
    replace (Z.succ (Z.pos (digits2_pos m)) - 1)
      with (Z.succ (Z.pos (digits2_pos m) - 1)) by lia.
    rewrite !Z.pow_succ_r by lia. lia.
  - rewrite Pos2Z.inj_succ.
    replace (Z.succ (Z.pos (digits2_pos m)) - 1)
      with (Z.succ (Z.pos (digits2_pos m) - 1)) by lia.
    rewrite !Z.pow_succ_r by lia. lia.
  - simpl. lia.
Qed.

Lemma digits2_pos_unique (m : positive) (d : Z) :
  2 ^ (d - 1) <= Z.pos m < 2 ^ d -> Z.pos (digits2_pos m) = d.
Proof.
  intros [Hlo Hhi]. pose proof (digits2_pos_bounds m) as [Hlo' Hhi'].
  assert (Hd : 0 < d).
  { destruct (Z.ltb_spec 0 d); auto.
    assert (2 ^ d <= 1).
    { destruct (Z.eq_dec d 0) as [->|]; [simpl; lia|].
      rewrite Z.pow_neg_r by lia. lia. }
    lia. }
  destruct (Z.lt_trichotomy (Z.pos (digits2_pos m)) d) as [Hlt|[Heq|Hgt]];
    auto; exfalso.
  - assert (2 ^ Z.pos (digits2_pos m) <= 2 ^ (d - 1))
      by (apply Z.pow_le_mono_r; lia). lia.
  - assert (2 ^ d <= 2 ^ (Z.pos (digits2_pos m) - 1))
      by (apply Z.pow_le_mono_r; lia). lia.
Qed.

(** *** Shifting right with round and sticky bits *)

Lemma iter_pos_nat {A} (f : A -> A) (p : positive) (x : A) :
  SpecFloat.iter_pos f p x = Nat.iter (Pos.to_nat p) f x.
Proof.
  revert x. induction p as [p IH|p IH|]; intros x; simpl SpecFloat.iter_pos.
  - rewrite !IH, Pos2Nat.inj_xI.
    replace (S (2 * Pos.to_nat p)) with (Pos.to_nat p + (Pos.to_nat p + 1))%nat
      by lia.
    rewrite !Nat.iter_add. reflexivity.
  - rewrite !IH, Pos2Nat.inj_xO.
    replace (2 * Pos.to_nat p)%nat with (Pos.to_nat p + Pos.to_nat p)%nat
      by lia.
    rewrite Nat.iter_add. reflexivity.
  - reflexivity.
Qed.

Lemma shr_1_nonneg (m : Z) (r s : bool) :
  0 <= m ->
  shr_1 (Build_shr_record m r s)
  = Build_shr_record (Z.div2 m) (Z.odd m) (r || s).
Proof.
  intros Hm. destruct m as [|[p|p|]|p]; try reflexivity. lia.
Qed.

(** After [S n] shifts of an exact non-negative mantissa [M]: the quotient
    by [2^(S n)], the bit below it, and whether anything lies below that
    bit. *)
Lemma shr_exact (M : Z) (n : nat) :
  0 <= M ->
  exists q b t,
    Nat.iter (S n) shr_1 (Build_shr_record M false false)
    = Build_shr_record q b (negb (t =? 0))
    /\ 0 <= q /\ 0 <= t < 2 ^ Z.of_nat n
    /\ M = 2 ^ Z.of_nat (S n) * q + (if b then 2 ^ Z.of_nat n else 0) + t.
Proof.
  intros HM. induction n as [|n (q & b & t & Hit & Hq & Ht & HMeq)].
  - exists (Z.div2 M), (Z.odd M), 0.
    change (Nat.iter 1 shr_1 (Build_shr_record M false false))
      with (shr_1 (Build_shr_record M false false)).
    rewrite shr_1_nonneg by lia. repeat split; try (simpl; lia).
    + rewrite Z.div2_div. apply Z.div_pos; lia.
    + pose proof (Z.div2_odd M) as E. simpl Z.of_nat. simpl (2 ^ 0).
      change (2 ^ 1) with 2. destruct (Z.odd M); simpl Z.b2z in E; lia.
  - exists (Z.div2 q), (Z.odd q), ((if b then 2 ^ Z.of_nat n else 0) + t).
    change (Nat.iter (S (S n)) shr_1 (Build_shr_record M false false))
      with (shr_1 (Nat.iter (S n) shr_1 (Build_shr_record M false false))).
    rewrite Hit, shr_1_nonneg by lia.
    assert (Hp : 0 < 2 ^ Z.of_nat n) by (apply Z.pow_pos_nonneg; lia).
    assert (Hs : 2 ^ Z.of_nat (S n) = 2 * 2 ^ Z.of_nat n).
    { rewrite Nat2Z.inj_succ, Z.pow_succ_r by lia. reflexivity. }
    assert (Hs2 : 2 ^ Z.of_nat (S (S n)) = 2 * 2 ^ Z.of_nat (S n)).
    { rewrite (Nat2Z.inj_succ (S n)), Z.pow_succ_r by lia. reflexivity. }
    repeat split.
    + f_equal. destruct b; simpl.
      * replace (2 ^ Z.of_nat n + t =? 0) with false
          by (symmetry; apply Z.eqb_neq; lia).
        reflexivity.
      * reflexivity.
    + rewrite Z.div2_div. apply Z.div_pos; lia.
    + destruct b; lia.
    + rewrite Hs. destruct b; lia.
    + pose proof (Z.div2_odd q) as E. rewrite Hs2.
      rewrite HMeq at 1.
      destruct (Z.odd q); simpl Z.b2z in E; nia.
Qed.

(** Rounding to nearest after the shift errs by at most half a unit. *)
Lemma round_shr_exact (M : Z) (n : positive) :
  0 <= M ->
  let mrs := SpecFloat.iter_pos shr_1 n (Build_shr_record M false false) in
  let R := round_nearest_even (shr_m mrs) (loc_of_shr_record mrs) in
  (R = M / 2 ^ Z.pos n \/ R = M / 2 ^ Z.pos n + 1)
  /\ 2 * Z.abs (2 ^ Z.pos n * R - M) <= 2 ^ Z.pos n.
Proof.
  intros HM. cbv zeta. rewrite iter_pos_nat.
  destruct (Pos2Nat.is_succ n) as [k Hk]. rewrite Hk.
  destruct (shr_exact M k HM) as (q & b & t & -> & Hq & Ht & HMeq).
  assert (Hn : Z.pos n = Z.of_nat (S k)) by lia. rewrite Hn.
  assert (Hp : 0 < 2 ^ Z.of_nat k) by (apply Z.pow_pos_nonneg; lia).
  assert (Hs : 2 ^ Z.of_nat (S k) = 2 * 2 ^ Z.of_nat k).
  { rewrite Nat2Z.inj_succ, Z.pow_succ_r by lia. reflexivity. }
  assert (Hdiv : M / 2 ^ Z.of_nat (S k) = q).
  { symmetry. apply (Z.div_unique M _ q ((if b then 2 ^ Z.of_nat k else 0) + t)).
    - left. destruct b; lia.
    - lia. }
  rewrite Hdiv. simpl shr_m.
  destruct b, (Z.eqb_spec t 0) as [Ht0|Ht0]; simpl;
    try destruct (Z.even q); split; auto; nia.
Qed.

(** *** Rounding a mantissa *)


Lemma fexp_eq (x : Z) : fexp 24 128 x = Z.max (x - 24) (-149).
Proof. reflexivity. Qed.

Lemma loc_round_trip (M : Z) (l : location) :
  loc_of_shr_record (shr_record_of_loc M l) = l.
Proof. destruct l as [|[]]; reflexivity. Qed.

Lemma shr_m_of_loc (M : Z) (l : location) :
  shr_m (shr_record_of_loc M l) = M.
Proof. destruct l as [|[]]; reflexivity. Qed.

(** Rounding a mantissa that needs no shift, when the rounded mantissa
    needs none either. *)
Lemma round_aux_noshift (s : bool) (M e : Z) (l : location) (r : positive) :
  fexp 24 128 (Zdigits2 M + e) = e ->
  round_nearest_even M l = Z.pos r ->
  fexp 24 128 (Z.pos (digits2_pos r) + e) = e ->
  e <= 104 ->
  binary_round_aux 24 128 s M e l = S754_finite s r e.
Proof.
  intros H1 HR H2 He. unfold binary_round_aux, shr_fexp.
  rewrite H1, Z.sub_diag. simpl shr. lazy beta iota zeta.
  rewrite loc_round_trip, shr_m_of_loc, HR.
  simpl Zdigits2. rewrite H2, Z.sub_diag. simpl.
  change (128 - 24) with 104.
  replace (e <=? 104) with true by (symmetry; apply Z.leb_le; lia).
  reflexivity.
Qed.

(** Rounding an exact mantissa shifted by [n] places, when the rounded
    mantissa needs no further shift. *)
Lemma round_aux_shift (s : bool) (m : positive) (e : Z) (n r : positive) :
  fexp 24 128 (Z.pos (digits2_pos m) + e) - e = Z.pos n ->
  (let mrs := SpecFloat.iter_pos shr_1 n (Build_shr_record (Z.pos m) false false) in
   round_nearest_even (shr_m mrs) (loc_of_shr_record mrs)) = Z.pos r ->
  fexp 24 128 (Z.pos (digits2_pos r) + (e + Z.pos n)) = e + Z.pos n ->
  e + Z.pos n <= 104 ->
  binary_round_aux 24 128 s (Z.pos m) e loc_Exact
  = S754_finite s r (e + Z.pos n).
Proof.
  intros H1 HR H2 He. unfold binary_round_aux, shr_fexp.
  simpl Zdigits2. rewrite H1. simpl shr. lazy beta iota zeta.
  cbv zeta in HR. rewrite HR.
  simpl Zdigits2. rewrite H2, Z.sub_diag. simpl.
  change (128 - 24) with 104.
  replace (e + Z.pos n <=? 104) with true
    by (symmetry; apply Z.leb_le; lia).
  reflexivity.
Qed.

Lemma valid_finite (s : bool) (m : positive) (e : Z) :
  F32.valid (S754_finite s m e) <->
  fexp 24 128 (Z.pos (digits2_pos m) + e) = e /\ e <= 104.
Proof.
  unfold F32.valid, valid_binary, bounded, canonical_mantissa.
  rewrite andb_true_iff, Z.eqb_eq, Z.leb_le. reflexivity.
Qed.

(** Multiplying a valid value by one gives it back. *)
Lemma mul_one_r (x : float) : F32.valid x -> F32.mul x F32.one = x.
Proof.
  destruct x as [[]|[]| |s m e]; try reflexivity.
  intros Hv. apply valid_finite in Hv as [Hc He].
  unfold F32.mul, F32.one, SFmul. rewrite xorb_false_r.
  pose proof (digits2_pos_bounds m) as Hd.
  assert (Hdig : Z.pos (digits2_pos (m * 8388608))
                 = Z.pos (digits2_pos m) + 23).
  { apply digits2_pos_unique. rewrite Pos2Z.inj_mul.
    replace (Z.pos (digits2_pos m) + 23 - 1)
      with (Z.pos (digits2_pos m) - 1 + 23) by lia.
    rewrite !Z.pow_add_r by lia. change (2 ^ 23) with 8388608.
    change (Z.pos 8388608) with 8388608. lia. }
  replace (S754_finite s m e) with (S754_finite s m (e + -23 + Z.pos 23))
    by (f_equal; lia).
  apply round_aux_shift.
  - rewrite Hdig, fexp_eq. rewrite fexp_eq in Hc. lia.
  - pose proof (round_shr_exact (Z.pos (m * 8388608)) 23 ltac:(lia))
      as [_ Hb]. cbv zeta in Hb |- *.
    set (R := round_nearest_even _ _) in *.
    rewrite Pos2Z.inj_mul in Hb. change (2 ^ 23) with 8388608 in Hb.
    change (Z.pos 8388608) with 8388608 in Hb. lia.
  - rewrite fexp_eq. rewrite fexp_eq in Hc. lia.
  - lia.
Qed.

(** *** The square root of a square *)


Lemma square_le (a b : Z) : 0 <= a <= b -> a * a <= b * b.
Proof. intros H. apply Z.mul_le_mono_nonneg; lia. Qed.

Lemma square_lt_inv (a b : Z) : 0 <= a -> 0 <= b -> a * a < b * b -> a < b.
Proof.
  intros Ha Hb H. destruct (Z.lt_ge_cases a b) as [|Hge]; auto.
  pose proof (square_le b a ltac:(lia)). lia.
Qed.

(** The square of a 24-bit mantissa, rounded to 24 bits: the shift [n],
    the rounded mantissa [r], and the rounding error. *)
Lemma square_rounds (m : positive) (e : Z) :
  Z.pos (digits2_pos m) = 24 -> -86 <= e <= 40 ->
  exists (n r : positive),
    (Z.pos n = 23 \/ Z.pos n = 24 /\ 2 ^ 47 <= Z.pos m * Z.pos m)
    /\ F32.mul (S754_finite false m e) (S754_finite false m e)
       = S754_finite false r (e + e + Z.pos n)
    /\ Z.pos (digits2_pos r) = 24
    /\ 2 * Z.abs (2 ^ Z.pos n * Z.pos r - Z.pos m * Z.pos m) <= 2 ^ Z.pos n.
Proof.
  intros Hd He.
  pose proof (digits2_pos_bounds m) as Hm. rewrite Hd in Hm.
  change (2 ^ (24 - 1)) with 8388608 in Hm.
  change (2 ^ 24) with 16777216 in Hm.
  set (P := Z.pos m) in *.
  assert (Hn : exists n : positive,
             (Z.pos n = 23 /\ P * P < 2 ^ 47
              \/ Z.pos n = 24 /\ 2 ^ 47 <= P * P)
             /\ Z.pos (digits2_pos (m * m)) = Z.pos n + 24).
  { destruct (Z.lt_ge_cases (P * P) (2 ^ 47)) as [Hlt|Hge].
    - exists 23%positive. split; [left; split; [reflexivity|exact Hlt]|].
      apply digits2_pos_unique. rewrite Pos2Z.inj_mul. fold P.
      change (2 ^ (Z.pos 23 + 24 - 1)) with (8388608 * 8388608).
      change (2 ^ (Z.pos 23 + 24)) with (2 ^ 47).
      pose proof (square_le 8388608 P ltac:(lia)). lia.
    - exists 24%positive. split; [right; split; [reflexivity|exact Hge]|].
      apply digits2_pos_unique. rewrite Pos2Z.inj_mul. fold P.
      change (2 ^ (Z.pos 24 + 24 - 1)) with (2 ^ 47).
      change (2 ^ (Z.pos 24 + 24)) with 281474976710656.
      pose proof (square_le P 16777215 ltac:(lia)). lia. }
  destruct Hn as (n & Hcase & Hdig).
  pose proof (round_shr_exact (Z.pos (m * m)) n ltac:(lia)) as [_ Hb].
  cbv zeta in Hb.
  remember (round_nearest_even _ _) as R eqn:ER in Hb.
  rewrite Pos2Z.inj_mul in Hb. fold P in Hb.
  assert (HR : 8388608 <= R < 16777216).
  { destruct Hcase as [[Hn Hlt]|[Hn Hge]]; rewrite Hn in Hb.
    - change (2 ^ 23) with 8388608 in Hb.
      change (2 ^ 47) with 140737488355328 in Hlt.
      assert (P < 11863284)
        by (apply square_lt_inv; try lia;
            change (11863284 * 11863284) with 140737507264656; lia).
      pose proof (square_le P 11863283 ltac:(lia)) as Hsq.
      change (11863283 * 11863283) with 140737483538089 in Hsq.
      pose proof (square_le 8388608 P ltac:(lia)) as Hsq'.
      change (8388608 * 8388608) with 70368744177664 in Hsq'. lia.
    - change (2 ^ 24) with 16777216 in Hb.
      change (2 ^ 47) with 140737488355328 in Hge.
      pose proof (square_le P 16777215 ltac:(lia)) as Hsq.
      change (16777215 * 16777215) with 281474943156225 in Hsq. lia. }
  destruct R as [|r|r]; try lia.
  assert (Hdr : Z.pos (digits2_pos r) = 24)
    by (apply digits2_pos_unique; simpl; lia).
  exists n, r. repeat split.
  - destruct Hcase as [[Hn _]|[Hn Hge]]; [left|right]; auto.
  - unfold F32.mul, SFmul. simpl xorb.
    apply round_aux_shift.
    + rewrite Hdig, fexp_eq. lia.
    + cbv zeta. symmetry. exact ER.
    + rewrite Hdr, fexp_eq. lia.
    + lia.
  - exact Hdr.
  - exact Hb.
Qed.

(** The square root of the rounded square of a binary32 value in
    [2^-63, 2^64) is the value itself. *)
Lemma sqrt_square (m : positive) (e : Z) :
  Z.pos (digits2_pos m) = 24 -> -86 <= e <= 40 ->
  F32.sqrtf (F32.mul (S754_finite false m e) (S754_finite false m e))
  = S754_finite false m e.
Proof.
  intros Hd He.
  destruct (square_rounds m e Hd He) as (n & r & Hn & -> & Hdr & Hb).
  pose proof (digits2_pos_bounds m) as Hm. rewrite Hd in Hm.
  change (2 ^ (24 - 1)) with 8388608 in Hm.
  change (2 ^ 24) with 16777216 in Hm.
  pose proof (digits2_pos_bounds r) as Hr. rewrite Hdr in Hr.
  change (2 ^ (24 - 1)) with 8388608 in Hr.
  change (2 ^ 24) with 16777216 in Hr.
  set (P := Z.pos m) in *. set (R := Z.pos r) in *.
  unfold F32.sqrtf, SFsqrt, SFsqrt_core_binary.
  simpl Zdigits2. rewrite Hdr.
  assert (He' : Z.min (fexp F32.prec F32.emax
                         (Z.div2 (24 + (e + e + Z.pos n) + 1)))
                  (Z.div2 (e + e + Z.pos n)) = e).
  { change (fexp F32.prec F32.emax) with (fexp 24 128).
    rewrite fexp_eq, !Z.div2_div.
    destruct Hn as [Hn|[Hn _]]; rewrite Hn; clear -He;
      Z.div_mod_to_equations; lia. }
  rewrite He'.
  replace (e + e + Z.pos n - 2 * e) with (Z.pos n) by lia.
  rewrite Z.shiftl_mul_pow2 by lia. fold R.
  pose proof (Z.sqrtrem_spec (R * 2 ^ Z.pos n) ltac:(lia)) as Hs.
  destruct (Z.sqrtrem (R * 2 ^ Z.pos n)) as [q rem].
  destruct Hs as [Hs1 Hs2].
  assert (Hq : (q = P /\ rem <= q) \/ (q = P - 1 /\ q < rem /\ 8388608 < P)).
  { destruct Hn as [Hn|[Hn Hge]]; rewrite Hn in *.
    - change (2 ^ 23) with 8388608 in *.
      assert (P - 1 <= q) by nia. assert (q <= P) by nia.
      assert (Hc : q = P \/ q = P - 1) by lia.
      destruct Hc as [->| ->]; [left; split; [reflexivity|nia]|right].
      repeat split; nia.
    - change (2 ^ 24) with 16777216 in *.
      change (2 ^ 47) with 140737488355328 in Hge.
      assert (11863284 <= P) by nia.
      assert (P - 1 <= q) by nia. assert (q <= P) by nia.
      assert (Hc : q = P \/ q = P - 1) by lia.
      destruct Hc as [->| ->]; [left; split; [reflexivity|nia]|right].
      repeat split; nia. }
  change (fexp F32.prec F32.emax) with (fexp 24 128).
  change (binary_round_aux F32.prec F32.emax)
    with (binary_round_aux 24 128).
  destruct Hq as [[-> Hle]|(-> & Hlt & Hbig)].
  - apply round_aux_noshift.
    + unfold P. simpl Zdigits2. rewrite Hd, fexp_eq. lia.
    + destruct (Z.eqb_spec rem 0); [reflexivity|].
      replace (rem <=? P) with true by (symmetry; apply Z.leb_le; lia).
      reflexivity.
    + rewrite Hd, fexp_eq. lia.
    + lia.
  - assert (Hq1 : exists q', P - 1 = Z.pos q'
                             /\ Z.pos (digits2_pos q') = 24).
    { destruct (P - 1) as [|q'|q'] eqn:Eq; try lia.
      exists q'. split; [reflexivity|].
      apply digits2_pos_unique. simpl. lia. }
    destruct Hq1 as (q' & Eq & Hdq). rewrite Eq in *.
    apply round_aux_noshift.
    + simpl Zdigits2. rewrite Hdq, fexp_eq. lia.
    + replace (rem =? 0) with false by (symmetry; apply Z.eqb_neq; lia).
      replace (rem <=? Z.pos q') with false
        by (symmetry; apply Z.leb_gt; lia).
      simpl round_nearest_even. fold P. lia.
    + rewrite Hd, fexp_eq. lia.
    + lia.
Qed.

(** *** Products are well formed *)


Lemma digits_le (m : positive) (k : Z) :
  0 <= k -> Z.pos m < 2 ^ k -> Z.pos (digits2_pos m) <= k.
Proof.
  intros Hk Hm. pose proof (digits2_pos_bounds m) as [Hlo _].
  destruct (Z.le_gt_cases (Z.pos (digits2_pos m)) k) as [|Hgt]; auto.
  assert (2 ^ k <= 2 ^ (Z.pos (digits2_pos m) - 1))
    by (apply Z.pow_le_mono_r; lia). lia.
Qed.

Lemma digits_ge (m : positive) (k : Z) :
  2 ^ k <= Z.pos m -> k + 1 <= Z.pos (digits2_pos m).
Proof.
  intros Hm. pose proof (digits2_pos_bounds m) as [_ Hhi].
  destruct (Z.le_gt_cases (k + 1) (Z.pos (digits2_pos m))) as [|Hgt]; auto.
  assert (2 ^ Z.pos (digits2_pos m) <= 2 ^ k)
    by (apply Z.pow_le_mono_r; lia). lia.
Qed.

(** The last step of [binary_round_aux]: a mantissa that is at most one
    binade too long comes out valid. *)
Lemma renormalised_valid (s : bool) (R E : Z) :
  0 <= R ->
  E <= fexp 24 128 (Zdigits2 R + E) <= E + 1 ->
  F32.valid
    (let '(mrs, e2) := shr_fexp 24 128 R E loc_Exact in
     match shr_m mrs with
     | 0 => S754_zero s
     | Z.pos m => if e2 <=? 128 - 24 then S754_finite s m e2
                  else S754_infinity s
     | Z.neg _ => S754_nan
     end).
Proof.
  intros HR HE. unfold shr_fexp.
  assert (Hc : fexp 24 128 (Zdigits2 R + E) - E = 0
               \/ fexp 24 128 (Zdigits2 R + E) - E = 1) by lia.
  destruct Hc as [Hc|Hc]; rewrite Hc; unfold shr; lazy beta iota zeta.
  - destruct R as [|r|r]; try reflexivity. simpl shr_m.
    change (128 - 24) with 104.
    destruct (Z.leb_spec E 104); [|reflexivity].
    apply valid_finite. simpl Zdigits2 in Hc. split; lia.
  - change (SpecFloat.iter_pos shr_1 1 (shr_record_of_loc R loc_Exact))
      with (shr_1 (Build_shr_record R false false)).
    rewrite shr_1_nonneg by exact HR. simpl shr_m.
    change (128 - 24) with 104.
    destruct R as [|[r|r|]|r]; try reflexivity; simpl Z.div2;
      destruct (Z.leb_spec (E + 1) 104); try reflexivity;
      apply valid_finite; simpl Zdigits2 in Hc;
      rewrite Pos2Z.inj_succ in Hc; rewrite !fexp_eq in *; split; lia.
Qed.

(** Rounding an exact positive mantissa that needs no left shift gives a
    valid value. *)
Lemma round_aux_valid (s : bool) (m : positive) (e : Z) :
  e <= fexp 24 128 (Z.pos (digits2_pos m) + e) ->
  F32.valid (binary_round_aux 24 128 s (Z.pos m) e loc_Exact).
Proof.
  intros Hn. unfold binary_round_aux.
  pose proof (digits2_pos_bounds m) as [Hlo Hhi].
  set (d := Z.pos (digits2_pos m)) in *.
  unfold shr_fexp at 1. simpl Zdigits2. fold d.
  destruct (fexp 24 128 (d + e) - e) as [|n|n] eqn:En; try lia.
  - simpl shr. lazy beta iota zeta. simpl shr_m. simpl loc_of_shr_record.
    simpl round_nearest_even.
    apply renormalised_valid; [lia|]. simpl Zdigits2. fold d. lia.
  - simpl shr. lazy beta iota zeta.
    pose proof (round_shr_exact (Z.pos m) n ltac:(lia)) as [HR _].
    cbv zeta in HR. set (R := round_nearest_even _ _) in *.
    assert (Hp : 0 < 2 ^ Z.pos n) by (apply Z.pow_pos_nonneg; lia).
    assert (Hq0 : 0 <= Z.pos m / 2 ^ Z.pos n) by (apply Z.div_pos; lia).
    assert (Hqlo : Z.pos n < d ->
                   2 ^ (d - Z.pos n - 1) <= Z.pos m / 2 ^ Z.pos n).
    { intros Hlt. apply Z.div_le_lower_bound; [lia|].
      rewrite <- Z.pow_add_r by lia.
      replace (Z.pos n + (d - Z.pos n - 1)) with (d - 1) by lia.
      exact Hlo. }
    apply renormalised_valid; [lia|].
    rewrite fexp_eq in En.
    destruct R as [|r|r] eqn:ER; try lia.
    + simpl Zdigits2. rewrite fexp_eq.
      destruct (Z.lt_ge_cases (Z.pos n) d) as [Hlt|Hge]; [|lia].
      specialize (Hqlo Hlt).
      assert (0 < 2 ^ (d - Z.pos n - 1)) by (apply Z.pow_pos_nonneg; lia).
      lia.
    + simpl Zdigits2.
      (* upper bound on the digits of the rounded mantissa *)
      assert (Hup : Z.pos (digits2_pos r) <= Z.max (d - Z.pos n) 0 + 1).
      { apply digits_le; [lia|].
        destruct (Z.le_gt_cases (Z.pos n) d) as [Hle|Hgt].
        - rewrite Z.max_l by lia.
          assert (Z.pos m / 2 ^ Z.pos n < 2 ^ (d - Z.pos n)).
          { apply Z.div_lt_upper_bound; [lia|].
            rewrite <- Z.pow_add_r by lia.
            replace (Z.pos n + (d - Z.pos n)) with d by lia. exact Hhi. }
          rewrite Z.pow_add_r by lia. change (2 ^ 1) with 2. lia.
        - rewrite Z.max_r by lia. simpl.
          assert (Z.pos m / 2 ^ Z.pos n = 0).
          { apply Z.div_small. split; [lia|].
            assert (2 ^ d <= 2 ^ Z.pos n)
              by (apply Z.pow_le_mono_r; lia). lia. }
          lia. }
      (* lower bound, when the mantissa is a full 24 bits *)
      assert (Hdn : d - Z.pos n = 24 -> 24 <= Z.pos (digits2_pos r)).
      { intros H24.
        assert (Hq23 : 2 ^ 23 <= Z.pos m / 2 ^ Z.pos n).
        { replace 23 with (d - Z.pos n - 1) by lia. apply Hqlo. lia. }
        pose proof (digits_ge r 23 ltac:(lia)). lia. }
      rewrite fexp_eq. lia.
Qed.

(** The product of two valid values is valid. *)
Lemma mul_valid (x y : float) :
  F32.valid x -> F32.valid y -> F32.valid (F32.mul x y).
Proof.
  destruct x as [sx|sx| |sx mx ex], y as [sy|sy| |sy my ey];
    try reflexivity.
  intros Hx Hy. apply valid_finite in Hx as [Hx _].
  apply valid_finite in Hy as [Hy _].
  unfold F32.mul, SFmul. apply round_aux_valid.
  pose proof (digits2_pos_bounds mx) as [Hxl Hxh].
  pose proof (digits2_pos_bounds my) as [Hyl Hyh].
  assert (Hd : Z.pos (digits2_pos mx) + Z.pos (digits2_pos my) - 1
               <= Z.pos (digits2_pos (mx * my))).
  { pose proof (digits_ge (mx * my)
                  (Z.pos (digits2_pos mx) - 1 + (Z.pos (digits2_pos my) - 1)))
      as Hg.
    rewrite Z.pow_add_r, Pos2Z.inj_mul in Hg by lia.
    assert (0 < 2 ^ (Z.pos (digits2_pos mx) - 1))
      by (apply Z.pow_pos_nonneg; lia).
    assert (0 < 2 ^ (Z.pos (digits2_pos my) - 1))
      by (apply Z.pow_pos_nonneg; lia).
    assert (2 ^ (Z.pos (digits2_pos mx) - 1) * 2 ^ (Z.pos (digits2_pos my) - 1)
            <= Z.pos mx * Z.pos my)
      by (apply Z.mul_le_mono_nonneg; lia).
    lia. }
  rewrite fexp_eq in *. lia.
Qed.

Lemma opp_valid (x : float) : F32.valid x -> F32.valid (F32.opp x).
Proof. destruct x; auto. Qed.

End F32Facts.

(** ** Reasoning rules for the monad and the loop over the axes *)

Lemma bind_Done {A B} (m : M A) (k : A -> M B) g a g' :
  m g = (Done a, g') -> bind m k g = k a g'.
Proof. unfold bind. intros ->. reflexivity. Qed.

Lemma bind_Done_inv {A B} (m : M A) (k : A -> M B) g b g' :
  bind m k g = (Done b, g') ->
  exists a g1, m g = (Done a, g1) /\ k a g1 = (Done b, g').
Proof.
  unfold bind. destruct (m g) as [[a| | |] g1]; intros H; try discriminate.
  eauto.
Qed.

(** Invariant rule: what holds before the loop and is kept by every turn that
    completes holds after the loop, if the loop completes. *)
Lemma for_axes_invariant {V} (body : nat -> Axis -> V -> M V)
    (I : nat -> V -> Globals -> Prop) :
  forall axes k v g v' g',
    for_axes body k axes v g = (Done v', g') ->
    I k v g ->
    (forall i a v1 g1 v2 g2,
        axes !! i = Some a -> I (k + i)%nat v1 g1 ->
        body (k + i)%nat a v1 g1 = (Done v2, g2) -> I (S (k + i)) v2 g2) ->
    I (k + length axes)%nat v' g'.
Proof.
  induction axes as [|a rest IH]; intros k v g v' g' Hrun Hinit Hstep.
  - simpl in *. injection Hrun as <- <-. rewrite Nat.add_0_r. exact Hinit.
  - simpl in Hrun. apply bind_Done_inv in Hrun as (v1 & g1 & Hbody & Hrest).
    replace (k + length (a :: rest))%nat with (S k + length rest)%nat
      by (simpl; lia).
    apply (IH (S k) v1 g1 v' g' Hrest).
    + specialize (Hstep 0%nat a v g v1 g1 eq_refl).
      rewrite Nat.add_0_r in Hstep. auto.
    + intros i a' v2 g2 v3 g3 Hi HI Hb.
      specialize (Hstep (S i) a' v2 g2 v3 g3 Hi).
      replace (k + S i)%nat with (S k + i)%nat in Hstep by lia. auto.
Qed.

(** Totality rule: the loop completes when every turn does. *)
Lemma for_axes_total {V} (body : nat -> Axis -> V -> M V) :
  forall axes k v g,
    (forall i a v1 g1, axes !! i = Some a ->
                       exists v2 g2, body (k + i)%nat a v1 g1 = (Done v2, g2)) ->
    exists v' g', for_axes body k axes v g = (Done v', g').
Proof.
  induction axes as [|a rest IH]; intros k v g Hstep.
  - simpl. eauto.
  - simpl. destruct (Hstep 0%nat a v g eq_refl) as (v1 & g1 & Hb).
    rewrite Nat.add_0_r in Hb. rewrite (bind_Done _ _ _ _ _ Hb).
    apply IH. intros i a' v2 g2 Hi.
    specialize (Hstep (S i) a' v2 g2 Hi).
    replace (k + S i)%nat with (S k + i)%nat in Hstep by lia. exact Hstep.
Qed.

(** ** The first loop of [plan_move], one turn *)

Lemma with_blocked_same g : with_blocked (blocked g ++ []) g = g.
Proof. rewrite app_nil_r. destruct g; reflexivity. Qed.

Lemma rate_and_travel_eq phase axis a h g :
  rate_and_travel phase axis a h g
  = (Done (rate_of phase h, travel_of phase a),
     with_blocked (blocked g ++ blocks_of phase axis a) g).
Proof.
  destruct phase; simpl; rewrite ?with_blocked_same; try reflexivity.
  unfold rate_and_travel, travel_of, blocks_of.
  destruct (F32.ltb (extraPulloff a) F32.zero); [reflexivity|].
  destruct (F32.gtb (extraPulloff a) F32.zero); [reflexivity|].
  rewrite with_blocked_same. reflexivity.
Qed.

Lemma first_pass_inactive motors phase axis a v g :
  active motors axis = false ->
  first_pass motors phase axis a v g = (Done v, g).
Proof.
  intros Hin. unfold first_pass. rewrite inactive_test, Hin. reflexivity.
Qed.

Lemma first_pass_active motors phase axis a h v g :
  active motors axis = true ->
  _homing a = Some h ->
  first_pass motors phase axis a v g
  = (Done (turn_locals (_approach g) phase axis a h v),
     turn_globals phase axis a g).
Proof.
  intros Hact Hh. unfold first_pass. rewrite inactive_test, Hact, Hh. simpl.
  unfold bind at 1. unfold set_motor_steps, modify.
  unfold bind at 1. rewrite rate_and_travel_eq. reflexivity.
Qed.

Lemma first_pass_fault motors phase axis a v g :
  active motors axis = true ->
  _homing a = None ->
  fst (first_pass motors phase axis a v g) = Fault.
Proof.
  intros Hact Hh. unfold first_pass. rewrite inactive_test, Hact, Hh.
  reflexivity.
Qed.

(** The invariant rule specialised to the first loop. *)
Lemma first_pass_invariant motors phase (I : nat -> PlanLocals -> Globals -> Prop)
    axes v0 g0 v g :
  for_axes (first_pass motors phase) 0 axes v0 g0 = (Done v, g) ->
  I 0%nat v0 g0 ->
  (forall i a h v1 g1,
      axes !! i = Some a -> active motors i = true -> _homing a = Some h ->
      I i v1 g1 ->
      I (S i) (turn_locals (_approach g1) phase i a h v1)
        (turn_globals phase i a g1)) ->
  (forall i a v1 g1,
      axes !! i = Some a -> active motors i = false -> I i v1 g1 ->
      I (S i) v1 g1) ->
  I (length axes) v g.
Proof.
  intros Hrun Hinit Hact Hin.
  apply (for_axes_invariant _ I axes 0%nat v0 g0 v g Hrun Hinit).
  intros i a v1 g1 v2 g2 Hi HI Hbody. simpl in *.
  destruct (active motors i) eqn:Ha.
  - destruct (_homing a) as [h|] eqn:Hh.
    + rewrite (first_pass_active _ _ _ _ h) in Hbody by assumption.
      injection Hbody as <- <-. eauto.
    + pose proof (first_pass_fault motors phase i a v1 g1 Ha Hh) as Hf.
      rewrite Hbody in Hf. discriminate.
  - rewrite first_pass_inactive in Hbody by assumption.
    injection Hbody as <- <-. eauto.
Qed.

Lemma first_pass_total config motors phase v0 g0 :
  homing_ready config motors ->
  exists v g,
    for_axes (first_pass motors phase) 0 (_axis config) v0 g0 = (Done v, g).
Proof.
  intros Hready. apply for_axes_total. intros i a v1 g1 Hi. simpl.
  destruct (active motors i) eqn:Ha.
  - destruct (Hready i a Hi Ha) as [h Hh].
    rewrite (first_pass_active _ _ _ _ h) by assumption. eauto.
  - rewrite first_pass_inactive by assumption. eauto.
Qed.

(** ** The second loop of [plan_move], one turn *)

Lemma second_pass_skip phase seeking v axis a tgt g :
  Z.testbit (axesMask v) (Z.of_nat axis) = false ->
  second_pass phase seeking v axis a tgt g = (Done tgt, g).
Proof.
  intros Hb. unfold second_pass. rewrite bitnum_is_true_testbit, Hb.
  reflexivity.
Qed.

Lemma second_pass_scale phase v axis a h tgt g :
  Z.testbit (axesMask v) (Z.of_nat axis) = true ->
  _homing a = Some h ->
  let final :=
    scaled_target phase (scaler_of (_approach g) phase h) (tgt !!! axis)
      (rates v !!! axis) (limitingRate v) in
  second_pass phase (HomingPhase_eqb phase FastApproach) v axis a tgt g
  = (Done (<[axis := final]> tgt),
     with_calls (calls g ++ [log_target_call axis final (rates v !!! axis)]) g).
Proof.
  intros Hb Hh. unfold second_pass. rewrite bitnum_is_true_testbit, Hb, Hh.
  reflexivity.
Qed.

Lemma second_pass_fault phase seeking v axis a tgt g :
  Z.testbit (axesMask v) (Z.of_nat axis) = true ->
  _homing a = None ->
  fst (second_pass phase seeking v axis a tgt g) = Fault.
Proof.
  intros Hb Hh. unfold second_pass. rewrite bitnum_is_true_testbit, Hb, Hh.
  reflexivity.
Qed.

(** ** [plan_move] as its two loops and its tail *)

Lemma plan_move_unfold config motors phase g v g1 tgt g2 :
  for_axes (first_pass motors phase) 0 (_axis config)
    (initial_locals config g) g = (Done v, g1) ->
  for_axes (second_pass phase (HomingPhase_eqb phase FastApproach) v) 0
    (_axis config) (target v) g1 = (Done tgt, g2) ->
  plan_move config motors phase g = (Done (settle v), planned v tgt g2).
Proof.
  intros H1 H2. unfold plan_move.
  unfold bind at 1. unfold get at 1.
  fold (initial_locals config g).
  rewrite (bind_Done _ _ _ _ _ H1).
  rewrite (bind_Done _ _ _ _ _ H2).
  reflexivity.
Qed.

(** ** What the first loop of [plan_move] establishes *)

Section FirstLoop.

Variables (motors : MotorMask) (phase : HomingPhase) (axes : list Axis).
Variables (v0 v : PlanLocals) (g0 g : Globals).
Hypothesis Hrun :
  for_axes (first_pass motors phase) 0 axes v0 g0 = (Done v, g).

(** Only the step counters and the blocked motors change. *)
Lemma first_loop_frame :
  g = with_blocked (blocked g) (with_motor_steps (motor_steps g) g0).
Proof.
  apply (first_pass_invariant motors phase
           (fun _ _ g1 =>
              g1 = with_blocked (blocked g1)
                     (with_motor_steps (motor_steps g1) g0))
           axes v0 g0 v g Hrun).
  - destruct g0; reflexivity.
  - intros i a h v1 g1 _ _ _ ->. reflexivity.
  - auto.
Qed.

Lemma first_loop_approach : _approach g = _approach g0.
Proof. rewrite first_loop_frame. reflexivity. Qed.

Lemma first_loop_steps_inactive j :
  active motors j = false -> motor_steps g !! j = motor_steps g0 !! j.
Proof.
  intros Hj.
  apply (first_pass_invariant motors phase
           (fun _ _ g1 => motor_steps g1 !! j = motor_steps g0 !! j)
           axes v0 g0 v g Hrun); auto.
  intros i a h v1 g1 _ Hi _ IH. simpl.
  rewrite list_lookup_insert_ne; [exact IH|]. intros ->. congruence.
Qed.

Lemma first_loop_target_inactive j :
  active motors j = false -> target v !! j = target v0 !! j.
Proof.
  intros Hj.
  apply (first_pass_invariant motors phase
           (fun _ v1 _ => target v1 !! j = target v0 !! j)
           axes v0 g0 v g Hrun); auto.
  intros i a h v1 g1 _ Hi _ IH. simpl.
  rewrite list_lookup_insert_ne; [exact IH|]. intros ->. congruence.
Qed.

Lemma first_loop_target_length : length (target v) = length (target v0).
Proof.
  apply (first_pass_invariant motors phase
           (fun _ v1 _ => length (target v1) = length (target v0))
           axes v0 g0 v g Hrun); auto.
  intros i a h v1 g1 _ _ _ IH. simpl. rewrite length_insert. exact IH.
Qed.

Lemma first_loop_rates_length : length (rates v) = length (rates v0).
Proof.
  apply (first_pass_invariant motors phase
           (fun _ v1 _ => length (rates v1) = length (rates v0))
           axes v0 g0 v g Hrun); auto.
  intros i a h v1 g1 _ _ _ IH. simpl. rewrite length_insert. exact IH.
Qed.

(** The provisional target of an active axis is its signed travel. *)
Lemma first_loop_target_active j a h :
  axes !! j = Some a -> _homing a = Some h -> active motors j = true ->
  (j < length (target v0))%nat ->
  target v !! j = Some (signed_travel (_approach g0) phase a h).
Proof.
  intros Hj Hh Hact Hlen.
  pose (I := fun (k : nat) (v1 : PlanLocals) (g1 : Globals) =>
       _approach g1 = _approach g0 /\
       length (target v1) = length (target v0) /\
       ((j < k)%nat ->
        target v1 !! j = Some (signed_travel (_approach g0) phase a h))).
  assert (Hinv : I (length axes) v g).
  { apply (first_pass_invariant motors phase I axes v0 g0 v g Hrun);
      unfold I.
    - repeat split; auto. lia.
    - intros i a' h' v1 g1 Hi Ha' Hh' (Happ & Hl & IH). simpl.
      repeat split; auto.
      + rewrite length_insert. exact Hl.
      + intros Hlt. destruct (Nat.eq_dec i j) as [->|Hne].
        * rewrite list_lookup_insert_eq by lia.
          assert (a' = a) by congruence. subst a'.
          assert (h' = h) by congruence. subst h'.
          rewrite Happ. reflexivity.
        * rewrite list_lookup_insert_ne by exact Hne. apply IH. lia.
    - intros i a' v1 g1 Hi Ha' (Happ & Hl & IH). repeat split; auto.
      intros Hlt. destruct (Nat.eq_dec i j) as [->|Hne]; [congruence|].
      apply IH. lia. }
  apply Hinv. apply lookup_lt_Some in Hj. exact Hj.
Qed.

(** The recorded rate of an active axis is its rate for the phase. *)
Lemma first_loop_rates_active j a h :
  axes !! j = Some a -> _homing a = Some h -> active motors j = true ->
  (j < length (rates v0))%nat ->
  rates v !! j = Some (rate_of phase h).
Proof.
  intros Hj Hh Hact Hlen.
  pose (I := fun (k : nat) (v1 : PlanLocals) (g1 : Globals) =>
       length (rates v1) = length (rates v0) /\
       ((j < k)%nat -> rates v1 !! j = Some (rate_of phase h))).
  assert (Hinv : I (length axes) v g).
  { apply (first_pass_invariant motors phase I axes v0 g0 v g Hrun);
      unfold I.
    - split; auto. lia.
    - intros i a' h' v1 g1 Hi Ha' Hh' (Hl & IH). simpl. split.
      + rewrite length_insert. exact Hl.
      + intros Hlt. destruct (Nat.eq_dec i j) as [->|Hne].
        * rewrite list_lookup_insert_eq by lia.
          assert (a' = a) by congruence. subst a'.
          assert (h' = h) by congruence. subst h'. reflexivity.
        * rewrite list_lookup_insert_ne by exact Hne. apply IH. lia.
    - intros i a' v1 g1 Hi Ha' (Hl & IH). split; auto.
      intros Hlt. destruct (Nat.eq_dec i j) as [->|Hne]; [congruence|].
      apply IH. lia. }
  apply Hinv. apply lookup_lt_Some in Hj. exact Hj.
Qed.

(** [axesMask] records exactly the active axes among those configured. *)
Lemma first_loop_mask j :
  Z.testbit (axesMask v) (Z.of_nat j)
  = Z.testbit (axesMask v0) (Z.of_nat j)
    || (j <? length axes)%nat && active motors j.
Proof.
  apply (first_pass_invariant motors phase
           (fun k v1 _ =>
              Z.testbit (axesMask v1) (Z.of_nat j)
              = Z.testbit (axesMask v0) (Z.of_nat j)
                || (j <? k)%nat && active motors j)
           axes v0 g0 v g Hrun).
  - simpl. rewrite orb_false_r. reflexivity.
  - intros i a h v1 g1 _ Hi _ IH. simpl.
    rewrite set_bitnum_testbit, IH.
    destruct (Nat.eqb_spec i j) as [->|Hne].
    + rewrite Hi. replace (j <? S j)%nat with true
        by (symmetry; apply Nat.ltb_lt; lia).
      rewrite orb_true_r. simpl. rewrite orb_true_r. reflexivity.
    + rewrite orb_false_r. f_equal. f_equal.
      destruct (Nat.ltb_spec j i), (Nat.ltb_spec j (S i)); auto; lia.
  - intros i a v1 g1 _ Hi IH. rewrite IH. f_equal.
    destruct (Nat.eq_dec i j) as [->|Hne].
    + rewrite Hi, !andb_false_r. reflexivity.
    + f_equal.
      destruct (Nat.ltb_spec j i), (Nat.ltb_spec j (S i)); auto; lia.
Qed.

End FirstLoop.

(** ** The sums and the limiting axis of the first loop *)

Lemma first_loop_rate motors phase :
  forall axes k v0 g0 v g,
    for_axes (first_pass motors phase) k axes v0 g0 = (Done v, g) ->
    rate v
    = fold_left (fun acc r => F32.add acc (F32.mul r r))
        (active_rates phase motors k axes) (rate v0).
Proof.
  induction axes as [|a rest IH]; intros k v0 g0 v g Hrun; simpl in Hrun.
  - injection Hrun as <- <-. reflexivity.
  - apply bind_Done_inv in Hrun as (v1 & g1 & Hbody & Hrest).
    apply IH in Hrest. rewrite Hrest. simpl.
    destruct (active motors k) eqn:Hact.
    + destruct (_homing a) as [h|] eqn:Hh.
      * rewrite (first_pass_active _ _ _ _ h) in Hbody by assumption.
        injection Hbody as <- <-. reflexivity.
      * pose proof (first_pass_fault motors phase k a v0 g0 Hact Hh) as Hf.
        rewrite Hbody in Hf. discriminate.
    + rewrite first_pass_inactive in Hbody by assumption.
      injection Hbody as <- <-. destruct (_homing a); reflexivity.
Qed.

Lemma first_loop_blocked motors phase :
  forall axes k v0 g0 v g,
    for_axes (first_pass motors phase) k axes v0 g0 = (Done v, g) ->
    blocked g = blocked g0 ++ phase_blocks phase motors k axes.
Proof.
  induction axes as [|a rest IH]; intros k v0 g0 v g Hrun; simpl in Hrun.
  - injection Hrun as <- <-. simpl. rewrite app_nil_r. reflexivity.
  - apply bind_Done_inv in Hrun as (v1 & g1 & Hbody & Hrest).
    apply IH in Hrest. rewrite Hrest. simpl.
    destruct (active motors k) eqn:Hact.
    + destruct (_homing a) as [h|] eqn:Hh.
      * rewrite (first_pass_active _ _ _ _ h) in Hbody by assumption.
        injection Hbody as <- <-. simpl. rewrite app_assoc. reflexivity.
      * pose proof (first_pass_fault motors phase k a v0 g0 Hact Hh) as Hf.
        rewrite Hbody in Hf. discriminate.
    + rewrite first_pass_inactive in Hbody by assumption.
      injection Hbody as <- <-. destruct (_homing a); reflexivity.
Qed.

Section Limiting.

Variables (motors : MotorMask) (phase : HomingPhase) (axes : list Axis).

Lemma first_loop_limiting v0 g0 v g :
  for_axes (first_pass motors phase) 0 axes v0 g0 = (Done v, g) ->
  maxSeekTime v0 = F32.zero -> limitingRate v0 = F32.zero ->
  limiting_upto motors phase axes (length axes) v.
Proof.
  intros Hrun Hm0 Hl0.
  apply (first_pass_invariant motors phase (fun k v1 _ => limiting_upto motors phase axes k v1)
           axes v0 g0 v g Hrun).
  - left. repeat split; auto. intros; lia.
  - intros i a h v1 g1 Hi Hact Hh IH.
    assert (Htp : takes_part motors axes i a h) by (repeat split; assumption).
    unfold limiting_upto. simpl.
    destruct (F32.gtb (seek_time phase a h) (maxSeekTime v1)) eqn:Hgt.
    + (* this axis takes over *)
      right. exists i, a, h.
      assert (Hpos : F32.gtb (seek_time phase a h) F32.zero = true).
      { destruct IH as [(Hm & _ & _)|(j & a' & h' & _ & _ & Hm & _ & Hp & _)].
        - rewrite Hm in Hgt. exact Hgt.
        - rewrite Hm in Hgt. unfold F32.gtb in *.
          eapply F32Facts.ltb_trans; eassumption. }
      repeat split; auto; try apply Htp.
      * intros i' a' h' Hlt Htp'.
        destruct (Nat.eq_dec i' i) as [->|Hne].
        { destruct Htp as (E1 & E2 & _), Htp' as (E1' & E2' & _).
          assert (a' = a) by congruence. subst a'.
          assert (h' = h) by congruence. subst h'.
          unfold F32.gtb, F32.ltb, SFltb, SFcompare.
          destruct (seek_time phase a h) as [[]|[]| |[] m e]; simpl; auto;
            rewrite Z.compare_refl, Pos.compare_cont_refl; reflexivity. }
        destruct (F32.gtb (seek_time phase a' h') (seek_time phase a h))
          eqn:Hc; [exfalso|reflexivity].
        assert (Hold : F32.gtb (seek_time phase a' h') (maxSeekTime v1)
                       = false).
        { destruct IH as [(Hm & _ & Hn)|(j & a2 & h2 & _ & _ & Hm & _ & _ & Hn & _)];
            rewrite Hm; apply (Hn i'); auto; lia. }
        unfold F32.gtb in *.
        rewrite (F32Facts.ltb_trans _ _ _ Hgt Hc) in Hold. discriminate.
      * intros i' a' h' Hlt Htp'.
        destruct (F32.leb (seek_time phase a h) (seek_time phase a' h'))
          eqn:Hc; [exfalso|reflexivity].
        assert (Hold : F32.gtb (seek_time phase a' h') (maxSeekTime v1)
                       = false).
        { destruct IH as [(Hm & _ & Hn)|(j & a2 & h2 & _ & _ & Hm & _ & _ & Hn & _)];
            rewrite Hm; apply (Hn i'); auto; lia. }
        unfold F32.gtb in *.
        rewrite (F32Facts.ltb_leb_trans _ _ _ Hgt Hc) in Hold. discriminate.
    + (* the limiting axis stays *)
      destruct IH as [(Hm & Hl & Hn)|(j & a2 & h2 & Hj & Htp2 & Hm & Hl & Hp & Hn & Hf)].
      * left. repeat split; auto. intros i' a' h' Hlt Htp'.
        destruct (Nat.eq_dec i' i) as [->|Hne].
        { destruct Htp as (E1 & E2 & _), Htp' as (E1' & E2' & _).
          assert (a' = a) by congruence. subst a'.
          assert (h' = h) by congruence. subst h'.
          rewrite Hm in Hgt. exact Hgt. }
        apply (Hn i'); auto. lia.
      * right. exists j, a2, h2. repeat split; auto; try apply Htp2.
        intros i' a' h' Hlt Htp'.
        destruct (Nat.eq_dec i' i) as [->|Hne].
        { destruct Htp as (E1 & E2 & _), Htp' as (E1' & E2' & _).
          assert (a' = a) by congruence. subst a'.
          assert (h' = h) by congruence. subst h'.
          rewrite Hm in Hgt. exact Hgt. }
        apply (Hn i'); auto. lia.
  - intros i a v1 g1 Hi Hact IH.
    destruct IH as [(Hm & Hl & Hn)|(j & a2 & h2 & Hj & Htp2 & Hm & Hl & Hp & Hn & Hf)].
    + left. repeat split; auto. intros i' a' h' Hlt Htp'.
      destruct (Nat.eq_dec i' i) as [->|Hne].
      { destruct Htp' as (_ & _ & E). congruence. }
      apply (Hn i'); auto. lia.
    + right. exists j, a2, h2. repeat split; auto; try apply Htp2.
      intros i' a' h' Hlt Htp'.
      destruct (Nat.eq_dec i' i) as [->|Hne].
      { destruct Htp' as (_ & _ & E). congruence. }
      apply (Hn i'); auto. lia.
Qed.

End Limiting.

(** ** What the second loop of [plan_move] establishes *)

Lemma second_pass_invariant phase v (I : nat -> list float -> Globals -> Prop)
    axes t0 g1 tgt g2 :
  for_axes (second_pass phase (HomingPhase_eqb phase FastApproach) v) 0 axes
    t0 g1 = (Done tgt, g2) ->
  I 0%nat t0 g1 ->
  (forall i a h t g,
      axes !! i = Some a -> Z.testbit (axesMask v) (Z.of_nat i) = true ->
      _homing a = Some h -> I i t g ->
      let final :=
        scaled_target phase (scaler_of (_approach g) phase h) (t !!! i)
          (rates v !!! i) (limitingRate v) in
      I (S i) (<[i := final]> t)
        (with_calls (calls g ++ [log_target_call i final (rates v !!! i)]) g)) ->
  (forall i a t g,
      axes !! i = Some a -> Z.testbit (axesMask v) (Z.of_nat i) = false ->
      I i t g -> I (S i) t g) ->
  I (length axes) tgt g2.
Proof.
  intros Hrun Hinit Hset Hskip.
  apply (for_axes_invariant _ I axes 0%nat t0 g1 tgt g2 Hrun Hinit).
  intros i a t g t' g' Hi HI Hbody. simpl in *.
  destruct (Z.testbit (axesMask v) (Z.of_nat i)) eqn:Hb.
  - destruct (_homing a) as [h|] eqn:Hh.
    + rewrite (second_pass_scale _ _ _ _ h) in Hbody by assumption.
      injection Hbody as <- <-. eauto.
    + pose proof (second_pass_fault phase (HomingPhase_eqb phase FastApproach)
                    v i a t g Hb Hh) as Hf.
      rewrite Hbody in Hf. discriminate.
  - rewrite second_pass_skip in Hbody by assumption.
    injection Hbody as <- <-. eauto.
Qed.

Section SecondLoop.

Variables (phase : HomingPhase) (v : PlanLocals) (axes : list Axis).
Variables (t0 tgt : list float) (g1 g2 : Globals).
Hypothesis Hrun :
  for_axes (second_pass phase (HomingPhase_eqb phase FastApproach) v) 0 axes
    t0 g1 = (Done tgt, g2).

(** Only the record of calls grows. *)
Lemma second_loop_frame : g2 = with_calls (calls g2) g1.
Proof.
  apply (second_pass_invariant phase v
           (fun _ _ g => g = with_calls (calls g) g1)
           axes t0 g1 tgt g2 Hrun).
  - destruct g1; reflexivity.
  - intros i a h t g _ _ _ ->. reflexivity.
  - auto.
Qed.

Lemma second_loop_length : length tgt = length t0.
Proof.
  apply (second_pass_invariant phase v
           (fun _ t _ => length t = length t0) axes t0 g1 tgt g2 Hrun); auto.
  intros i a h t g _ _ _ IH. simpl. rewrite length_insert. exact IH.
Qed.

Lemma second_loop_unmarked j :
  Z.testbit (axesMask v) (Z.of_nat j) = false -> tgt !! j = t0 !! j.
Proof.
  intros Hj.
  apply (second_pass_invariant phase v
           (fun _ t _ => t !! j = t0 !! j) axes t0 g1 tgt g2 Hrun); auto.
  intros i a h t g _ Hi _ IH. simpl.
  rewrite list_lookup_insert_ne; [exact IH|]. intros ->. congruence.
Qed.

(** A marked axis ends with its provisional target scaled. *)
Lemma second_loop_marked j a h :
  axes !! j = Some a -> _homing a = Some h ->
  Z.testbit (axesMask v) (Z.of_nat j) = true ->
  (j < length t0)%nat ->
  tgt !! j
  = Some (scaled_target phase (scaler_of (_approach g1) phase h) (t0 !!! j)
            (rates v !!! j) (limitingRate v)).
Proof.
  intros Hj Hh Hbit Hlen.
  pose (I := fun (k : nat) (t : list float) (g : Globals) =>
       _approach g = _approach g1 /\
       length t = length t0 /\
       (forall j', (k <= j')%nat -> t !! j' = t0 !! j') /\
       ((j < k)%nat ->
        t !! j
        = Some (scaled_target phase (scaler_of (_approach g1) phase h)
                  (t0 !!! j) (rates v !!! j) (limitingRate v)))).
  assert (Hinv : I (length axes) tgt g2).
  { apply (second_pass_invariant phase v I axes t0 g1 tgt g2 Hrun);
      unfold I.
    - repeat split; auto. lia.
    - intros i a' h' t g Hi Hb' Hh' (Happ & Hl & Hrest & IH). simpl.
      repeat split; auto.
      + rewrite length_insert. exact Hl.
      + intros j' Hle. rewrite list_lookup_insert_ne by lia.
        apply Hrest. lia.
      + intros Hlt. destruct (Nat.eq_dec i j) as [->|Hne].
        * rewrite list_lookup_insert_eq by lia.
          assert (a' = a) by congruence. subst a'.
          assert (h' = h) by congruence. subst h'.
          rewrite Happ. do 2 f_equal.
          rewrite !list_lookup_total_alt, Hrest by lia. reflexivity.
        * rewrite list_lookup_insert_ne by exact Hne. apply IH. lia.
    - intros i a' t g Hi Hb' (Happ & Hl & Hrest & IH). repeat split; auto.
      + intros j' Hle. apply Hrest. lia.
      + intros Hlt. destruct (Nat.eq_dec i j) as [->|Hne]; [congruence|].
        apply IH. lia. }
  apply Hinv. apply lookup_lt_Some in Hj. exact Hj.
Qed.

End SecondLoop.

Lemma second_pass_total phase seeking v axes t0 g1 :
  (forall i a, axes !! i = Some a ->
               Z.testbit (axesMask v) (Z.of_nat i) = true ->
               is_Some (_homing a)) ->
  exists tgt g2,
    for_axes (second_pass phase seeking v) 0 axes t0 g1 = (Done tgt, g2).
Proof.
  intros Hready. apply for_axes_total. intros i a t g Hi. simpl.
  unfold second_pass. rewrite bitnum_is_true_testbit.
  destruct (Z.testbit (axesMask v) (Z.of_nat i)) eqn:Hb; [|eauto].
  destruct (Hready i a Hi Hb) as [h ->]. eauto.
Qed.

(** ** [plan_move] completes, and how *)

Lemma plan_move_runs config motors phase g :
  homing_ready config motors ->
  exists v g1 tgt g2,
    for_axes (first_pass motors phase) 0 (_axis config)
      (initial_locals config g) g = (Done v, g1)
    /\ for_axes (second_pass phase (HomingPhase_eqb phase FastApproach) v) 0
         (_axis config) (target v) g1 = (Done tgt, g2)
    /\ plan_move config motors phase g = (Done (settle v), planned v tgt g2).
Proof.
  intros Hready.
  destruct (first_pass_total config motors phase (initial_locals config g) g
              Hready) as (v & g1 & H1).
  destruct (second_pass_total phase (HomingPhase_eqb phase FastApproach) v
              (_axis config) (target v) g1) as (tgt & g2 & H2).
  { intros i a Hi Hb.
    rewrite (first_loop_mask _ _ _ _ _ _ _ H1) in Hb. simpl in Hb.
    rewrite Z.bits_0 in Hb. simpl in Hb.
    apply andb_prop in Hb as [_ Hact]. eauto. }
  exists v, g1, tgt, g2. repeat split; auto.
  eapply plan_move_unfold; eassumption.
Qed.

(** ** The planner block of [plan_move] *)

Lemma ready_from_sound motors :
  forall axes k i a,
    ready_from motors k axes = true ->
    axes !! i = Some a -> active motors (k + i) = true ->
    is_Some (_homing a).
Proof.
  induction axes as [|a0 rest IH]; intros k i a Hr Hi Hact; [discriminate|].
  simpl in Hr. apply andb_prop in Hr as [H0 Hrest].
  destruct i as [|i]; simpl in Hi.
  - injection Hi as <-. rewrite Nat.add_0_r in Hact. rewrite Hact in H0.
    simpl in H0. destruct (_homing a0); [eauto|discriminate].
  - apply (IH (S k) i a Hrest Hi).
    replace (S k + i)%nat with (k + S i)%nat by lia. exact Hact.
Qed.

Lemma homing_readyb_sound config motors :
  homing_readyb config motors = true -> homing_ready config motors.
Proof.
  intros Hr axis a Hi Hact.
  exact (ready_from_sound motors (_axis config) 0 axis a Hr Hi Hact).
Qed.

Lemma planner_planned v tgt g :
  planner (planned v tgt g) = planner g ++ [(tgt, plan_data_of v)].
Proof. reflexivity. Qed.

(** [plan_move] completes and queues exactly one block; the loops give the
    locals [v] and the target [tgt] of that block. *)
Lemma plan_move_block config motors phase g :
  homing_ready config motors ->
  exists v g1 tgt g2,
    for_axes (first_pass motors phase) 0 (_axis config)
      (initial_locals config g) g = (Done v, g1)
    /\ for_axes (second_pass phase (HomingPhase_eqb phase FastApproach) v) 0
         (_axis config) (target v) g1 = (Done tgt, g2)
    /\ plan_move config motors phase g = (Done (settle v), planned v tgt g2)
    /\ planner (planned v tgt g2) = planner g ++ [(tgt, plan_data_of v)]
    /\ _approach g1 = _approach g.
Proof.
  intros Hready.
  destruct (plan_move_runs config motors phase g Hready)
    as (v & g1 & tgt & g2 & H1 & H2 & H3).
  exists v, g1, tgt, g2. repeat split; auto.
  - rewrite planner_planned. f_equal.
    rewrite (second_loop_frame _ _ _ _ _ _ _ H2).
    rewrite (first_loop_frame _ _ _ _ _ _ _ H1). reflexivity.
  - exact (first_loop_approach _ _ _ _ _ _ _ H1).
Qed.

Lemma add_zero_finite s m e :
  F32.add F32.zero (S754_finite s m e) = S754_finite s m e.
Proof. reflexivity. Qed.

(** The norm of a single rate in the safe range is that rate. *)
Lemma norm_single (r : float) :
  F32.square_safe r = true -> euclidean_norm [r] = r.
Proof.
  change (euclidean_norm [r])
    with (F32.sqrtf (F32.add F32.zero (F32.mul r r))).
  destruct r as [[]| | |[] m e]; try discriminate; [reflexivity|].
  unfold F32.square_safe. intros H. apply andb_prop in H as [H He2].
  apply andb_prop in H as [Hd He1].
  apply Z.eqb_eq in Hd. apply Z.leb_le in He1, He2.
  destruct (F32Facts.square_rounds m e Hd (conj He1 He2))
    as (n & r & _ & Hmul & _).
  pose proof (F32Facts.sqrt_square m e Hd (conj He1 He2)) as Hs.
  rewrite Hmul in Hs |- *. rewrite add_zero_finite. exact Hs.
Qed.

(** C1 (amended).  [plan_move] completes and hands the planner one block
    whose feed rate is the Euclidean norm of the rates of the active axes:
    the binary32 square root of the binary32 sum of their squares, taken in
    axis order.  When exactly one axis is active and its rate is [+0] or a
    normal value in [2^-63, 2^64), so that its square neither overflows nor
    underflows, the feed rate is that rate itself. *)
Theorem plan_move_feed_rate config motors phase g :
  homing_readyb config motors = true ->
  exists settle_ms tgt data g',
    plan_move config motors phase g = (Done settle_ms, g')
    /\ planner g' = planner g ++ [(tgt, data)]
    /\ feed_rate data
       = euclidean_norm (active_rates phase motors 0 (_axis config))
    /\ (forall r,
           active_rates phase motors 0 (_axis config) = [r] ->
           F32.square_safe r = true ->
           feed_rate data = r).
Proof.
  intros Hready. apply homing_readyb_sound in Hready.
  destruct (plan_move_block config motors phase g Hready)
    as (v & g1 & tgt & g2 & H1 & H2 & H3 & H4 & _).
  exists (settle v), tgt, (plan_data_of v), (planned v tgt g2).
  assert (Hfeed : feed_rate (plan_data_of v)
                  = euclidean_norm (active_rates phase motors 0 (_axis config))).
  { simpl. unfold euclidean_norm. f_equal.
    exact (first_loop_rate motors phase _ _ _ _ _ _ H1). }
  repeat split; auto.
  intros r Hone Hsafe. rewrite Hfeed, Hone. apply norm_single. exact Hsafe.
Qed.

(** Witness for C1: the fast approach of a one-axis machine at rate 500. *)
Lemma plan_move_feed_rate_witness :
  homing_readyb (Bench.one_axis true 500 200) 1 = true
  /\ exists settle_ms tgt data g',
      plan_move (Bench.one_axis true 500 200) 1 FastApproach
        (Bench.at_rest [0] []) = (Done settle_ms, g')
      /\ planner g' = planner (Bench.at_rest [0] []) ++ [(tgt, data)]
      /\ feed_rate data
         = euclidean_norm
             (active_rates FastApproach 1 0
                (_axis (Bench.one_axis true 500 200)))
      /\ (forall r,
             active_rates FastApproach 1 0
               (_axis (Bench.one_axis true 500 200)) = [r] ->
             F32.square_safe r = true ->
             feed_rate data = r).
Proof.
  split; [reflexivity|].
  apply (plan_move_feed_rate (Bench.one_axis true 500 200) 1 FastApproach
           (Bench.at_rest [0] [])).
  reflexivity.
Defined.

(** C1 as stated fails for a negative rate: one active axis with seek rate
    -500 makes [plan_move] submit the feed rate 500. *)
Lemma plan_move_feed_rate_negative_rate :
  active_rates FastApproach 1 0 (_axis (Bench.one_axis true (-500) 200))
  = [F32.of_Z (-500)]
  /\ map (fun b => feed_rate (snd b))
       (planner (snd (plan_move (Bench.one_axis true (-500) 200) 1
                        FastApproach (Bench.at_rest [0] []))))
     = [F32.of_Z 500]
  /\ F32.of_Z 500 <> F32.of_Z (-500).
Proof. repeat split. vm_compute. discriminate. Qed.

(** Above the safe range the square overflows: a single axis at rate 2^70
    gets the feed rate +infinity. *)
Example plan_move_feed_rate_overflow :
  F32.square_safe (F32.of_Z (2 ^ 70)) = false
  /\ map (fun b => feed_rate (snd b))
       (planner (snd (plan_move (Bench.one_axis true (2 ^ 70) 200) 1
                        FastApproach (Bench.at_rest [0] []))))
     = [S754_infinity false].
Proof. by_evaluation. Qed.

(** ** Axes that take no part *)

Lemma motor_steps_planned v tgt g :
  motor_steps (planned v tgt g) = motor_steps g.
Proof. reflexivity. Qed.

(** C10.  [plan_move] leaves alone every axis with neither motor bit set in
    the mask: its step counter is not cleared, and its entry of the target
    handed to the planner is the machine position read at entry, which is
    still the position of the axis when [plan_move] returns. *)
Theorem plan_move_inactive_untouched config motors phase g :
  homing_readyb config motors = true ->
  exists settle_ms tgt data g',
    plan_move config motors phase g = (Done settle_ms, g')
    /\ planner g' = planner g ++ [(tgt, data)]
    /\ forall axis,
         active motors axis = false ->
         motor_steps g' !! axis = motor_steps g !! axis
         /\ tgt !! axis = get_mpos config g !! axis
         /\ tgt !! axis = get_mpos config g' !! axis.
Proof.
  intros Hready. apply homing_readyb_sound in Hready.
  destruct (plan_move_block config motors phase g Hready)
    as (v & g1 & tgt & g2 & H1 & H2 & H3 & H4 & _).
  exists (settle v), tgt, (plan_data_of v), (planned v tgt g2).
  repeat split; auto.
  - rewrite motor_steps_planned, (second_loop_frame _ _ _ _ _ _ _ H2).
    simpl. exact (first_loop_steps_inactive _ _ _ _ _ _ _ H1 axis H).
  - rewrite (second_loop_unmarked _ _ _ _ _ _ _ H2).
    + exact (first_loop_target_inactive _ _ _ _ _ _ _ H1 axis H).
    + rewrite (first_loop_mask _ _ _ _ _ _ _ H1). simpl.
      rewrite Z.bits_0, H, andb_false_r. reflexivity.
  - rewrite (second_loop_unmarked _ _ _ _ _ _ _ H2).
    + rewrite (first_loop_target_inactive _ _ _ _ _ _ _ H1 axis H). simpl.
      unfold get_mpos. rewrite !list_lookup_imap. f_equal.
      rewrite motor_steps_planned, (second_loop_frame _ _ _ _ _ _ _ H2).
      simpl. symmetry.
      exact (first_loop_steps_inactive _ _ _ _ _ _ _ H1 axis H).
    + rewrite (first_loop_mask _ _ _ _ _ _ _ H1). simpl.
      rewrite Z.bits_0, H, andb_false_r. reflexivity.
Qed.

(** Witness for C10: homing X alone on the four-axis machine. *)
Lemma plan_move_inactive_untouched_witness :
  homing_readyb Bench.four_axes 1 = true
  /\ exists settle_ms tgt data g',
      plan_move Bench.four_axes 1 SlowApproach
        (Bench.at_rest [10; 20; 30; 40] []) = (Done settle_ms, g')
      /\ planner g'
         = planner (Bench.at_rest [10; 20; 30; 40] []) ++ [(tgt, data)]
      /\ forall axis,
           active 1 axis = false ->
           motor_steps g' !! axis
           = motor_steps (Bench.at_rest [10; 20; 30; 40] []) !! axis
           /\ tgt !! axis
              = get_mpos Bench.four_axes
                  (Bench.at_rest [10; 20; 30; 40] []) !! axis
           /\ tgt !! axis = get_mpos Bench.four_axes g' !! axis.
Proof.
  split; [reflexivity|].
  apply (plan_move_inactive_untouched Bench.four_axes 1 SlowApproach
           (Bench.at_rest [10; 20; 30; 40] [])).
  reflexivity.
Defined.

(** On that machine the three other axes keep their counters and targets. *)
Example plan_move_x_only :
  motor_steps (snd (plan_move Bench.four_axes 1 SlowApproach
                      (Bench.at_rest [10; 20; 30; 40] [])))
  = [0; 20; 30; 40]
  /\ map fst (planner (snd (plan_move Bench.four_axes 1 SlowApproach
                              (Bench.at_rest [10; 20; 30; 40] []))))
     = [[F32.of_Z 2; F32.of_Z 20; F32.of_Z 30; F32.of_Z 40]].
Proof. by_evaluation. Qed.

(** ** The targets of the active axes *)

Lemma plan_move_targets config motors phase g :
  homing_ready config motors ->
  steps_cover config g ->
  exists v g1 tgt g2,
    for_axes (first_pass motors phase) 0 (_axis config)
      (initial_locals config g) g = (Done v, g1)
    /\ for_axes (second_pass phase (HomingPhase_eqb phase FastApproach) v) 0
         (_axis config) (target v) g1 = (Done tgt, g2)
    /\ plan_move config motors phase g = (Done (settle v), planned v tgt g2)
    /\ planner (planned v tgt g2) = planner g ++ [(tgt, plan_data_of v)]
    /\ forall j a h,
         takes_part motors (_axis config) j a h ->
         tgt !! j
         = Some (scaled_target phase (scaler_of (_approach g) phase h)
                   (signed_travel (_approach g) phase a h) (rate_of phase h)
                   (limitingRate v)).
Proof.
  intros Hready Hcover.
  destruct (plan_move_block config motors phase g Hready)
    as (v & g1 & tgt & g2 & H1 & H2 & H3 & H4 & Happ).
  exists v, g1, tgt, g2. repeat split; auto.
  intros j a h (Hj & Hh & Hact).
  assert (Hlt : (j < _numberAxis config)%nat)
    by (apply lookup_lt_Some in Hj; exact Hj).
  assert (Hlen : (j < length (target (initial_locals config g)))%nat).
  { simpl. unfold get_mpos. rewrite length_imap.
    unfold steps_cover in Hcover. lia. }
  pose proof (first_loop_target_active _ _ _ _ _ _ _ H1 j a h Hj Hh Hact Hlen)
    as Ht.
  assert (Hlenr : (j < length (rates (initial_locals config g)))%nat)
    by (simpl; rewrite length_replicate; exact Hlt).
  pose proof (first_loop_rates_active _ _ _ _ _ _ _ H1 j a h Hj Hh Hact Hlenr)
    as Hr.
  rewrite (second_loop_marked _ _ _ _ _ _ _ H2 j a h Hj Hh).
  - rewrite Happ.
    rewrite (list_lookup_total_correct _ _ _ Ht).
    rewrite (list_lookup_total_correct _ _ _ Hr). reflexivity.
  - rewrite (first_loop_mask _ _ _ _ _ _ _ H1). simpl.
    rewrite Z.bits_0, Hact, andb_true_r. simpl.
    apply Nat.ltb_lt. exact Hlt.
  - rewrite (first_loop_target_length _ _ _ _ _ _ _ H1). exact Hlen.
Qed.

(** C2 (amended).  In the fast approach, with the approach flag set, the
    target of every active axis is its signed travel times its seek scaler
    times (its own rate / the limiting rate), in binary32.  Either no active
    axis has a positive travel/rate quotient, and the limiting rate is zero;
    or the limiting rate is the rate of the lowest-numbered active axis whose
    quotient is positive and exceeded by no other active axis, and when that
    rate is finite and non-zero the target of that axis is its signed travel
    times its seek scaler. *)
Theorem fast_approach_targets config motors g :
  _approach g = true ->
  homing_readyb config motors = true ->
  steps_cover config g ->
  exists settle_ms tgt data g' L,
    plan_move config motors FastApproach g = (Done settle_ms, g')
    /\ planner g' = planner g ++ [(tgt, data)]
    /\ (forall j a h,
           takes_part motors (_axis config) j a h ->
           tgt !! j
           = Some (F32.mul
                     (F32.mul (signed_travel true FastApproach a h)
                        (_seek_scaler h))
                     (F32.div (_seekRate h) L)))
    /\ ((L = F32.zero
         /\ forall i a h,
              takes_part motors (_axis config) i a h ->
              F32.gtb (F32.div (_maxTravel a) (_seekRate h)) F32.zero = false)
        \/
        (exists j a h,
            takes_part motors (_axis config) j a h
            /\ L = _seekRate h
            /\ F32.gtb (F32.div (_maxTravel a) (_seekRate h)) F32.zero = true
            /\ (forall i a' h',
                   takes_part motors (_axis config) i a' h' ->
                   F32.gtb (F32.div (_maxTravel a') (_seekRate h'))
                     (F32.div (_maxTravel a) (_seekRate h)) = false)
            /\ (forall i a' h',
                   (i < j)%nat -> takes_part motors (_axis config) i a' h' ->
                   F32.leb (F32.div (_maxTravel a) (_seekRate h))
                     (F32.div (_maxTravel a') (_seekRate h')) = false)
            /\ (F32.is_finite_nonzero (_seekRate h) = true ->
                F32.valid (_maxTravel a) -> F32.valid (_seek_scaler h) ->
                tgt !! j
                = Some (F32.mul (signed_travel true FastApproach a h)
                          (_seek_scaler h))))).
Proof.
  intros Happ Hready Hcover. apply homing_readyb_sound in Hready.
  destruct (plan_move_targets config motors FastApproach g Hready Hcover)
    as (v & g1 & tgt & g2 & H1 & _ & H3 & H4 & Htgt).
  exists (settle v), tgt, (plan_data_of v), (planned v tgt g2),
    (limitingRate v).
  rewrite Happ in Htgt.
  repeat split; auto.
  pose proof (first_loop_limiting motors FastApproach (_axis config) _ _ _ _
                H1 eq_refl eq_refl) as Hlim.
  destruct Hlim as [(_ & HL & Hnone)|(j & a & h & Hj & Htp & _ & HL & Hpos & Hmax & Hfirst)].
  - left. split; [exact HL|]. intros i a h Htp.
    apply (Hnone i a h); auto.
    destruct Htp as (Hi & _). apply lookup_lt_Some in Hi. exact Hi.
  - right. exists j, a, h. repeat split; auto; try apply Htp.
    + intros i a' h' Htp'. apply (Hmax i a' h'); auto.
      destruct Htp' as (Hi & _). apply lookup_lt_Some in Hi. exact Hi.
    + intros Hfin Hvt Hvs. rewrite (Htgt j a h Htp).
      unfold scaled_target, scaler_of. simpl.
      rewrite HL. simpl rate_of.
      rewrite (F32Facts.div_same _ Hfin).
      rewrite F32Facts.mul_one_r; [reflexivity|].
      apply F32Facts.mul_valid; [|exact Hvs].
      unfold signed_travel. simpl travel_of.
      destruct (xorb (_positiveDirection h) true); auto.
      apply F32Facts.opp_valid. exact Hvt.
Qed.

(** Witness for C2: X and Y of the four-axis machine approach together. *)
Lemma fast_approach_targets_witness :
  _approach (Bench.approaching [0; 0; 0; 0] []) = true
  /\ homing_readyb Bench.four_axes 3 = true
  /\ steps_cover Bench.four_axes (Bench.approaching [0; 0; 0; 0] [])
  /\ exists settle_ms tgt data g' L,
      plan_move Bench.four_axes 3 FastApproach
        (Bench.approaching [0; 0; 0; 0] []) = (Done settle_ms, g')
      /\ planner g'
         = planner (Bench.approaching [0; 0; 0; 0] []) ++ [(tgt, data)]
      /\ (forall j a h,
             takes_part 3 (_axis Bench.four_axes) j a h ->
             tgt !! j
             = Some (F32.mul
                       (F32.mul (signed_travel true FastApproach a h)
                          (_seek_scaler h))
                       (F32.div (_seekRate h) L)))
      /\ ((L = F32.zero
           /\ forall i a h,
                takes_part 3 (_axis Bench.four_axes) i a h ->
                F32.gtb (F32.div (_maxTravel a) (_seekRate h)) F32.zero
                = false)
          \/
          (exists j a h,
              takes_part 3 (_axis Bench.four_axes) j a h
              /\ L = _seekRate h
              /\ F32.gtb (F32.div (_maxTravel a) (_seekRate h)) F32.zero
                 = true
              /\ (forall i a' h',
                     takes_part 3 (_axis Bench.four_axes) i a' h' ->
                     F32.gtb (F32.div (_maxTravel a') (_seekRate h'))
                       (F32.div (_maxTravel a) (_seekRate h)) = false)
              /\ (forall i a' h',
                     (i < j)%nat ->
                     takes_part 3 (_axis Bench.four_axes) i a' h' ->
                     F32.leb (F32.div (_maxTravel a) (_seekRate h))
                       (F32.div (_maxTravel a') (_seekRate h')) = false)
              /\ (F32.is_finite_nonzero (_seekRate h) = true ->
                  F32.valid (_maxTravel a) -> F32.valid (_seek_scaler h) ->
                  tgt !! j
                  = Some (F32.mul (signed_travel true FastApproach a h)
                            (_seek_scaler h))))).
Proof.
  assert (Happ : _approach (Bench.approaching [0; 0; 0; 0] []) = true)
    by reflexivity.
  assert (Hready : homing_readyb Bench.four_axes 3 = true) by reflexivity.
  assert (Hcover : steps_cover Bench.four_axes
                     (Bench.approaching [0; 0; 0; 0] []))
    by (vm_compute; lia).
  repeat split; auto.
  exact (fast_approach_targets Bench.four_axes 3
           (Bench.approaching [0; 0; 0; 0] []) Happ Hready Hcover).
Defined.

(** On that machine X (200 mm at 500) has the larger quotient and limits the
    move; Y (300 mm at 1000) is scaled by 1000/500. *)
Example fast_approach_x_y :
  map fst
    (planner (snd (plan_move Bench.four_axes 3 FastApproach
                     (Bench.approaching [0; 0; 0; 0] []))))
  = [[F32.mul (F32.of_Z (-200)) Bench.scale_11_10;
      F32.mul (F32.mul (F32.of_Z (-300)) Bench.scale_11_10) (F32.of_Z 2);
      F32.zero; F32.zero]].
Proof. reflexivity. Qed.

(** C2 as stated fails when no active axis has a positive quotient: with a
    travel of zero the limiting rate stays zero instead of being the rate
    500 of the only axis, and the target is a NaN where the claim gives
    0 * scale * (500 / 500) = 0. *)
Lemma fast_approach_zero_travel :
  map fst
    (planner (snd (plan_move (Bench.one_axis true 500 0) 1 FastApproach
                     (Bench.approaching [0] []))))
  = [[S754_nan]]
  /\ F32.mul (F32.mul (F32.of_Z 0) Bench.scale_11_10)
       (F32.div (F32.of_Z 500) (F32.of_Z 500)) = F32.zero
  /\ F32.mul (F32.mul (F32.of_Z 0) Bench.scale_11_10)
       (F32.div (F32.of_Z 500) F32.zero) = S754_nan.
Proof. repeat split. Qed.

(** ** A single active axis *)

Lemma active_rates_none phase motors :
  forall axes k,
    (forall i, (k <= i < k + length axes)%nat -> active motors i = false) ->
    active_rates phase motors k axes = [].
Proof.
  induction axes as [|a rest IH]; intros k Hin; [reflexivity|].
  simpl. rewrite (Hin k) by (simpl; lia).
  rewrite IH by (intros i Hi; apply Hin; simpl; lia).
  destruct (_homing a); reflexivity.
Qed.

Lemma active_rates_app phase motors :
  forall l1 l2 k,
    active_rates phase motors k (l1 ++ l2)
    = active_rates phase motors k l1
      ++ active_rates phase motors (k + length l1) l2.
Proof.
  induction l1 as [|a rest IH]; intros l2 k; simpl.
  - rewrite Nat.add_0_r. reflexivity.
  - rewrite IH. replace (S k + length rest)%nat with (k + S (length rest))%nat
      by lia.
    destruct (_homing a); [destruct (active motors k)|]; reflexivity.
Qed.

Lemma sole_active_spec config motors j i :
  sole_active config motors j = true ->
  (i < _numberAxis config)%nat -> i <> j -> active motors i = false.
Proof.
  unfold sole_active. rewrite forallb_forall. intros Hall Hi Hne.
  specialize (Hall i). rewrite in_seq in Hall.
  specialize (Hall ltac:(lia)).
  apply orb_prop in Hall as [Heq|Hn].
  - apply Nat.eqb_eq in Heq. contradiction.
  - apply negb_true_iff in Hn. exact Hn.
Qed.

Lemma active_rates_sole config phase motors j a h :
  takes_part motors (_axis config) j a h ->
  sole_active config motors j = true ->
  active_rates phase motors 0 (_axis config) = [rate_of phase h].
Proof.
  intros (Hj & Hh & Hact) Hsole.
  pose proof (sole_active_spec config motors j) as Hothers.
  unfold _numberAxis in Hothers.
  destruct (list_elem_of_split_length _ _ _ Hj) as (l1 & l2 & Heq & Hlen).
  rewrite Heq in *. rewrite length_app in Hothers. simpl in Hothers.
  rewrite active_rates_app. simpl. rewrite <- Hlen, Hh, Hact.
  rewrite active_rates_none by (intros i Hi; apply Hothers; auto; lia).
  rewrite active_rates_none by (intros i Hi; apply Hothers; auto; lia).
  reflexivity.
Qed.

(** C8 (amended).  A single active axis with seek rate 500 and travel limit
    200 in the fast approach, approach flag set: the feed rate submitted is
    500, and the target of the axis is 200 times its seek scaler when the
    homing direction is positive (positive XOR approach is false: not
    negated), -200 times its seek scaler when it is negative. *)
Theorem fast_approach_single_axis config motors g j a h :
  _approach g = true ->
  homing_readyb config motors = true ->
  steps_cover config g ->
  takes_part motors (_axis config) j a h ->
  sole_active config motors j = true ->
  _seekRate h = F32.of_Z 500 ->
  _maxTravel a = F32.of_Z 200 ->
  F32.valid (_seek_scaler h) ->
  exists settle_ms tgt data g',
    plan_move config motors FastApproach g = (Done settle_ms, g')
    /\ planner g' = planner g ++ [(tgt, data)]
    /\ tgt !! j
       = Some (if _positiveDirection h
               then F32.mul (F32.of_Z 200) (_seek_scaler h)
               else F32.mul (F32.of_Z (-200)) (_seek_scaler h))
    /\ feed_rate data = F32.of_Z 500.
Proof.
  intros Happ Hready Hcover Htp Hsole Hrate Htravel Hvalid.
  apply homing_readyb_sound in Hready.
  destruct (plan_move_targets config motors FastApproach g Hready Hcover)
    as (v & g1 & tgt & g2 & H1 & _ & H3 & H4 & Htgt).
  exists (settle v), tgt, (plan_data_of v), (planned v tgt g2).
  split; [exact H3|]. split; [exact H4|]. split.
  - (* the only active axis limits the move *)
    assert (HL : limitingRate v = _seekRate h).
    { pose proof (first_loop_limiting motors FastApproach (_axis config)
                    _ _ _ _ H1 eq_refl eq_refl) as Hlim.
      assert (Hj : (j < length (_axis config))%nat)
        by (destruct Htp as (Hj & _); apply lookup_lt_Some in Hj; exact Hj).
      destruct Hlim as [(_ & _ & Hnone)|(j' & a' & h' & Hj' & Htp' & _ & HL & _)].
      - specialize (Hnone j a h Hj Htp). unfold seek_time in Hnone.
        simpl in Hnone. rewrite Hrate, Htravel in Hnone. discriminate.
      - assert (j' = j).
        { destruct (Nat.eq_dec j' j) as [|Hne]; auto.
          destruct Htp' as (_ & _ & Hact').
          rewrite (sole_active_spec config motors j j' Hsole Hj' Hne) in Hact'.
          discriminate. }
        subst j'. destruct Htp as (Ea & Eh & _), Htp' as (Ea' & Eh' & _).
        assert (a' = a) by congruence. subst a'.
        assert (h' = h) by congruence. subst h'. exact HL. }
    rewrite (Htgt j a h Htp), Happ, HL.
    unfold scaled_target, scaler_of, signed_travel, travel_of, rate_of.
    cbv [HomingPhase_eqb]. rewrite Hrate, Htravel.
    replace (F32.div (F32.of_Z 500) (F32.of_Z 500)) with F32.one
      by (vm_compute; reflexivity).
    destruct (_positiveDirection h); cbn [xorb]; f_equal.
    + apply F32Facts.mul_one_r, F32Facts.mul_valid;
        [reflexivity|exact Hvalid].
    + replace (F32.opp (F32.of_Z 200)) with (F32.of_Z (-200))
        by (vm_compute; reflexivity).
      apply F32Facts.mul_one_r, F32Facts.mul_valid;
        [reflexivity|exact Hvalid].
  - simpl. rewrite (first_loop_rate motors FastApproach _ _ _ _ _ _ H1).
    rewrite (active_rates_sole config FastApproach motors j a h Htp Hsole).
    simpl rate_of. rewrite Hrate. reflexivity.
Qed.

(** Witness for C8: the one-axis machine homing in the positive direction. *)
Lemma fast_approach_single_axis_witness :
  _approach (Bench.approaching [0] []) = true
  /\ homing_readyb (Bench.one_axis true 500 200) 1 = true
  /\ steps_cover (Bench.one_axis true 500 200) (Bench.approaching [0] [])
  /\ takes_part 1 (_axis (Bench.one_axis true 500 200)) 0
       (Bench.x_axis true 500 200)
       (Bench.homing_of 1 true 100 500 Bench.scale_11_10)
  /\ sole_active (Bench.one_axis true 500 200) 1 0 = true
  /\ exists settle_ms tgt data g',
      plan_move (Bench.one_axis true 500 200) 1 FastApproach
        (Bench.approaching [0] []) = (Done settle_ms, g')
      /\ planner g' = planner (Bench.approaching [0] []) ++ [(tgt, data)]
      /\ tgt !! 0%nat = Some (F32.mul (F32.of_Z 200) Bench.scale_11_10)
      /\ feed_rate data = F32.of_Z 500.
Proof.
  assert (Hcover : steps_cover (Bench.one_axis true 500 200)
                     (Bench.approaching [0] [])) by (vm_compute; lia).
  assert (Htp : takes_part 1 (_axis (Bench.one_axis true 500 200)) 0
                  (Bench.x_axis true 500 200)
                  (Bench.homing_of 1 true 100 500 Bench.scale_11_10))
    by (repeat split).
  repeat split; auto.
  exact (fast_approach_single_axis (Bench.one_axis true 500 200) 1
           (Bench.approaching [0] []) 0 (Bench.x_axis true 500 200)
           (Bench.homing_of 1 true 100 500 Bench.scale_11_10)
           eq_refl eq_refl Hcover Htp eq_refl eq_refl eq_refl eq_refl).
Defined.

(** C8 as stated fails: with the homing direction positive and the approach
    flag set the target is +200 times the seek scaler, not -200 times it. *)
Lemma fast_approach_positive_target :
  map fst
    (planner (snd (plan_move (Bench.one_axis true 500 200) 1 FastApproach
                     (Bench.approaching [0] []))))
  = [[F32.mul (F32.of_Z 200) Bench.scale_11_10]]
  /\ F32.mul (F32.of_Z 200) Bench.scale_11_10
     <> F32.mul (F32.of_Z (-200)) Bench.scale_11_10.
Proof. split; [reflexivity|]. vm_compute. discriminate. Qed.

(** ** The differential pull-off *)

Lemma blocks_on_app j l1 l2 :
  blocks_on j (l1 ++ l2) = blocks_on j l1 ++ blocks_on j l2.
Proof. apply List.filter_app. Qed.

Lemma blocks_on_blocks_of phase axis a j :
  blocks_on j (blocks_of phase axis a)
  = if Nat.eqb axis j then blocks_of phase axis a else [].
Proof.
  unfold blocks_on, blocks_of.
  destruct phase; simpl; try (destruct (Nat.eqb axis j); reflexivity).
  destruct (F32.ltb (extraPulloff a) F32.zero); simpl;
    [destruct (Nat.eqb axis j); reflexivity|].
  destruct (F32.gtb (extraPulloff a) F32.zero); simpl;
    destruct (Nat.eqb axis j); reflexivity.
Qed.

Lemma blocks_on_later phase motors j :
  forall axes k, (j < k)%nat ->
    blocks_on j (phase_blocks phase motors k axes) = [].
Proof.
  induction axes as [|a rest IH]; intros k Hlt; [reflexivity|].
  simpl. destruct (_homing a); [destruct (active motors k)|];
    rewrite ?blocks_on_app, ?blocks_on_blocks_of, IH by lia; auto.
  replace (Nat.eqb k j) with false by (symmetry; apply Nat.eqb_neq; lia).
  reflexivity.
Qed.

(** The blocks of a phase that concern an axis are those of its own turn. *)
Lemma blocks_on_phase_blocks phase motors j :
  forall axes k i a h,
    axes !! i = Some a -> _homing a = Some h -> j = (k + i)%nat ->
    blocks_on j (phase_blocks phase motors k axes)
    = if active motors j then blocks_of phase j a else [].
Proof.
  induction axes as [|a0 rest IH]; intros k i a h Hi Hh Hj; [discriminate|].
  destruct i as [|i]; simpl in Hi.
  - injection Hi as ->. rewrite Nat.add_0_r in Hj. subst k. simpl.
    rewrite Hh. destruct (active motors j).
    + rewrite blocks_on_app, blocks_on_blocks_of, Nat.eqb_refl.
      rewrite blocks_on_later by lia. apply app_nil_r.
    + apply blocks_on_later. lia.
  - simpl. assert (Hne : Nat.eqb k j = false) by (apply Nat.eqb_neq; lia).
    destruct (_homing a0); [destruct (active motors k)|];
      rewrite ?blocks_on_app, ?blocks_on_blocks_of, ?Hne;
      apply (IH (S k) i a h Hi Hh); lia.
Qed.

Lemma blocks_of_length phase axis a : (length (blocks_of phase axis a) <= 1)%nat.
Proof.
  unfold blocks_of. destruct phase; simpl; try lia.
  destruct (F32.ltb _ _); simpl; [lia|]. destruct (F32.gtb _ _); simpl; lia.
Qed.

Lemma blocks_on_phase_blocks_length phase motors j :
  forall axes k,
    (length (blocks_on j (phase_blocks phase motors k axes)) <= 1)%nat.
Proof.
  induction axes as [|a rest IH]; intros k; [simpl; lia|].
  simpl. destruct (_homing a); [destruct (active motors k)|]; auto.
  rewrite blocks_on_app, blocks_on_blocks_of, length_app.
  destruct (Nat.eqb_spec k j) as [->|Hne].
  - rewrite blocks_on_later by lia. pose proof (blocks_of_length phase j a).
    simpl. lia.
  - simpl. apply IH.
Qed.

(** The travel of the differential pull-off is the magnitude of the extra
    pull-off; a negative zero is kept as it is. *)
Lemma pulloff2_travel a :
  travel_of Pulloff2 a = F32.abs (extraPulloff a)
  \/ (extraPulloff a = S754_zero true /\ travel_of Pulloff2 a = S754_zero true).
Proof.
  unfold travel_of. destruct (extraPulloff a) as [[]|[]| |[] m e];
    simpl; auto.
Qed.

Lemma zero_not_signed (x : float) :
  F32.to_bool x = false ->
  F32.ltb x F32.zero = false /\ F32.gtb x F32.zero = false.
Proof. destruct x as [[]|[]| |[] m e]; simpl; auto; discriminate. Qed.

(** C6.  In the Pulloff2 phase, for every active axis: the travel used is
    the absolute value of the extra pull-off (a negative zero is kept as
    negative zero, the same quantity) and the target is that travel, signed
    by the homing direction and scaled; a negative extra pull-off blocks
    motor 1 of the axis, a positive one blocks motor 0, a zero one blocks
    neither.  So at most one motor of any axis is blocked by the call. *)
Theorem pulloff2_travel_and_blocks config motors g :
  homing_readyb config motors = true ->
  steps_cover config g ->
  exists settle_ms tgt data g' blocks,
    plan_move config motors Pulloff2 g = (Done settle_ms, g')
    /\ planner g' = planner g ++ [(tgt, data)]
    /\ blocked g' = blocked g ++ blocks
    /\ (forall j a h,
           takes_part motors (_axis config) j a h ->
           exists travel,
             (travel = F32.abs (extraPulloff a)
              \/ (extraPulloff a = S754_zero true /\ travel = S754_zero true))
             /\ tgt !! j
                = Some (F32.mul
                          (if xorb (_positiveDirection h) (_approach g)
                           then F32.opp travel else travel)
                          (scaler_of (_approach g) Pulloff2 h))
             /\ blocks_on j blocks
                = (if F32.ltb (extraPulloff a) F32.zero then [(j, 1%nat)]
                   else if F32.gtb (extraPulloff a) F32.zero then [(j, 0%nat)]
                   else [])
             /\ (F32.to_bool (extraPulloff a) = false -> blocks_on j blocks = []))
    /\ (forall j, (length (blocks_on j blocks) <= 1)%nat).
Proof.
  intros Hready Hcover. apply homing_readyb_sound in Hready.
  destruct (plan_move_targets config motors Pulloff2 g Hready Hcover)
    as (v & g1 & tgt & g2 & H1 & H2 & H3 & H4 & Htgt).
  exists (settle v), tgt, (plan_data_of v), (planned v tgt g2),
    (phase_blocks Pulloff2 motors 0 (_axis config)).
  assert (Hblocks : forall j a h,
             takes_part motors (_axis config) j a h ->
             blocks_on j (phase_blocks Pulloff2 motors 0 (_axis config))
             = blocks_of Pulloff2 j a).
  { intros j a h (Hj & Hh & Hact).
    rewrite (blocks_on_phase_blocks Pulloff2 motors j (_axis config) 0 j a h
               Hj Hh eq_refl), Hact. reflexivity. }
  split; [exact H3|]. split; [exact H4|]. split; [|split].
  - change (blocked (planned v tgt g2)) with (blocked g2).
    rewrite (second_loop_frame _ _ _ _ _ _ _ H2). simpl.
    exact (first_loop_blocked motors Pulloff2 _ _ _ _ _ _ H1).
  - intros j a h Htp. exists (travel_of Pulloff2 a).
    split; [apply pulloff2_travel|].
    split; [rewrite (Htgt j a h Htp); reflexivity|].
    rewrite (Hblocks j a h Htp). split; [reflexivity|].
    intros Hz. apply zero_not_signed in Hz as [Hl Hg'].
    unfold blocks_of. rewrite Hl, Hg'. reflexivity.
  - intros j. apply blocks_on_phase_blocks_length.
Qed.

(** Witness for C6: the four-axis machine, whose squared Y axis has an
    extra pull-off of +1. *)
Lemma pulloff2_travel_and_blocks_witness :
  homing_readyb Bench.four_axes 0x20003 = true
  /\ steps_cover Bench.four_axes (Bench.at_rest [0; 0; 0; 0] [])
  /\ exists settle_ms tgt data g' blocks,
      plan_move Bench.four_axes 0x20003 Pulloff2
        (Bench.at_rest [0; 0; 0; 0] []) = (Done settle_ms, g')
      /\ planner g' = planner (Bench.at_rest [0; 0; 0; 0] []) ++ [(tgt, data)]
      /\ blocked g' = blocked (Bench.at_rest [0; 0; 0; 0] []) ++ blocks
      /\ (forall j a h,
             takes_part 0x20003 (_axis Bench.four_axes) j a h ->
             exists travel,
               (travel = F32.abs (extraPulloff a)
                \/ (extraPulloff a = S754_zero true
                    /\ travel = S754_zero true))
               /\ tgt !! j
                  = Some (F32.mul
                            (if xorb (_positiveDirection h)
                                  (_approach (Bench.at_rest [0; 0; 0; 0] []))
                             then F32.opp travel else travel)
                            (scaler_of
                               (_approach (Bench.at_rest [0; 0; 0; 0] []))
                               Pulloff2 h))
               /\ blocks_on j blocks
                  = (if F32.ltb (extraPulloff a) F32.zero then [(j, 1%nat)]
                     else if F32.gtb (extraPulloff a) F32.zero
                          then [(j, 0%nat)]
                     else [])
               /\ (F32.to_bool (extraPulloff a) = false ->
                   blocks_on j blocks = []))
      /\ (forall j, (length (blocks_on j blocks) <= 1)%nat).
Proof.
  assert (Hcover : steps_cover Bench.four_axes (Bench.at_rest [0; 0; 0; 0] []))
    by (vm_compute; lia).
  repeat split; auto.
  exact (pulloff2_travel_and_blocks Bench.four_axes 0x20003
           (Bench.at_rest [0; 0; 0; 0] []) eq_refl Hcover).
Defined.

(** On that machine only motor 0 of Y is blocked, and Y moves by 1. *)
Example pulloff2_blocks_y_motor0 :
  blocked (snd (plan_move Bench.four_axes 0x20003 Pulloff2
                  (Bench.at_rest [0; 0; 0; 0] [])))
  = [(1%nat, 0%nat)]
  /\ map fst
       (planner (snd (plan_move Bench.four_axes 0x20003 Pulloff2
                        (Bench.at_rest [0; 0; 0; 0] []))))
     = [[F32.zero; F32.of_Z 1; F32.zero; F32.zero]].
Proof. by_evaluation. Qed.

(** ** The conditional Pulloff2 phase *)

Lemma squaredAxes_testbit motors j :
  Z.testbit (Z.land motors (Z.shiftr motors 16)) (Z.of_nat j)
  = squared motors j.
Proof.
  unfold squared. rewrite Z.land_spec, Z.shiftr_spec by lia. reflexivity.
Qed.

Lemma differing_pulloffs_spec squaredAxes :
  forall axes k,
    differing_pulloffs squaredAxes k axes = true <->
    exists i a, axes !! i = Some a
                /\ Z.testbit squaredAxes (Z.of_nat (k + i)) = true
                /\ F32.to_bool (extraPulloff a) = true.
Proof.
  induction axes as [|a0 rest IH]; intros k; simpl.
  - split; [discriminate|]. intros (i & a & Hi & _). discriminate.
  - rewrite bitnum_is_false_testbit.
    destruct (Z.testbit squaredAxes (Z.of_nat k)) eqn:Hb; simpl.
    + destruct (F32.to_bool (extraPulloff a0)) eqn:He.
      * split; [|reflexivity]. intros _. exists 0%nat, a0.
        rewrite Nat.add_0_r. auto.
      * rewrite IH. split.
        -- intros (i & a & Hi & Hbit & Hx). exists (S i), a.
           replace (k + S i)%nat with (S k + i)%nat by lia. auto.
        -- intros (i & a & Hi & Hbit & Hx). destruct i as [|i].
           ++ simpl in Hi. injection Hi as <-. congruence.
           ++ exists i, a.
              replace (S k + i)%nat with (k + S i)%nat by lia. auto.
    + rewrite IH. split.
      * intros (i & a & Hi & Hbit & Hx). exists (S i), a.
        replace (k + S i)%nat with (S k + i)%nat by lia. auto.
      * intros (i & a & Hi & Hbit & Hx). destruct i as [|i].
        -- rewrite Nat.add_0_r in Hbit. congruence.
        -- exists i, a. replace (S k + i)%nat with (k + S i)%nat by lia. auto.
Qed.

Lemma needsPulloff2_spec config motors :
  needsPulloff2 config motors = true <->
  exists axis a, _axis config !! axis = Some a
                 /\ squared motors axis = true
                 /\ F32.to_bool (extraPulloff a) = true.
Proof.
  unfold needsPulloff2.
  destruct (Z.eqb_spec (Z.land motors (Z.shiftr motors 16)) 0) as [H0|_].
  - split; [discriminate|]. intros (axis & a & _ & Hsq & _).
    rewrite <- squaredAxes_testbit, H0, Z.bits_0 in Hsq. discriminate.
  - rewrite differing_pulloffs_spec. simpl.
    split; intros (i & a & Hi & Hb & Hx); exists i, a;
      rewrite squaredAxes_testbit in *; auto.
Qed.

Lemma homing_failed_done config axisMask alarm g :
  exists g', homing_failed config axisMask alarm g = (Done tt, g').
Proof. unfold homing_failed. eexists. reflexivity. Qed.

(** [run_one_cycle] is its [try] block between [cycle_start] and
    [cycle_end]. *)
Lemma run_one_cycle_unfold config axisMask g :
  run_one_cycle config axisMask g
  = cycle_end config (Z.land axisMask (homingMask config))
      (phases config (homing_motors config (Z.land axisMask (homingMask config)))
         (cycle_start config (Z.land axisMask (homingMask config)) g)).
Proof.
  unfold run_one_cycle, cycle_end, cycle_start.
  set (mask := Z.land axisMask (homingMask config)).
  cbv [bind call modify set_homing_mode ret snd try_catch].
  match goal with
  | |- context [phases config ?m ?s] =>
      destruct (phases config m s) as [[[]|alarm| |] g']
  end.
  - reflexivity.
  - destruct (homing_failed_done config mask alarm g') as (g'' & Hf).
    rewrite Hf. reflexivity.
  - reflexivity.
  - reflexivity.
Qed.

(** C5.  [needsPulloff2] is true exactly when some configured axis has both
    of its motor bits in the mask and a non-zero extra pull-off; and once the
    phases up to Pulloff1 have completed, [run_one_cycle] runs the Pulloff2
    phase exactly when [needsPulloff2] is true of the participating
    motors. *)
Theorem pulloff2_runs_iff_needed config :
  (forall motors,
      needsPulloff2 config motors = true <->
      exists axis a, _axis config !! axis = Some a
                     /\ squared motors axis = true
                     /\ F32.to_bool (extraPulloff a) = true)
  /\ (forall axisMask g g5,
         let mask := Z.land axisMask (homingMask config) in
         let motors := homing_motors config mask in
         first_phases config motors (cycle_start config mask g) = (Done tt, g5) ->
         run_one_cycle config axisMask g
         = cycle_end config mask
             (if needsPulloff2 config motors
              then bind (call (log_debug_call "Differential Pulloff"))
                     (fun _ => run config motors Pulloff2) g5
              else (Done tt, g5))).
Proof.
  split; [apply needsPulloff2_spec|].
  intros axisMask g g5 mask motors H5.
  rewrite run_one_cycle_unfold. fold mask. fold motors. f_equal.
  unfold phases. rewrite (bind_Done _ _ _ _ _ H5).
  destruct (needsPulloff2 config motors); reflexivity.
Qed.

(** Witness for C5: homing the squared Y axis of the four-axis machine. *)
Lemma pulloff2_runs_iff_needed_witness :
  first_phases Bench.four_axes 0x20002
    (cycle_start Bench.four_axes 2 (Bench.at_rest [0; 0; 0; 0] Bench.y_homes))
  = (Done tt,
     snd (first_phases Bench.four_axes 0x20002
            (cycle_start Bench.four_axes 2
               (Bench.at_rest [0; 0; 0; 0] Bench.y_homes))))
  /\ run_one_cycle Bench.four_axes 2 (Bench.at_rest [0; 0; 0; 0] Bench.y_homes)
     = cycle_end Bench.four_axes 2
         (if needsPulloff2 Bench.four_axes 0x20002
          then bind (call (log_debug_call "Differential Pulloff"))
                 (fun _ => run Bench.four_axes 0x20002 Pulloff2)
                 (snd (first_phases Bench.four_axes 0x20002
                         (cycle_start Bench.four_axes 2
                            (Bench.at_rest [0; 0; 0; 0] Bench.y_homes))))
          else (Done tt,
                snd (first_phases Bench.four_axes 0x20002
                       (cycle_start Bench.four_axes 2
                          (Bench.at_rest [0; 0; 0; 0] Bench.y_homes))))).
Proof.
  assert (H5 : first_phases Bench.four_axes 0x20002
                 (cycle_start Bench.four_axes 2
                    (Bench.at_rest [0; 0; 0; 0] Bench.y_homes))
               = (Done tt,
                  snd (first_phases Bench.four_axes 0x20002
                         (cycle_start Bench.four_axes 2
                            (Bench.at_rest [0; 0; 0; 0] Bench.y_homes)))))
    by (vm_compute; reflexivity).
  split; [exact H5|].
  exact (proj2 (pulloff2_runs_iff_needed Bench.four_axes) 2
           (Bench.at_rest [0; 0; 0; 0] Bench.y_homes) _ H5).
Defined.

(** Motor pull-offs of 2 mm and 3 mm on a squared axis need the phase; the
    same axis with only one motor in the mask does not. *)
Example needsPulloff2_squared_y :
  needsPulloff2 Bench.four_axes 0x20002 = true
  /\ needsPulloff2 Bench.four_axes 0x00003 = false
  /\ needsPulloff2 Bench.four_axes 0x10001 = false.
Proof. repeat split. Qed.

(** The whole cycle for Y: no switch is active at the start, so the
    pre-pull-off plans nothing, and the five other phases plan one move
    each. *)
Example y_cycle_plans_five_moves :
  fst (run_one_cycle Bench.four_axes 2
         (Bench.at_rest [0; 0; 0; 0] Bench.y_homes)) = Done tt
  /\ length (planner (snd (run_one_cycle Bench.four_axes 2
                             (Bench.at_rest [0; 0; 0; 0] Bench.y_homes))))
     = 5%nat.
Proof. by_evaluation. Qed.

(** ** All cycles *)

Lemma cycle_axes_spec cycle :
  forall axes k acc j,
    Z.testbit (cycle_axes cycle k axes acc) (Z.of_nat j) = true <->
    Z.testbit acc (Z.of_nat j) = true
    \/ exists i a h, axes !! i = Some a /\ j = (k + i)%nat
                     /\ _homing a = Some h /\ _cycle h = cycle.
Proof.
  induction axes as [|a0 rest IH]; intros k acc j; simpl.
  - split; [auto|]. intros [H|(i & a & h & Hi & _)]; [exact H|discriminate].
  - rewrite IH. split.
    + intros [Hacc|(i & a & h & Hi & Hj & Hh & Hc)].
      * destruct (_homing a0) as [h0|] eqn:Hh0; [|auto].
        destruct (Z.eqb_spec (_cycle h0) cycle) as [Hc|_]; [|auto].
        rewrite set_bitnum_testbit in Hacc.
        apply orb_prop in Hacc as [Hacc|Heq]; [auto|].
        apply Nat.eqb_eq in Heq. right. exists 0%nat, a0, h0.
        rewrite Nat.add_0_r. auto.
      * right. exists (S i), a, h. repeat split; auto. lia.
    + intros [Hacc|(i & a & h & Hi & Hj & Hh & Hc)].
      * left. destruct (_homing a0) as [h0|]; [|exact Hacc].
        destruct (_cycle h0 =? cycle); [|exact Hacc].
        rewrite set_bitnum_testbit, Hacc. reflexivity.
      * destruct i as [|i]; simpl in Hi.
        -- injection Hi as ->. left. rewrite Hh.
           replace (_cycle h =? cycle) with true
             by (symmetry; apply Z.eqb_eq; exact Hc).
           rewrite set_bitnum_testbit. rewrite Nat.add_0_r in Hj. subst j.
           rewrite Nat.eqb_refl. apply orb_true_r.
        -- right. exists i, a, h. repeat split; auto. lia.
Qed.

Lemma axis_mask_from_cycle_spec config cycle j :
  Z.testbit (axis_mask_from_cycle config cycle) (Z.of_nat j) = true <->
  exists a h, _axis config !! j = Some a /\ _homing a = Some h
              /\ _cycle h = cycle.
Proof.
  unfold axis_mask_from_cycle. rewrite cycle_axes_spec, Z.bits_0. split.
  - intros [H|(i & a & h & Hi & Hj & Hh & Hc)]; [discriminate|].
    simpl in Hj. subst i. eauto.
  - intros (a & h & Hi & Hh & Hc). right. exists j, a, h. auto.
Qed.

Lemma run_each_alarm config masks g :
  sys_state g = Alarm -> run_each config masks g = (Done tt, g).
Proof.
  intros Ha. destruct masks as [|m rest]; [reflexivity|].
  simpl. unfold bind, get. rewrite Ha. reflexivity.
Qed.

Lemma bind_ext {A B} (m : M A) (k1 k2 : A -> M B) g :
  (forall a g', k1 a g' = k2 a g') -> bind m k1 g = bind m k2 g.
Proof.
  intros H. unfold bind. destruct (m g) as [[a| | |] g']; auto.
Qed.

(** Once an axis has homed, the loop is [run_each] over the cycles that
    remain. *)
Lemma all_cycles_homed config :
  forall cycles g,
    all_cycles config cycles true g
    = run_each config
        (List.filter (fun axisMask => negb (axisMask =? 0))
           (map (fun cycle => axis_mask_from_cycle config (Z.of_nat cycle))
              cycles)) g.
Proof.
  induction cycles as [|c rest IH]; intros g; [reflexivity|].
  simpl. unfold bind at 1, get at 1.
  destruct (State_eqb (sys_state g) Alarm) eqn:Ha.
  - rewrite run_each_alarm; [reflexivity|].
    destruct (sys_state g); try discriminate. reflexivity.
  - destruct (axis_mask_from_cycle config (Z.of_nat c) =? 0); simpl.
    + apply IH.
    + unfold bind at 2, get at 1. rewrite Ha.
      apply bind_ext. intros _ g'. apply IH.
Qed.

(** Before any axis has homed, and outside the alarm state. *)
Lemma all_cycles_fresh config :
  forall cycles g,
    State_eqb (sys_state g) Alarm = false ->
    all_cycles config cycles false g
    = match List.filter (fun axisMask => negb (axisMask =? 0))
              (map (fun cycle => axis_mask_from_cycle config (Z.of_nat cycle))
                 cycles) with
      | [] => no_homing_cycles g
      | masks => run_each config masks g
      end.
Proof.
  induction cycles as [|c rest IH]; intros g Ha; [reflexivity|].
  simpl. unfold bind at 1, get at 1. rewrite Ha.
  destruct (axis_mask_from_cycle config (Z.of_nat c) =? 0); simpl.
  - apply IH. exact Ha.
  - unfold bind at 2, get at 1. rewrite Ha.
    apply bind_ext. intros _ g'. apply all_cycles_homed.
Qed.

(** C7.  Entered outside the alarm state, as [home()] does, the "all cycles"
    request runs, by increasing cycle number from 1 to [MAX_N_AXIS], one
    cycle for each cycle number that matches some axis, on the set of the
    axes whose cycle number it is; it stops as soon as the system is in
    alarm; and it raises the no-homing-cycles alarm exactly when no cycle
    number matches. *)
Theorem run_cycles_all config g :
  State_eqb (sys_state g) Alarm = false ->
  run_cycles config AllCycles g = all_cycles_spec config g
  /\ forall cycle j,
       Z.testbit (axis_mask_from_cycle config cycle) (Z.of_nat j) = true <->
       exists a h, _axis config !! j = Some a /\ _homing a = Some h
                   /\ _cycle h = cycle.
Proof.
  intros Ha. split; [|apply axis_mask_from_cycle_spec].
  unfold run_cycles, all_cycles_spec, matching_cycles.
  change (negb (AllCycles =? AllCycles)) with false. cbv iota.
  rewrite all_cycles_fresh by exact Ha.
  destruct (List.filter _ _); reflexivity.
Qed.

(** Witness for C7: homing every cycle of the four-axis machine. *)
Lemma run_cycles_all_witness :
  State_eqb (sys_state (Bench.at_rest [0; 0; 0; 0] Bench.all_home)) Alarm
  = false
  /\ run_cycles Bench.four_axes AllCycles
       (Bench.at_rest [0; 0; 0; 0] Bench.all_home)
     = all_cycles_spec Bench.four_axes
         (Bench.at_rest [0; 0; 0; 0] Bench.all_home)
  /\ forall cycle j,
       Z.testbit (axis_mask_from_cycle Bench.four_axes cycle) (Z.of_nat j)
       = true <->
       exists a h, _axis Bench.four_axes !! j = Some a /\ _homing a = Some h
                   /\ _cycle h = cycle.
Proof.
  split; [reflexivity|].
  exact (run_cycles_all Bench.four_axes
           (Bench.at_rest [0; 0; 0; 0] Bench.all_home) eq_refl).
Defined.

(** Cycle numbers 1, 1, 2 and none: cycle 1 homes X and Y together, cycle 2
    homes Z, the fourth axis is skipped and no later cycle runs. *)
Example four_axes_cycles :
  matching_cycles Bench.four_axes = [3; 4]
  /\ fst (run_cycles Bench.four_axes AllCycles
            (Bench.at_rest [0; 0; 0; 0] Bench.all_home)) = Done tt
  /\ List.filter
       (fun c => match c with set_homing_mode_call _ true => true | _ => false end)
       (calls (snd (run_cycles Bench.four_axes AllCycles
                      (Bench.at_rest [0; 0; 0; 0] Bench.all_home))))
     = [set_homing_mode_call 3 true; set_homing_mode_call 4 true].
Proof. by_evaluation. Qed.

(** A machine without any homing cycle raises the alarm. *)
Example no_cycles_alarm :
  run_cycles (Bench.machine [Bench.axis_of None 100 F32.zero F32.zero] 0)
    AllCycles (Bench.at_rest [0] [])
  = (Done tt,
     with_sys_state Alarm
       (with_calls [log_error_call "No homing cycles defined"]
          (Bench.at_rest [0] []))).
Proof. reflexivity. Qed.

(** ** The polling loop of [run] *)

Lemma poll_cycle_stop_pending remainingMotors g :
  rtCycleStop g = true ->
  poll_cycle_stop remainingMotors g
  = if _approach g then (Raised HomingFailApproach, with_rtCycleStop false g)
    else if negb (Z.land (limitedMotors g) remainingMotors =? 0)
         then (Raised HomingFailPulloff, with_rtCycleStop false g)
         else (Done 0, with_rtCycleStop false g).
Proof.
  intros Hstop. unfold poll_cycle_stop, bind, get, modify, throw, ret.
  rewrite Hstop. simpl.
  destruct (_approach g); [reflexivity|].
  unfold limitedMotors. simpl.
  destruct (Z.land (Z.lor (posLimitMask g) (negLimitMask g)) remainingMotors =? 0);
    reflexivity.
Qed.

(** A pull-off whose move ends with no switch active returns after the
    stepper reset and the settle delay. *)
Example pulloff_settles :
  fst (run (Bench.one_axis true 500 200) 1 Pulloff0
         (Bench.at_rest [0] [Bench.cycle_stop 0])) = Done tt
  /\ skipn 3 (calls (snd (run (Bench.one_axis true 500 200) 1 Pulloff0
                            (Bench.at_rest [0] [Bench.cycle_stop 0]))))
     = [Stepper_prep_buffer; pollChannels_call; Stepper_reset;
        delay_ms_call 250].
Proof. by_evaluation. Qed.

(** A pull-off that ends with the switch still active fails. *)
Example pulloff_switch_stuck :
  fst (run (Bench.one_axis true 500 200) 1 Pulloff0
         (Bench.at_rest [0] [Bench.cycle_stop 1]))
  = Raised HomingFailPulloff.
Proof. vm_compute. reflexivity. Qed.

(** ** Alarms raised by [run] *)

Lemma for_axes_no_raise {V} (body : nat -> Axis -> V -> M V) :
  (forall i a v g alarm g', body i a v g <> (Raised alarm, g')) ->
  forall axes k v g alarm g',
    for_axes body k axes v g <> (Raised alarm, g').
Proof.
  intros Hbody. induction axes as [|a rest IH]; intros k v g alarm g' H.
  - discriminate.
  - simpl in H. unfold bind in H.
    destruct (body k a v g) as [[v1| | |] g1] eqn:Hb; try discriminate.
    + exact (IH _ _ _ _ _ H).
    + exact (Hbody _ _ _ _ _ _ Hb).
Qed.

Lemma first_pass_no_raise motors phase i a v g alarm g' :
  first_pass motors phase i a v g <> (Raised alarm, g').
Proof.
  intros H. destruct (active motors i) eqn:Hact.
  - destruct (_homing a) as [h|] eqn:Hh.
    + rewrite (first_pass_active _ _ _ _ h) in H by assumption. discriminate.
    + pose proof (first_pass_fault motors phase i a v g Hact Hh) as Hf.
      rewrite H in Hf. discriminate.
  - rewrite first_pass_inactive in H by assumption. discriminate.
Qed.

Lemma second_pass_no_raise phase seeking v i a tgt g alarm g' :
  second_pass phase seeking v i a tgt g <> (Raised alarm, g').
Proof.
  unfold second_pass. destruct (bitnum_is_true (axesMask v) i);
    [|discriminate].
  destruct (_homing a); discriminate.
Qed.

Lemma plan_move_no_raise config motors phase g alarm g' :
  plan_move config motors phase g <> (Raised alarm, g').
Proof.
  unfold plan_move. unfold bind at 1. unfold get at 1.
  unfold bind at 1.
  destruct (for_axes (first_pass motors phase) 0 (_axis config) _ g)
    as [[v| | |] g1] eqn:H1; try discriminate.
  - unfold bind at 1.
    destruct (for_axes (second_pass phase _ v) 0 (_axis config) (target v) g1)
      as [[t| | |] g2] eqn:H2; try discriminate.
    exfalso. exact (for_axes_no_raise _ (second_pass_no_raise phase _ v)
                      _ _ _ _ _ _ H2).
  - exfalso. exact (for_axes_no_raise _ (first_pass_no_raise motors phase)
                      _ _ _ _ _ _ H1).
Qed.

Lemma poll_signals_cases remainingMotors g :
  (exists g', poll_signals remainingMotors g = (Raised HomingFailReset, g')
              /\ rtReset g' = true)
  \/ (exists g', poll_signals remainingMotors g = (Raised HomingFailDoor, g')
                 /\ rtSafetyDoor g' = true)
  \/ (exists r1 g', poll_signals remainingMotors g = (Done r1, g')).
Proof.
  cbv [poll_signals bind get call modify when throw ret]. simpl.
  destruct (rtStatusReport g) eqn:Hs; simpl;
    destruct (rtReset g) eqn:Hr; simpl;
    destruct (rtSafetyDoor g) eqn:Hd; simpl;
    first [ left; eexists; split; [reflexivity|simpl; assumption]
          | right; left; eexists; split; [reflexivity|simpl; assumption]
          | right; right; eexists; eexists; reflexivity ].
Qed.

Lemma poll_cycle_stop_cases remainingMotors g :
  (exists alarm g', poll_cycle_stop remainingMotors g = (Raised alarm, g')
                    /\ (alarm = HomingFailApproach \/ alarm = HomingFailPulloff)
                    /\ rtCycleStop g' = false)
  \/ (exists r1 g', poll_cycle_stop remainingMotors g = (Done r1, g')).
Proof.
  destruct (rtCycleStop g) eqn:Hstop.
  - rewrite (poll_cycle_stop_pending _ _ Hstop).
    destruct (_approach g); [left; eauto 6|].
    destruct (negb _); [left; eauto 6|right; eauto].
  - right. unfold poll_cycle_stop, bind, get. rewrite Hstop. eauto.
Qed.

Lemma poll_loop_alarm :
  forall events remainingMotors g alarm g',
    poll_loop events remainingMotors g = (Raised alarm, g') ->
    alarm_flags alarm g'.
Proof.
  induction events as [|ev rest IH]; intros r g alarm g' H; [discriminate|].
  simpl in H. unfold bind at 1, modify at 1 in H.
  unfold bind at 1 in H.
  destruct (poll_signals_cases r (deliver ev rest g))
    as [(g1 & E & Hf)|[(g1 & E & Hf)|(r1 & g1 & E)]]; rewrite E in H.
  - injection H as <- <-. exact Hf.
  - injection H as <- <-. exact Hf.
  - unfold bind at 1 in H.
    destruct (poll_cycle_stop_cases r1 g1)
      as [(a & g2 & E2 & Ha & Hf)|(r2 & g2 & E2)]; rewrite E2 in H.
    + injection H as <- <-. destruct Ha as [-> | ->]; exact Hf.
    + unfold bind at 1, call at 1, modify at 1 in H.
      destruct (r2 =? 0); [discriminate|]. exact (IH _ _ _ _ H).
Qed.

(** C9.  When [run] raises an alarm, the cycle-stop flag has been consumed
    if the alarm is HomingFailApproach or HomingFailPulloff, and the reset
    flag, respectively the safety-door flag, is still set if the alarm is
    HomingFailReset, respectively HomingFailDoor. *)
Theorem run_alarm_flags config motors phase g alarm g' :
  run config motors phase g = (Raised alarm, g') ->
  match alarm with
  | HomingFailApproach | HomingFailPulloff => rtCycleStop g' = false
  | HomingFailReset => rtReset g' = true
  | HomingFailDoor => rtSafetyDoor g' = true
  end.
Proof.
  intros H. fold (alarm_flags alarm g'). unfold run in H.
  destruct (motors =? 0); [discriminate|].
  unfold bind at 1, get at 1 in H.
  destruct (HomingPhase_eqb phase PrePulloff && _); [discriminate|].
  unfold bind at 1, modify at 1 in H. unfold bind at 1 in H.
  destruct (plan_move config motors phase _) as [[s| | |] g1] eqn:Hp;
    try discriminate.
  - unfold bind at 1, get at 1 in H. unfold bind at 1 in H.
    destruct (poll_loop (pending g1) motors g1) as [[[]| | |] g2] eqn:Hl;
      try discriminate.
    injection H as <- <-. exact (poll_loop_alarm _ _ _ _ _ Hl).
  - exfalso. exact (plan_move_no_raise _ _ _ _ _ _ Hp).
Qed.

(** Witness for C9: an approach that runs out of travel. *)
Lemma run_alarm_flags_witness :
  run (Bench.one_axis true 500 200) 1 FastApproach
    (Bench.at_rest [0] [Bench.cycle_stop 0])
  = (Raised HomingFailApproach,
     snd (run (Bench.one_axis true 500 200) 1 FastApproach
            (Bench.at_rest [0] [Bench.cycle_stop 0])))
  /\ rtCycleStop
       (snd (run (Bench.one_axis true 500 200) 1 FastApproach
               (Bench.at_rest [0] [Bench.cycle_stop 0]))) = false.
Proof.
  assert (H : run (Bench.one_axis true 500 200) 1 FastApproach
                (Bench.at_rest [0] [Bench.cycle_stop 0])
              = (Raised HomingFailApproach,
                 snd (run (Bench.one_axis true 500 200) 1 FastApproach
                        (Bench.at_rest [0] [Bench.cycle_stop 0]))))
    by (vm_compute; reflexivity).
  split; [exact H|].
  exact (run_alarm_flags _ _ _ _ _ _ H).
Defined.

(** A reset or an open door fails the phase and stays pending. *)
Example reset_stays_pending :
  fst (run (Bench.one_axis true 500 200) 1 FastApproach
         (Bench.at_rest [0] [Bench.reset])) = Raised HomingFailReset
  /\ rtReset (snd (run (Bench.one_axis true 500 200) 1 FastApproach
                     (Bench.at_rest [0] [Bench.reset]))) = true
  /\ fst (run (Bench.one_axis true 500 200) 1 FastApproach
            (Bench.at_rest [0] [Bench.door])) = Raised HomingFailDoor
  /\ rtSafetyDoor (snd (run (Bench.one_axis true 500 200) 1 FastApproach
                          (Bench.at_rest [0] [Bench.door]))) = true.
Proof. by_evaluation. Qed.

(** ** The approach flag across a failed phase *)

(** C3, at the failing input.  A fast approach interrupted by a reset raises
    HomingFailReset with the approach flag still set; the [catch] block of
    [run_one_cycle] records the alarm and leaves the flag set as well, where
    a phase that completes clears it. *)
Theorem approach_flag_survives_alarm :
  run (Bench.one_axis true 500 200) 1 FastApproach
    (Bench.at_rest [0] [Bench.reset])
  = (Raised HomingFailReset,
     snd (run (Bench.one_axis true 500 200) 1 FastApproach
            (Bench.at_rest [0] [Bench.reset])))
  /\ _approach (snd (run (Bench.one_axis true 500 200) 1 FastApproach
                       (Bench.at_rest [0] [Bench.reset]))) = true
  /\ fst (run_one_cycle (Bench.one_axis true 500 200) 1
            (Bench.at_rest [0] [Bench.reset])) = Done tt
  /\ rtAlarm (snd (run_one_cycle (Bench.one_axis true 500 200) 1
                     (Bench.at_rest [0] [Bench.reset])))
     = Some HomingFailReset
  /\ _approach (snd (run_one_cycle (Bench.one_axis true 500 200) 1
                       (Bench.at_rest [0] [Bench.reset]))) = true
  /\ _approach (snd (run (Bench.one_axis true 500 200) 1 FastApproach
                       (Bench.at_rest [0] [Bench.limits 1]))) = false.
Proof. by_evaluation. Qed.

(** * Further properties of the homing code *)

(** ** Further facts about the loops of [plan_move] *)

Lemma plan_move_inv config motors phase g s g' :
  plan_move config motors phase g = (Done s, g') ->
  exists v g1 tgt g2,
    for_axes (first_pass motors phase) 0 (_axis config)
      (initial_locals config g) g = (Done v, g1)
    /\ for_axes (second_pass phase (HomingPhase_eqb phase FastApproach) v) 0
         (_axis config) (target v) g1 = (Done tgt, g2)
    /\ s = settle v
    /\ g' = planned v tgt g2.
Proof.
  intros H. unfold plan_move in H. unfold bind at 1, get at 1 in H.
  fold (initial_locals config g) in H.
  apply bind_Done_inv in H as (v & g1 & H1 & H).
  apply bind_Done_inv in H as (tgt & g2 & H2 & H).
  exists v, g1, tgt, g2.
  cbv [bind plan_buffer_line modify call ret] in H.
  injection H as <- <-. repeat split; assumption.
Qed.

(** Every call the second loop makes is a log of a target. *)
Lemma second_loop_calls phase v axes t0 tgt g1 g2 :
  for_axes (second_pass phase (HomingPhase_eqb phase FastApproach) v) 0 axes
    t0 g1 = (Done tgt, g2) ->
  exists logs, calls g2 = calls g1 ++ logs
               /\ forallb is_target_log logs = true.
Proof.
  intros Hrun.
  apply (second_pass_invariant phase v
           (fun _ _ g => exists logs, calls g = calls g1 ++ logs
                                      /\ forallb is_target_log logs = true)
           axes t0 g1 tgt g2 Hrun).
  - exists []. rewrite app_nil_r. auto.
  - intros i a h t g _ _ _ (logs & -> & Hl). simpl.
    eexists (logs ++ [_]). rewrite app_assoc. split; [reflexivity|].
    rewrite forallb_app, Hl. reflexivity.
  - auto.
Qed.

Lemma first_loop_steps_length motors phase axes v0 g0 v g :
  for_axes (first_pass motors phase) 0 axes v0 g0 = (Done v, g) ->
  length (motor_steps g) = length (motor_steps g0).
Proof.
  intros Hrun.
  apply (first_pass_invariant motors phase
           (fun _ _ g1 => length (motor_steps g1) = length (motor_steps g0))
           axes v0 g0 v g Hrun); auto.
  intros i a h v1 g1 _ _ _ IH. simpl. rewrite length_insert. exact IH.
Qed.

(** The step counter of every active axis is cleared. *)
Lemma first_loop_steps_active motors phase axes v0 g0 v g j a :
  for_axes (first_pass motors phase) 0 axes v0 g0 = (Done v, g) ->
  axes !! j = Some a -> active motors j = true ->
  (j < length (motor_steps g0))%nat ->
  motor_steps g !! j = Some 0.
Proof.
  intros Hrun Hj Hact Hlen.
  pose (I := fun (k : nat) (v1 : PlanLocals) (g1 : Globals) =>
       length (motor_steps g1) = length (motor_steps g0) /\
       ((j < k)%nat -> motor_steps g1 !! j = Some 0)).
  assert (Hinv : I (length axes) v g).
  { apply (first_pass_invariant motors phase I axes v0 g0 v g Hrun);
      unfold I.
    - split; auto. lia.
    - intros i a' h' v1 g1 Hi Ha' Hh' (Hl & IH). simpl. split.
      + rewrite length_insert. exact Hl.
      + intros Hlt. destruct (Nat.eq_dec i j) as [->|Hne].
        * rewrite list_lookup_insert_eq by lia. reflexivity.
        * rewrite list_lookup_insert_ne by exact Hne. apply IH. lia.
    - intros i a' v1 g1 Hi Ha' (Hl & IH). split; auto.
      intros Hlt. destruct (Nat.eq_dec i j) as [->|Hne]; [congruence|].
      apply IH. lia. }
  apply Hinv. apply lookup_lt_Some in Hj. exact Hj.
Qed.

(** The settle time is the largest one of the active axes. *)
Lemma first_loop_settle motors phase axes v0 g0 v g :
  for_axes (first_pass motors phase) 0 axes v0 g0 = (Done v, g) ->
  settle v0 = 0 ->
  0 <= settle v
  /\ (forall j a h, takes_part motors axes j a h -> _settle_ms h <= settle v)
  /\ (settle v = 0
      \/ exists j a h, takes_part motors axes j a h /\ settle v = _settle_ms h).
Proof.
  intros Hrun H0.
  pose (I := fun (k : nat) (v1 : PlanLocals) (g1 : Globals) =>
       0 <= settle v1 /\
       (forall j a h, (j < k)%nat -> takes_part motors axes j a h ->
                      _settle_ms h <= settle v1) /\
       (settle v1 = 0
        \/ exists j a h, takes_part motors axes j a h
                         /\ settle v1 = _settle_ms h)).
  assert (Hinv : I (length axes) v g).
  { apply (first_pass_invariant motors phase I axes v0 g0 v g Hrun);
      unfold I.
    - rewrite H0. repeat split; [lia| |auto]. intros; lia.
    - intros i a h v1 g1 Hi Ha Hh (Hpos & Hle & Hmax). simpl.
      repeat split.
      + lia.
      + intros j a' h' Hlt (Hj & Hh' & Hact).
        destruct (Nat.eq_dec j i) as [->|Hne].
        * assert (a' = a) by congruence. subst a'.
          assert (h' = h) by congruence. subst h'. lia.
        * assert (_settle_ms h' <= settle v1)
            by (apply (Hle j a' h'); [lia|repeat split; assumption]).
          lia.
      + destruct (Z.max_spec (settle v1) (_settle_ms h)) as [[_ ->]|[_ ->]].
        * right. exists i, a, h. repeat split; assumption.
        * exact Hmax.
    - intros i a v1 g1 Hi Ha (Hpos & Hle & Hmax). repeat split; auto.
      intros j a' h' Hlt (Hj & Hh' & Hact).
      destruct (Nat.eq_dec j i) as [->|Hne]; [congruence|].
      apply (Hle j a' h'); [lia|repeat split; assumption]. }
  destruct Hinv as (Hpos & Hle & Hmax). repeat split; auto.
  intros j a h Htp. apply (Hle j a h); [|exact Htp].
  destruct Htp as (Hj & _). apply lookup_lt_Some in Hj. exact Hj.
Qed.

(** ** [plan_move]: settle time, step counters, targets, frame *)

Lemma phase_blocks_other phase motors :
  phase <> Pulloff2 ->
  forall axes k, phase_blocks phase motors k axes = [].
Proof.
  intros Hp. induction axes as [|a rest IH]; intros k; [reflexivity|].
  simpl. rewrite IH.
  destruct (_homing a); [|reflexivity].
  destruct (active motors k); [|reflexivity].
  destruct phase; try reflexivity. congruence.
Qed.

Lemma phase_blocks_active phase motors :
  forall axes k j m,
    In (j, m) (phase_blocks phase motors k axes) ->
    active motors j = true /\ (m = 0 \/ m = 1)%nat.
Proof.
  induction axes as [|a rest IH]; intros k j m Hin; [destruct Hin|].
  simpl in Hin.
  destruct (_homing a); [|exact (IH _ _ _ Hin)].
  destruct (active motors k) eqn:Hact; [|exact (IH _ _ _ Hin)].
  apply in_app_or in Hin as [Hin|Hin]; [|exact (IH _ _ _ Hin)].
  unfold blocks_of in Hin. destruct phase; try destruct Hin.
  destruct (F32.ltb _ _).
  - destruct Hin as [Hin|[]]. injection Hin as <- <-. auto.
  - destruct (F32.gtb _ _); [|destruct Hin].
    destruct Hin as [Hin|[]]. injection Hin as <- <-. auto.
Qed.

(** With no active axis the loops change nothing. *)
Lemma first_loop_idle motors phase :
  forall axes k v g,
    (forall i, (i < length axes)%nat -> active motors (k + i) = false) ->
    for_axes (first_pass motors phase) k axes v g = (Done v, g).
Proof.
  induction axes as [|a rest IH]; intros k v g Hidle; [reflexivity|].
  simpl. rewrite (bind_Done _ _ _ v g).
  - apply IH. intros i Hi. replace (S k + i)%nat with (k + S i)%nat by lia.
    apply Hidle. simpl. lia.
  - apply first_pass_inactive. specialize (Hidle 0%nat).
    rewrite Nat.add_0_r in Hidle. apply Hidle. simpl. lia.
Qed.

Lemma second_loop_idle phase seeking v :
  axesMask v = 0 ->
  forall axes k t g,
    for_axes (second_pass phase seeking v) k axes t g = (Done t, g).
Proof.
  intros Hm. induction axes as [|a rest IH]; intros k t g; [reflexivity|].
  simpl. rewrite (bind_Done _ _ _ t g); [apply IH|].
  apply second_pass_skip. rewrite Hm. apply Z.bits_0.
Qed.

(** X1.  The settle time [plan_move] returns is the largest [_settle_ms] of
    the axes that take part: it is at least that of each of them, and it is
    that of one of them, or zero when there is none. *)
Theorem plan_move_settle config motors phase g :
  homing_readyb config motors = true ->
  exists s g',
    plan_move config motors phase g = (Done s, g')
    /\ 0 <= s
    /\ (forall j a h,
           takes_part motors (_axis config) j a h -> _settle_ms h <= s)
    /\ (s = 0
        \/ exists j a h,
             takes_part motors (_axis config) j a h /\ s = _settle_ms h).
Proof.
  intros Hready. apply homing_readyb_sound in Hready.
  destruct (plan_move_runs config motors phase g Hready)
    as (v & g1 & tgt & g2 & H1 & _ & H3).
  exists (settle v), (planned v tgt g2). split; [exact H3|].
  exact (first_loop_settle _ _ _ _ _ _ _ H1 eq_refl).
Qed.

Lemma plan_move_settle_witness :
  homing_readyb Bench.four_axes 0x20003 = true
  /\ exists s g',
      plan_move Bench.four_axes 0x20003 FastApproach
        (Bench.at_rest [7; 8; 9; 10] []) = (Done s, g')
      /\ 0 <= s
      /\ (forall j a h,
             takes_part 0x20003 (_axis Bench.four_axes) j a h ->
             _settle_ms h <= s)
      /\ (s = 0
          \/ exists j a h,
               takes_part 0x20003 (_axis Bench.four_axes) j a h
               /\ s = _settle_ms h).
Proof.
  split; [reflexivity|].
  apply (plan_move_settle Bench.four_axes 0x20003 FastApproach
           (Bench.at_rest [7; 8; 9; 10] [])).
  reflexivity.
Defined.

(** X2.  [plan_move] clears the step counter of every configured axis with
    a motor in the mask, and keeps the number of counters. *)
Theorem plan_move_clears_steps config motors phase g :
  homing_readyb config motors = true ->
  exists s g',
    plan_move config motors phase g = (Done s, g')
    /\ length (motor_steps g') = length (motor_steps g)
    /\ forall j a,
         _axis config !! j = Some a -> active motors j = true ->
         (j < length (motor_steps g))%nat ->
         motor_steps g' !! j = Some 0.
Proof.
  intros Hready. apply homing_readyb_sound in Hready.
  destruct (plan_move_runs config motors phase g Hready)
    as (v & g1 & tgt & g2 & H1 & H2 & H3).
  exists (settle v), (planned v tgt g2). split; [exact H3|].
  rewrite motor_steps_planned.
  rewrite (second_loop_frame _ _ _ _ _ _ _ H2). simpl. split.
  - exact (first_loop_steps_length _ _ _ _ _ _ _ H1).
  - intros j a Hj Hact Hlen.
    exact (first_loop_steps_active _ _ _ _ _ _ _ j a H1 Hj Hact Hlen).
Qed.

Lemma plan_move_clears_steps_witness :
  homing_readyb Bench.four_axes 0x20003 = true
  /\ exists s g',
      plan_move Bench.four_axes 0x20003 SlowApproach
        (Bench.at_rest [7; 8; 9; 10] []) = (Done s, g')
      /\ length (motor_steps g') = length [7; 8; 9; 10]
      /\ forall j a,
           _axis Bench.four_axes !! j = Some a ->
           active 0x20003 j = true ->
           (j < length [7; 8; 9; 10])%nat ->
           motor_steps g' !! j = Some 0.
Proof.
  split; [reflexivity|].
  apply (plan_move_clears_steps Bench.four_axes 0x20003 SlowApproach
           (Bench.at_rest [7; 8; 9; 10] [])).
  reflexivity.
Defined.

(** X3.  In every phase but the fast approach the target of an active axis
    is its signed travel times the scaler, whatever the rates of the axes;
    with the approach flag clear, as in the pull-off phases, the scaler is
    1.0 and the target is exactly the travel, negated for a positive homing
    direction. *)
Theorem pulloff_targets_exact config motors phase g :
  phase <> FastApproach ->
  homing_readyb config motors = true ->
  steps_cover config g ->
  exists s tgt data g',
    plan_move config motors phase g = (Done s, g')
    /\ planner g' = planner g ++ [(tgt, data)]
    /\ forall j a h,
         takes_part motors (_axis config) j a h ->
         tgt !! j
         = Some (F32.mul (signed_travel (_approach g) phase a h)
                   (scaler_of (_approach g) phase h))
         /\ (_approach g = false ->
             F32.valid (travel_of phase a) ->
             tgt !! j
             = Some (if _positiveDirection h
                     then F32.opp (travel_of phase a)
                     else travel_of phase a)).
Proof.
  intros Hphase Hready Hcover. apply homing_readyb_sound in Hready.
  destruct (plan_move_targets config motors phase g Hready Hcover)
    as (v & g1 & tgt & g2 & _ & _ & H3 & H4 & Ht).
  exists (settle v), tgt, (plan_data_of v), (planned v tgt g2).
  repeat split; auto.
  - rewrite (Ht j a h H). unfold scaled_target.
    replace (HomingPhase_eqb phase FastApproach) with false
      by (destruct phase; try reflexivity; congruence).
    reflexivity.
  - intros Happ Hvalid. rewrite (Ht j a h H), Happ. f_equal.
    unfold scaled_target, scaler_of, signed_travel.
    replace (HomingPhase_eqb phase FastApproach) with false
      by (destruct phase; try reflexivity; congruence).
    rewrite xorb_false_r. apply F32Facts.mul_one_r.
    destruct (_positiveDirection h); [apply F32Facts.opp_valid|];
      exact Hvalid.
Qed.

Lemma pulloff_targets_exact_witness :
  Pulloff0 <> FastApproach
  /\ homing_readyb Bench.four_axes 0x20003 = true
  /\ steps_cover Bench.four_axes (Bench.at_rest [7; 8; 9; 10] [])
  /\ exists s tgt data g',
      plan_move Bench.four_axes 0x20003 Pulloff0
        (Bench.at_rest [7; 8; 9; 10] []) = (Done s, g')
      /\ planner g' = planner (Bench.at_rest [7; 8; 9; 10] []) ++ [(tgt, data)]
      /\ forall j a h,
           takes_part 0x20003 (_axis Bench.four_axes) j a h ->
           tgt !! j
           = Some (F32.mul
                     (signed_travel
                        (_approach (Bench.at_rest [7; 8; 9; 10] []))
                        Pulloff0 a h)
                     (scaler_of (_approach (Bench.at_rest [7; 8; 9; 10] []))
                        Pulloff0 h))
           /\ (_approach (Bench.at_rest [7; 8; 9; 10] []) = false ->
               F32.valid (travel_of Pulloff0 a) ->
               tgt !! j
               = Some (if _positiveDirection h
                       then F32.opp (travel_of Pulloff0 a)
                       else travel_of Pulloff0 a)).
Proof.
  assert (Hc : steps_cover Bench.four_axes (Bench.at_rest [7; 8; 9; 10] []))
    by (unfold steps_cover, _numberAxis; simpl; lia).
  split; [discriminate|]. split; [reflexivity|]. split; [exact Hc|].
  apply (pulloff_targets_exact Bench.four_axes 0x20003 Pulloff0
           (Bench.at_rest [7; 8; 9; 10] []));
    [discriminate|reflexivity|exact Hc].
Defined.

(** X4.  [plan_move] leaves the realtime signals, the limit masks, the
    approach flag, the alarm and the system state as they were; it sets
    [executeSysMotion], hands the planner one block with one target per step
    counter, and after the target logs of its second loop calls
    [Stepper::prep_buffer] and then [Stepper::wake_up]. *)
Theorem plan_move_frame config motors phase g s g' :
  plan_move config motors phase g = (Done s, g') ->
  signal_part g' = signal_part g
  /\ _approach g' = _approach g
  /\ rtAlarm g' = rtAlarm g
  /\ sys_state g' = sys_state g
  /\ executeSysMotion g' = true
  /\ exists tgt data logs,
       planner g' = planner g ++ [(tgt, data)]
       /\ length tgt = length (motor_steps g)
       /\ calls g' = calls g ++ logs ++ [Stepper_prep_buffer; Stepper_wake_up]
       /\ forallb is_target_log logs = true.
Proof.
  intros H. apply plan_move_inv in H as (v & g1 & tgt & g2 & H1 & H2 & -> & ->).
  pose proof (second_loop_frame _ _ _ _ _ _ _ H2) as F2.
  pose proof (first_loop_frame _ _ _ _ _ _ _ H1) as F1.
  destruct (second_loop_calls _ _ _ _ _ _ _ H2) as (logs & Hc & Hl).
  assert (Hc1 : calls g1 = calls g) by (rewrite F1; reflexivity).
  repeat split;
    try (unfold signal_part; rewrite F2, F1; reflexivity);
    try (rewrite F2, F1; reflexivity).
  exists tgt, (plan_data_of v), logs. repeat split.
  - rewrite planner_planned. f_equal. rewrite F2, F1. reflexivity.
  - rewrite (second_loop_length _ _ _ _ _ _ _ H2).
    rewrite (first_loop_target_length _ _ _ _ _ _ _ H1). simpl.
    unfold get_mpos. apply length_imap.
  - simpl. rewrite Hc, Hc1, <- !app_assoc. reflexivity.
  - exact Hl.
Qed.

Lemma plan_move_frame_witness :
  plan_move Bench.four_axes 0x20003 FastApproach
    (Bench.approaching [7; 8; 9; 10] [Bench.reset])
  = (Done 250,
     snd (plan_move Bench.four_axes 0x20003 FastApproach
            (Bench.approaching [7; 8; 9; 10] [Bench.reset])))
  /\ signal_part
       (snd (plan_move Bench.four_axes 0x20003 FastApproach
               (Bench.approaching [7; 8; 9; 10] [Bench.reset])))
     = signal_part (Bench.approaching [7; 8; 9; 10] [Bench.reset])
  /\ executeSysMotion
       (snd (plan_move Bench.four_axes 0x20003 FastApproach
               (Bench.approaching [7; 8; 9; 10] [Bench.reset]))) = true.
Proof.
  assert (H : plan_move Bench.four_axes 0x20003 FastApproach
                (Bench.approaching [7; 8; 9; 10] [Bench.reset])
              = (Done 250,
                 snd (plan_move Bench.four_axes 0x20003 FastApproach
                        (Bench.approaching [7; 8; 9; 10] [Bench.reset]))))
    by (vm_compute; reflexivity).
  split; [exact H|].
  destruct (plan_move_frame _ _ _ _ _ _ H) as (Hs & _ & _ & _ & He & _).
  split; [exact Hs|exact He].
Defined.

(** X5.  Only the Pulloff2 phase blocks motors: in any other phase
    [plan_move] leaves the blocked motors as they were, and in Pulloff2 it
    only adds motor 0 or motor 1 of axes that take part. *)
Theorem only_pulloff2_blocks config motors phase g s g' :
  plan_move config motors phase g = (Done s, g') ->
  exists blocks,
    blocked g' = blocked g ++ blocks
    /\ (phase <> Pulloff2 -> blocks = [])
    /\ forall j m, In (j, m) blocks ->
                   active motors j = true /\ (m = 0 \/ m = 1)%nat.
Proof.
  intros H. apply plan_move_inv in H as (v & g1 & tgt & g2 & H1 & H2 & -> & ->).
  exists (phase_blocks phase motors 0 (_axis config)). repeat split.
  - change (blocked (planned v tgt g2)) with (blocked g2).
    rewrite (second_loop_frame _ _ _ _ _ _ _ H2). simpl.
    exact (first_loop_blocked _ _ _ _ _ _ _ _ H1).
  - intros Hp. apply phase_blocks_other. exact Hp.
  - apply (phase_blocks_active _ _ _ _ _ _ H).
  - apply (phase_blocks_active _ _ _ _ _ _ H).
Qed.

Lemma only_pulloff2_blocks_witness :
  plan_move Bench.four_axes 0x20003 Pulloff1
    (Bench.at_rest [7; 8; 9; 10] [])
  = (Done 250,
     snd (plan_move Bench.four_axes 0x20003 Pulloff1
            (Bench.at_rest [7; 8; 9; 10] [])))
  /\ exists blocks,
      blocked (snd (plan_move Bench.four_axes 0x20003 Pulloff1
                      (Bench.at_rest [7; 8; 9; 10] [])))
      = blocked (Bench.at_rest [7; 8; 9; 10] []) ++ blocks
      /\ (Pulloff1 <> Pulloff2 -> blocks = [])
      /\ forall j m, In (j, m) blocks ->
                     active 0x20003 j = true /\ (m = 0 \/ m = 1)%nat.
Proof.
  assert (H : plan_move Bench.four_axes 0x20003 Pulloff1
                (Bench.at_rest [7; 8; 9; 10] [])
              = (Done 250,
                 snd (plan_move Bench.four_axes 0x20003 Pulloff1
                        (Bench.at_rest [7; 8; 9; 10] []))))
    by (vm_compute; reflexivity).
  split; [exact H|].
  exact (only_pulloff2_blocks _ _ _ _ _ _ H).
Defined.

(** X6.  With no configured axis in the mask, [plan_move] still plans a
    move: to the current machine position, at feed rate zero, with settle
    time zero, touching no step counter and blocking no motor. *)
Theorem plan_move_no_axis config motors phase g :
  (forall j, (j < _numberAxis config)%nat -> active motors j = false) ->
  exists data g',
    plan_move config motors phase g = (Done 0, g')
    /\ planner g' = planner g ++ [(get_mpos config g, data)]
    /\ feed_rate data = F32.zero
    /\ motor_steps g' = motor_steps g
    /\ blocked g' = blocked g.
Proof.
  intros Hidle.
  assert (H1 : for_axes (first_pass motors phase) 0 (_axis config)
                 (initial_locals config g) g
               = (Done (initial_locals config g), g))
    by (apply first_loop_idle; exact Hidle).
  assert (H2 : for_axes
                 (second_pass phase (HomingPhase_eqb phase FastApproach)
                    (initial_locals config g)) 0 (_axis config)
                 (target (initial_locals config g)) g
               = (Done (get_mpos config g), g))
    by (apply second_loop_idle; reflexivity).
  exists (plan_data_of (initial_locals config g)),
         (planned (initial_locals config g) (get_mpos config g) g).
  split; [exact (plan_move_unfold _ _ _ _ _ _ _ _ H1 H2)|].
  repeat split.
Qed.

Lemma plan_move_no_axis_witness :
  (forall j, (j < _numberAxis (Bench.one_axis true 500 200))%nat ->
             active 0 j = false)
  /\ exists data g',
      plan_move (Bench.one_axis true 500 200) 0 Pulloff0
        (Bench.at_rest [7] []) = (Done 0, g')
      /\ planner g'
         = planner (Bench.at_rest [7] [])
           ++ [(get_mpos (Bench.one_axis true 500 200) (Bench.at_rest [7] []),
                data)]
      /\ feed_rate data = F32.zero
      /\ motor_steps g' = motor_steps (Bench.at_rest [7] [])
      /\ blocked g' = blocked (Bench.at_rest [7] []).
Proof.
  assert (H : forall j, (j < _numberAxis (Bench.one_axis true 500 200))%nat ->
                        active 0 j = false).
  { intros j _. unfold active. rewrite !Z.bits_0. reflexivity. }
  split; [exact H|].
  exact (plan_move_no_axis (Bench.one_axis true 500 200) 0 Pulloff0
           (Bench.at_rest [7] []) H).
Defined.

(** ** One turn of the polling loop *)

Lemma poll_body r (K : MotorMask -> M unit) g0 :
  (r1 <- poll_signals r ;;
   r2 <- poll_cycle_stop r1 ;;
   call pollChannels_call ;; K r2) g0
  = if rtReset g0 then (Raised HomingFailReset, polled g0)
    else if rtSafetyDoor g0 then (Raised HomingFailDoor, polled g0)
    else if rtCycleStop g0 then
      if _approach g0
      then (Raised HomingFailApproach, with_rtCycleStop false (polled g0))
      else if negb (Z.land (limitedMotors g0) (still_to_home g0 r) =? 0)
      then (Raised HomingFailPulloff, with_rtCycleStop false (polled g0))
      else K 0 (channels_polled (with_rtCycleStop false (polled g0)))
    else K (still_to_home g0 r) (channels_polled (polled g0)).
Proof.
  destruct g0 as [ap ms sr rs sd cs al pl nl st ex bl pn cl pe].
  cbv [bind poll_signals poll_cycle_stop get call modify when throw ret
       polled channels_polled still_to_home limitedMotors].
  simpl.
  destruct sr, rs, sd, cs, ap; simpl; try reflexivity;
    match goal with
    | |- context [negb ?b] => destruct b; reflexivity
    end.
Qed.

Lemma poll_loop_turn ev rest r g :
  poll_loop (ev :: rest) r g
  = let g0 := deliver ev rest g in
    if rtReset g0 then (Raised HomingFailReset, polled g0)
    else if rtSafetyDoor g0 then (Raised HomingFailDoor, polled g0)
    else if rtCycleStop g0 then
      if _approach g0
      then (Raised HomingFailApproach, with_rtCycleStop false (polled g0))
      else if negb (Z.land (limitedMotors g0) (still_to_home g0 r) =? 0)
      then (Raised HomingFailPulloff, with_rtCycleStop false (polled g0))
      else (Done tt, channels_polled (with_rtCycleStop false (polled g0)))
    else if still_to_home g0 r =? 0
      then (Done tt, channels_polled (polled g0))
      else poll_loop rest (still_to_home g0 r) (channels_polled (polled g0)).
Proof.
  cbn [poll_loop]. unfold bind at 1, modify at 1.
  rewrite (poll_body r
             (fun r2 => if r2 =? 0 then ret tt else poll_loop rest r2)).
  cbv zeta. change (0 =? 0) with true. cbv iota.
  destruct (still_to_home (deliver ev rest g) r =? 0); reflexivity.
Qed.

(** ** The polling loop as a whole *)

Lemma settle_down_eq s g : settle_down s g = (Done tt, settled s g).
Proof. reflexivity. Qed.

Lemma polled_machine g : machine_part (polled g) = machine_part g.
Proof. unfold polled. destruct (rtStatusReport g); reflexivity. Qed.

Lemma polled_report g : rtStatusReport (polled g) = false.
Proof. unfold polled. destruct (rtStatusReport g) eqn:H; [reflexivity|exact H]. Qed.

Lemma polled_signals g :
  (rtReset (polled g), rtSafetyDoor (polled g), rtCycleStop (polled g),
   posLimitMask (polled g), negLimitMask (polled g), pending (polled g))
  = (rtReset g, rtSafetyDoor g, rtCycleStop g, posLimitMask g,
     negLimitMask g, pending g).
Proof. unfold polled. destruct (rtStatusReport g); reflexivity. Qed.

Lemma polled_approach g : _approach (polled g) = _approach g.
Proof. unfold polled. destruct (rtStatusReport g); reflexivity. Qed.

Lemma next_turn_approach g : _approach (channels_polled (polled g)) = _approach g.
Proof. exact (polled_approach g). Qed.

Lemma polled_limits g : limitedMotors (polled g) = limitedMotors g.
Proof. unfold polled. destruct (rtStatusReport g); reflexivity. Qed.

(** [run] either skips the phase or plans the move, polls and settles. *)
Lemma run_cases config motors phase g :
  (run config motors phase g = (Done tt, g)
   /\ (motors = 0
       \/ (phase = PrePulloff /\ Z.land (limitedMotors g) motors = 0)))
  \/ (motors <> 0
      /\ (phase = PrePulloff -> Z.land (limitedMotors g) motors <> 0)
      /\ run config motors phase g
         = match plan_move config motors phase
                   (with_approach (is_approach phase) g) with
           | (Done s, g1) =>
               match poll_loop (pending g1) motors g1 with
               | (Done _, g2) => (Done tt, settled s g2)
               | (Raised alarm, g2) => (Raised alarm, g2)
               | (Fault, g2) => (Fault, g2)
               | (Starved, g2) => (Starved, g2)
               end
           | (Raised alarm, g1) => (Raised alarm, g1)
           | (Fault, g1) => (Fault, g1)
           | (Starved, g1) => (Starved, g1)
           end).
Proof.
  set (started :=
         match plan_move config motors phase
                 (with_approach (is_approach phase) g) with
         | (Done s, g1) =>
             match poll_loop (pending g1) motors g1 with
             | (Done _, g2) => (Done tt, settled s g2)
             | (Raised alarm, g2) => (Raised alarm, g2)
             | (Fault, g2) => (Fault, g2)
             | (Starved, g2) => (Starved, g2)
             end
         | (Raised alarm, g1) => (Raised alarm, g1)
         | (Fault, g1) => (Fault, g1)
         | (Starved, g1) => (Starved, g1)
         end).
  assert (Hrun : run config motors phase g
                 = if motors =? 0 then (Done tt, g)
                   else if HomingPhase_eqb phase PrePulloff
                           && (Z.land (limitedMotors g) motors =? 0)
                        then (Done tt, g) else started).
  { unfold run. destruct (motors =? 0); [reflexivity|].
    unfold bind at 1, get at 1. cbv beta iota.
    destruct (HomingPhase_eqb phase PrePulloff && _); [reflexivity|].
    unfold bind at 1, modify at 1. unfold bind at 1. unfold started.
    destruct (plan_move _ _ _ _) as [[s| | |] g1]; reflexivity. }
  rewrite Hrun. clear Hrun.
  destruct (Z.eqb_spec motors 0) as [->|Hm]; [left; auto|].
  destruct (HomingPhase_eqb phase PrePulloff) eqn:Hp; cbn [andb].
  - assert (phase = PrePulloff) as -> by (destruct phase; auto; discriminate).
    destruct (Z.eqb_spec (Z.land (limitedMotors g) motors) 0) as [Hl|Hl].
    + left. auto.
    + right. repeat split; auto.
  - right. repeat split; auto. intros ->. discriminate.
Qed.

(** Polling leaves the machine part of the globals alone. *)
Lemma poll_loop_machine :
  forall events r g o g',
    poll_loop events r g = (o, g') -> machine_part g' = machine_part g.
Proof.
  induction events as [|ev rest IH]; intros r g o g' H.
  - injection H as _ <-. reflexivity.
  - rewrite poll_loop_turn in H. cbv zeta in H.
    set (g0 := deliver ev rest g) in *.
    assert (Hp : machine_part (polled g0) = machine_part g)
      by (rewrite polled_machine; reflexivity).
    assert (Hc : machine_part (with_rtCycleStop false (polled g0))
                 = machine_part g) by exact Hp.
    destruct (rtReset g0); [injection H as _ <-; exact Hp|].
    destruct (rtSafetyDoor g0); [injection H as _ <-; exact Hp|].
    destruct (rtCycleStop g0).
    + destruct (_approach g0); [injection H as _ <-; exact Hc|].
      destruct (negb _); injection H as _ <-; exact Hc.
    + destruct (_ =? 0); [injection H as _ <-; exact Hp|].
      rewrite (IH _ _ _ _ H). exact Hp.
Qed.

(** Every turn consumes the status report request. *)
Lemma poll_loop_report :
  forall events r g o g',
    poll_loop events r g = (o, g') ->
    (events = [] -> rtStatusReport g = false) ->
    rtStatusReport g' = false.
Proof.
  induction events as [|ev rest IH]; intros r g o g' H H0.
  - injection H as _ <-. auto.
  - rewrite poll_loop_turn in H. cbv zeta in H.
    set (g0 := deliver ev rest g) in *.
    pose proof (polled_report g0) as Hp.
    destruct (rtReset g0); [injection H as _ <-; exact Hp|].
    destruct (rtSafetyDoor g0); [injection H as _ <-; exact Hp|].
    destruct (rtCycleStop g0).
    + destruct (_approach g0); [injection H as _ <-; exact Hp|].
      destruct (negb _); injection H as _ <-; exact Hp.
    + destruct (_ =? 0); [injection H as _ <-; exact Hp|].
      apply (IH _ _ _ _ H). intros _. exact Hp.
Qed.

(** The alarms of the loop: which one, in which kind of phase. *)
Lemma poll_loop_alarm_kind :
  forall events r g alarm g',
    poll_loop events r g = (Raised alarm, g') ->
    alarm = HomingFailReset \/ alarm = HomingFailDoor
    \/ (alarm = HomingFailApproach /\ _approach g = true)
    \/ (alarm = HomingFailPulloff /\ _approach g = false).
Proof.
  induction events as [|ev rest IH]; intros r g alarm g' H; [discriminate|].
  rewrite poll_loop_turn in H. cbv zeta in H.
  set (g0 := deliver ev rest g) in *.
  assert (Ha : _approach g0 = _approach g) by reflexivity.
  destruct (rtReset g0); [injection H as <- _; auto|].
  destruct (rtSafetyDoor g0); [injection H as <- _; auto|].
  destruct (rtCycleStop g0).
  - destruct (_approach g0); [injection H as <- _; auto|].
    destruct (negb _); [injection H as <- _; auto 6|discriminate].
  - destruct (_ =? 0); [discriminate|].
    apply IH in H. unfold channels_polled in H. simpl in H.
    rewrite polled_approach, Ha in H. exact H.
Qed.

Lemma clear_bits_testbit x y n :
  0 <= n ->
  Z.testbit (clear_bits x y) n = Z.testbit x n && negb (Z.testbit y n).
Proof.
  intros Hn. unfold clear_bits. rewrite Z.land_spec, Z.lnot_spec by exact Hn.
  reflexivity.
Qed.

(** An approach ends normally only when every motor has met a switch. *)
Lemma poll_loop_approach_done :
  forall events r g g',
    _approach g = true ->
    poll_loop events r g = (Done tt, g') ->
    forall bit,
      Z.testbit r bit = true ->
      exists ev, In ev events /\ Z.testbit (ev_limits ev) bit = true.
Proof.
  induction events as [|ev rest IH]; intros r g g' Happ H bit Hbit;
    [discriminate|].
  rewrite poll_loop_turn in H. cbv zeta in H.
  set (g0 := deliver ev rest g) in *.
  assert (Ha : _approach g0 = true) by exact Happ.
  assert (Hl : limitedMotors g0 = ev_limits ev) by reflexivity.
  assert (Hbit0 : 0 <= bit).
  { destruct (Z.neg_nonneg_cases bit) as [Hn|Hn]; [|exact Hn].
    rewrite Z.testbit_neg_r in Hbit by exact Hn. discriminate. }
  unfold still_to_home in H. rewrite Ha, Hl in H.
  destruct (rtReset g0); [discriminate|].
  destruct (rtSafetyDoor g0); [discriminate|].
  destruct (rtCycleStop g0); [discriminate|].
  destruct (Z.testbit (ev_limits ev) bit) eqn:Hev.
  { exists ev. split; [left; reflexivity|exact Hev]. }
  assert (Hr1 : Z.testbit (clear_bits r (ev_limits ev)) bit = true)
    by (rewrite clear_bits_testbit, Hbit, Hev by exact Hbit0; reflexivity).
  destruct (Z.eqb_spec (clear_bits r (ev_limits ev)) 0) as [E|_].
  - rewrite E, Z.bits_0 in Hr1. discriminate.
  - destruct (IH _ _ _ (eq_trans (next_turn_approach g0) Ha) H bit Hr1)
      as (ev' & Hin & Hb).
    exists ev'. split; [right; exact Hin|exact Hb].
Qed.

(** A pull-off ends normally only on a cycle stop that finds no switch of
    its motors engaged. *)
Lemma poll_loop_pulloff_done :
  forall events r g g',
    _approach g = false -> r <> 0 ->
    poll_loop events r g = (Done tt, g') ->
    Z.land (limitedMotors g') r = 0 /\ rtCycleStop g' = false.
Proof.
  induction events as [|ev rest IH]; intros r g g' Happ Hr H; [discriminate|].
  rewrite poll_loop_turn in H. cbv zeta in H.
  set (g0 := deliver ev rest g) in *.
  assert (Ha : _approach g0 = false) by exact Happ.
  unfold still_to_home in H. rewrite Ha in H.
  destruct (rtReset g0); [discriminate|].
  destruct (rtSafetyDoor g0); [discriminate|].
  destruct (rtCycleStop g0).
  - destruct (Z.eqb_spec (Z.land (limitedMotors g0) r) 0) as [E|_];
      [|discriminate].
    simpl in H. injection H as <-. split; [|reflexivity].
    change (limitedMotors (channels_polled (with_rtCycleStop false (polled g0))))
      with (limitedMotors (polled g0)).
    rewrite polled_limits. exact E.
  - destruct (Z.eqb_spec r 0) as [E|_]; [contradiction|].
    exact (IH _ _ _ (eq_trans (next_turn_approach g0) Ha) Hr H).
Qed.

(** The loop ends normally on a poll of the channels. *)
Lemma poll_loop_done_calls :
  forall events r g g',
    poll_loop events r g = (Done tt, g') ->
    exists pre, calls g' = calls g ++ pre ++ [pollChannels_call].
Proof.
  induction events as [|ev rest IH]; intros r g g' H; [discriminate|].
  rewrite poll_loop_turn in H. cbv zeta in H.
  set (g0 := deliver ev rest g) in *.
  assert (Hp : exists pre, calls (polled g0) = calls g ++ pre).
  { unfold polled. destruct (rtStatusReport g0); simpl.
    - exists [Stepper_prep_buffer; report_realtime_status_call].
      rewrite <- app_assoc. reflexivity.
    - exists [Stepper_prep_buffer]. reflexivity. }
  destruct Hp as (pre & Hp).
  destruct (rtReset g0); [discriminate|].
  destruct (rtSafetyDoor g0); [discriminate|].
  destruct (rtCycleStop g0).
  - destruct (_approach g0); [discriminate|].
    destruct (negb _); [discriminate|]. injection H as <-.
    exists pre. simpl. rewrite Hp, <- app_assoc. reflexivity.
  - destruct (_ =? 0).
    + injection H as <-. exists pre. simpl. rewrite Hp, <- app_assoc.
      reflexivity.
    + apply IH in H as (pre' & H). rewrite H. simpl. rewrite Hp.
      exists (pre ++ [pollChannels_call] ++ pre').
      rewrite <- !app_assoc. reflexivity.
Qed.

(** ** [run]: how a phase ends *)

Lemma plan_move_signals config motors phase g s g1 :
  plan_move config motors phase g = (Done s, g1) ->
  pending g1 = pending g /\ rtReset g1 = rtReset g
  /\ rtSafetyDoor g1 = rtSafetyDoor g /\ rtStatusReport g1 = rtStatusReport g
  /\ _approach g1 = _approach g /\ limitedMotors g1 = limitedMotors g.
Proof.
  intros H. apply plan_move_inv in H as (v & g0 & tgt & g2 & H1 & H2 & -> & ->).
  pose proof (second_loop_frame _ _ _ _ _ _ _ H2) as F2.
  pose proof (first_loop_frame _ _ _ _ _ _ _ H1) as F1.
  unfold limitedMotors.
  repeat split; simpl; rewrite F2, F1; reflexivity.
Qed.

Lemma plan_move_machine config motors phase g s g1 :
  plan_move config motors phase g = (Done s, g1) ->
  exists tgt data,
    planner g1 = planner g ++ [(tgt, data)]
    /\ rtAlarm g1 = rtAlarm g /\ sys_state g1 = sys_state g
    /\ length (motor_steps g1) = length (motor_steps g)
    /\ length tgt = length (motor_steps g).
Proof.
  intros H. apply plan_move_inv in H as (v & g0 & tgt & g2 & H1 & H2 & -> & ->).
  pose proof (second_loop_frame _ _ _ _ _ _ _ H2) as F2.
  pose proof (first_loop_frame _ _ _ _ _ _ _ H1) as F1.
  exists tgt, (plan_data_of v). repeat split.
  - rewrite planner_planned. f_equal. rewrite F2, F1. reflexivity.
  - simpl. rewrite F2, F1. reflexivity.
  - simpl. rewrite F2, F1. reflexivity.
  - rewrite motor_steps_planned, F2. simpl.
    exact (first_loop_steps_length _ _ _ _ _ _ _ H1).
  - rewrite (second_loop_length _ _ _ _ _ _ _ H2).
    rewrite (first_loop_target_length _ _ _ _ _ _ _ H1). simpl.
    unfold get_mpos. apply length_imap.
Qed.

(** X7.  An approach phase returns normally only once every motor of the
    mask has been reported at a limit switch at some poll. *)
Theorem approach_done_limits config motors phase g g' :
  is_approach phase = true ->
  run config motors phase g = (Done tt, g') ->
  forall bit,
    Z.testbit motors bit = true ->
    exists ev, In ev (pending g) /\ Z.testbit (ev_limits ev) bit = true.
Proof.
  intros Happ H bit Hbit.
  destruct (run_cases config motors phase g)
    as [(_ & [Hm|(Hp & _)])|(_ & _ & Hrun)].
  - rewrite Hm, Z.bits_0 in Hbit. discriminate.
  - rewrite Hp in Happ. discriminate.
  - rewrite Hrun in H.
    destruct (plan_move config motors phase _) as [[s| | |] g1] eqn:Hp;
      try discriminate.
    destruct (plan_move_signals _ _ _ _ _ _ Hp) as (Hpend & _ & _ & _ & Ha & _).
    destruct (poll_loop (pending g1) motors g1) as [[[]| | |] g2] eqn:Hl;
      try discriminate.
    rewrite Hpend in Hl. simpl in Hl, Ha. rewrite Happ in Ha.
    exact (poll_loop_approach_done _ _ _ _ Ha Hl bit Hbit).
Qed.

Lemma approach_done_limits_witness :
  is_approach FastApproach = true
  /\ run Bench.four_axes 0x20003 FastApproach
       (Bench.at_rest [0; 0; 0; 0] [Bench.limits 0x1; Bench.limits 0x20002])
     = (Done tt,
        snd (run Bench.four_axes 0x20003 FastApproach
               (Bench.at_rest [0; 0; 0; 0]
                  [Bench.limits 0x1; Bench.limits 0x20002])))
  /\ forall bit,
       Z.testbit 0x20003 bit = true ->
       exists ev,
         In ev [Bench.limits 0x1; Bench.limits 0x20002]
         /\ Z.testbit (ev_limits ev) bit = true.
Proof.
  assert (H : run Bench.four_axes 0x20003 FastApproach
                (Bench.at_rest [0; 0; 0; 0]
                   [Bench.limits 0x1; Bench.limits 0x20002])
              = (Done tt,
                 snd (run Bench.four_axes 0x20003 FastApproach
                        (Bench.at_rest [0; 0; 0; 0]
                           [Bench.limits 0x1; Bench.limits 0x20002]))))
    by (vm_compute; reflexivity).
  split; [reflexivity|]. split; [exact H|].
  exact (approach_done_limits Bench.four_axes 0x20003 FastApproach _ _
           eq_refl H).
Defined.

(** X8.  A pull-off phase, PrePulloff included, that returns normally
    returns with no limit switch of its motors engaged. *)
Theorem pulloff_done_switches_clear config motors phase g g' :
  is_approach phase = false ->
  run config motors phase g = (Done tt, g') ->
  Z.land (limitedMotors g') motors = 0.
Proof.
  intros Happ H.
  destruct (run_cases config motors phase g)
    as [(Hrun & [Hm|(_ & Hl)])|(Hm & _ & Hrun)].
  - rewrite Hm. apply Z.land_0_r.
  - rewrite Hrun in H. injection H as <-. exact Hl.
  - rewrite Hrun in H.
    destruct (plan_move config motors phase _) as [[s| | |] g1] eqn:Hp;
      try discriminate.
    destruct (plan_move_signals _ _ _ _ _ _ Hp) as (_ & _ & _ & _ & Ha & _).
    destruct (poll_loop (pending g1) motors g1) as [[[]| | |] g2] eqn:Hl;
      try discriminate.
    injection H as <-. simpl in Ha. rewrite Happ in Ha.
    exact (proj1 (poll_loop_pulloff_done _ _ _ _ Ha Hm Hl)).
Qed.

Lemma pulloff_done_switches_clear_witness :
  is_approach Pulloff0 = false
  /\ run Bench.four_axes 0x20003 Pulloff0
       (Bench.at_rest [0; 0; 0; 0] [Bench.limits 0x2; Bench.cycle_stop 0x4])
     = (Done tt,
        snd (run Bench.four_axes 0x20003 Pulloff0
               (Bench.at_rest [0; 0; 0; 0]
                  [Bench.limits 0x2; Bench.cycle_stop 0x4])))
  /\ Z.land
       (limitedMotors
          (snd (run Bench.four_axes 0x20003 Pulloff0
                  (Bench.at_rest [0; 0; 0; 0]
                     [Bench.limits 0x2; Bench.cycle_stop 0x4]))))
       0x20003 = 0.
Proof.
  assert (H : run Bench.four_axes 0x20003 Pulloff0
                (Bench.at_rest [0; 0; 0; 0]
                   [Bench.limits 0x2; Bench.cycle_stop 0x4])
              = (Done tt,
                 snd (run Bench.four_axes 0x20003 Pulloff0
                        (Bench.at_rest [0; 0; 0; 0]
                           [Bench.limits 0x2; Bench.cycle_stop 0x4]))))
    by (vm_compute; reflexivity).
  split; [reflexivity|]. split; [exact H|].
  exact (pulloff_done_switches_clear Bench.four_axes 0x20003 Pulloff0 _ _
           eq_refl H).
Defined.

(** X9.  An approach phase never raises HomingFailPulloff and a pull-off
    phase never raises HomingFailApproach. *)
Theorem run_alarm_kind config motors phase g alarm g' :
  run config motors phase g = (Raised alarm, g') ->
  if is_approach phase then alarm <> HomingFailPulloff
  else alarm <> HomingFailApproach.
Proof.
  intros H.
  destruct (run_cases config motors phase g)
    as [(Hrun & _)|(_ & _ & Hrun)]; rewrite Hrun in H; [discriminate|].
  destruct (plan_move config motors phase _) as [[s| | |] g1] eqn:Hp;
    try discriminate.
  - destruct (plan_move_signals _ _ _ _ _ _ Hp) as (_ & _ & _ & _ & Ha & _).
    simpl in Ha.
    destruct (poll_loop (pending g1) motors g1) as [[[]| | |] g2] eqn:Hl;
      try discriminate.
    injection H as <- <-.
    destruct (poll_loop_alarm_kind _ _ _ _ _ Hl)
      as [->|[->|[(-> & Hk)|(-> & Hk)]]];
      try (rewrite Ha in Hk; rewrite Hk);
      try destruct (is_approach phase); discriminate.
  - exfalso. exact (plan_move_no_raise _ _ _ _ _ _ Hp).
Qed.

Lemma run_alarm_kind_witness :
  run (Bench.one_axis true 500 200) 1 Pulloff0
    (Bench.at_rest [0] [Bench.cycle_stop 1])
  = (Raised HomingFailPulloff,
     snd (run (Bench.one_axis true 500 200) 1 Pulloff0
            (Bench.at_rest [0] [Bench.cycle_stop 1])))
  /\ HomingFailPulloff <> HomingFailApproach.
Proof.
  assert (H : run (Bench.one_axis true 500 200) 1 Pulloff0
                (Bench.at_rest [0] [Bench.cycle_stop 1])
              = (Raised HomingFailPulloff,
                 snd (run (Bench.one_axis true 500 200) 1 Pulloff0
                        (Bench.at_rest [0] [Bench.cycle_stop 1]))))
    by (vm_compute; reflexivity).
  split; [exact H|].
  exact (run_alarm_kind _ _ _ _ _ _ H).
Defined.

(** X10.  At the first poll of a phase that starts, a pending reset fails
    the phase with HomingFailReset whatever else is pending; without a
    reset, an open safety door fails it with HomingFailDoor. *)
Theorem first_poll_priority config motors phase g ev rest :
  homing_readyb config motors = true ->
  motors <> 0 ->
  (phase = PrePulloff -> Z.land (limitedMotors g) motors <> 0) ->
  pending g = ev :: rest ->
  (rtReset g || ev_reset ev = true ->
   fst (run config motors phase g) = Raised HomingFailReset)
  /\ (rtReset g || ev_reset ev = false ->
      rtSafetyDoor g || ev_safety_door ev = true ->
      fst (run config motors phase g) = Raised HomingFailDoor).
Proof.
  intros Hready Hm Hpre Hpend. apply homing_readyb_sound in Hready.
  destruct (run_cases config motors phase g)
    as [(_ & [E|(Hp & Hl)])|(_ & _ & Hrun)].
  - contradiction.
  - exfalso. exact (Hpre Hp Hl).
  - rewrite Hrun.
    destruct (plan_move_runs config motors phase
                (with_approach (is_approach phase) g) Hready)
      as (v & g0 & tgt & g2 & _ & _ & Hp).
    set (g1 := planned v tgt g2) in *. clearbody g1.
    rewrite Hp.
    destruct (plan_move_signals _ _ _ _ _ _ Hp) as (Hq & Hr & Hd & _).
    simpl in Hq, Hr, Hd. rewrite Hq, Hpend, poll_loop_turn. cbv zeta.
    change (rtReset (deliver ev rest g1)) with (rtReset g1 || ev_reset ev).
    change (rtSafetyDoor (deliver ev rest g1))
      with (rtSafetyDoor g1 || ev_safety_door ev).
    rewrite Hr, Hd. split.
    + intros ->. reflexivity.
    + intros -> ->. reflexivity.
Qed.

Lemma first_poll_priority_witness :
  homing_readyb (Bench.one_axis true 500 200) 1 = true
  /\ 1 <> 0
  /\ (FastApproach = PrePulloff ->
      Z.land (limitedMotors (Bench.at_rest [0] [Bench.reset])) 1 <> 0)
  /\ pending (Bench.at_rest [0] [Bench.reset]) = [Bench.reset]
  /\ fst (run (Bench.one_axis true 500 200) 1 FastApproach
            (Bench.at_rest [0] [Bench.reset])) = Raised HomingFailReset.
Proof.
  assert (H1 : homing_readyb (Bench.one_axis true 500 200) 1 = true)
    by reflexivity.
  assert (H2 : 1 <> 0) by discriminate.
  assert (H3 : FastApproach = PrePulloff ->
               Z.land (limitedMotors (Bench.at_rest [0] [Bench.reset])) 1 <> 0)
    by discriminate.
  assert (H4 : pending (Bench.at_rest [0] [Bench.reset]) = [Bench.reset])
    by reflexivity.
  repeat (split; [assumption|]).
  exact (proj1 (first_poll_priority _ _ _ _ _ _ H1 H2 H3 H4) eq_refl).
Defined.

(** X11.  When [run] returns normally it has either skipped the phase,
    changing nothing, or cleared the approach flag after a last poll of the
    channels, a stepper reset and a delay of exactly the settle time
    [plan_move] returned; polling changed neither the step counters nor the
    planner queue. *)
Theorem run_done_settles config motors phase g g' :
  run config motors phase g = (Done tt, g') ->
  (g' = g
   /\ (motors = 0
       \/ (phase = PrePulloff /\ Z.land (limitedMotors g) motors = 0)))
  \/ (exists s g1 pre,
        plan_move config motors phase (with_approach (is_approach phase) g)
        = (Done s, g1)
        /\ calls g'
           = calls g1 ++ pre
             ++ [pollChannels_call; Stepper_reset; delay_ms_call s]
        /\ _approach g' = false
        /\ motor_steps g' = motor_steps g1
        /\ planner g' = planner g1).
Proof.
  intros H.
  destruct (run_cases config motors phase g)
    as [(Hrun & Hskip)|(_ & _ & Hrun)]; rewrite Hrun in H.
  - injection H as <-. left. auto.
  - right.
    destruct (plan_move config motors phase _) as [[s| | |] g1] eqn:Hp;
      try discriminate.
    destruct (poll_loop (pending g1) motors g1) as [[[]| | |] g2] eqn:Hl;
      try discriminate.
    injection H as <-.
    destruct (poll_loop_done_calls _ _ _ _ Hl) as (pre & Hc).
    pose proof (poll_loop_machine _ _ _ _ _ Hl) as Hmach.
    unfold machine_part in Hmach.
    exists s, g1, pre. split; [reflexivity|]. repeat split.
    + simpl. rewrite Hc, <- !app_assoc. reflexivity.
    + simpl. congruence.
    + simpl. congruence.
Qed.

Lemma run_done_settles_witness :
  run Bench.four_axes 0x20003 Pulloff0
    (Bench.at_rest [0; 0; 0; 0] [Bench.limits 0x2; Bench.cycle_stop 0x4])
  = (Done tt,
     snd (run Bench.four_axes 0x20003 Pulloff0
            (Bench.at_rest [0; 0; 0; 0]
               [Bench.limits 0x2; Bench.cycle_stop 0x4])))
  /\ _approach
       (snd (run Bench.four_axes 0x20003 Pulloff0
               (Bench.at_rest [0; 0; 0; 0]
                  [Bench.limits 0x2; Bench.cycle_stop 0x4]))) = false.
Proof.
  assert (H : run Bench.four_axes 0x20003 Pulloff0
                (Bench.at_rest [0; 0; 0; 0]
                   [Bench.limits 0x2; Bench.cycle_stop 0x4])
              = (Done tt,
                 snd (run Bench.four_axes 0x20003 Pulloff0
                        (Bench.at_rest [0; 0; 0; 0]
                           [Bench.limits 0x2; Bench.cycle_stop 0x4]))))
    by (vm_compute; reflexivity).
  split; [exact H|].
  destruct (run_done_settles _ _ _ _ _ H)
    as [(Hg & _)|(s & g1 & pre & _ & _ & Ha & _)].
  - rewrite Hg. reflexivity.
  - exact Ha.
Defined.

(** X12.  Whenever [run] returns or throws, it has either skipped the
    phase or handed exactly one block to the planner. *)
Theorem run_plans_one_move config motors phase g o g' :
  run config motors phase g = (o, g') ->
  o <> Fault -> o <> Starved ->
  (o = Done tt /\ g' = g)
  \/ exists tgt data,
       planner g' = planner g ++ [(tgt, data)]
       /\ length tgt = length (motor_steps g).
Proof.
  intros H Hf Hs.
  destruct (run_cases config motors phase g)
    as [(Hrun & _)|(_ & _ & Hrun)]; rewrite Hrun in H.
  - injection H as <- <-. left. auto.
  - right.
    destruct (plan_move config motors phase _) as [[s| | |] g1] eqn:Hp.
    + destruct (plan_move_machine _ _ _ _ _ _ Hp)
        as (tgt & data & Hpl & _ & _ & _ & Hlen).
      exists tgt, data. split; [|exact Hlen].
      destruct (poll_loop (pending g1) motors g1) as [[[]| | |] g2] eqn:Hl;
        injection H as <- <-; try congruence;
        pose proof (poll_loop_machine _ _ _ _ _ Hl) as Hmach;
        unfold machine_part in Hmach.
      * change (planner (settled s g2)) with (planner g2).
        replace (planner g2) with (planner g1) by congruence. exact Hpl.
      * replace (planner g2) with (planner g1) by congruence. exact Hpl.
    + exfalso. exact (plan_move_no_raise _ _ _ _ _ _ Hp).
    + injection H as <- _. congruence.
    + injection H as <- _. congruence.
Qed.

Lemma run_plans_one_move_witness :
  run (Bench.one_axis true 500 200) 1 FastApproach
    (Bench.at_rest [0] [Bench.door])
  = (Raised HomingFailDoor,
     snd (run (Bench.one_axis true 500 200) 1 FastApproach
            (Bench.at_rest [0] [Bench.door])))
  /\ Raised HomingFailDoor <> (Fault : Outcome unit)
  /\ Raised HomingFailDoor <> (Starved : Outcome unit)
  /\ length (planner (snd (run (Bench.one_axis true 500 200) 1 FastApproach
                             (Bench.at_rest [0] [Bench.door])))) = 1%nat.
Proof.
  assert (H : run (Bench.one_axis true 500 200) 1 FastApproach
                (Bench.at_rest [0] [Bench.door])
              = (Raised HomingFailDoor,
                 snd (run (Bench.one_axis true 500 200) 1 FastApproach
                        (Bench.at_rest [0] [Bench.door]))))
    by (vm_compute; reflexivity).
  assert (Hf : Raised HomingFailDoor <> (Fault : Outcome unit))
    by discriminate.
  assert (Hs : Raised HomingFailDoor <> (Starved : Outcome unit))
    by discriminate.
  repeat (split; [assumption|]).
  destruct (run_plans_one_move _ _ _ _ _ _ H Hf Hs)
    as [(Ho & _)|(tgt & data & Hp & _)]; [discriminate|].
  rewrite Hp. reflexivity.
Defined.

(** X13.  Whenever [run] returns or throws after starting the phase, no
    status report request is left pending: every turn consumes the request
    before the reset and door checks can throw. *)
Theorem run_consumes_report config motors phase g o g' :
  run config motors phase g = (o, g') ->
  o <> Fault -> o <> Starved ->
  g' = g \/ rtStatusReport g' = false.
Proof.
  intros H Hf Hs.
  destruct (run_cases config motors phase g)
    as [(Hrun & _)|(_ & _ & Hrun)]; rewrite Hrun in H.
  - injection H as _ <-. left. reflexivity.
  - right.
    destruct (plan_move config motors phase _) as [[s| | |] g1] eqn:Hp.
    + destruct (pending g1) as [|ev rest] eqn:Hq.
      * simpl in H. injection H as <- _. congruence.
      * destruct (poll_loop (ev :: rest) motors g1) as [[[]| | |] g2] eqn:Hl;
          injection H as <- <-; try congruence;
          apply (poll_loop_report _ _ _ _ _ Hl); discriminate.
    + exfalso. exact (plan_move_no_raise _ _ _ _ _ _ Hp).
    + injection H as <- _. congruence.
    + injection H as <- _. congruence.
Qed.

Lemma run_consumes_report_witness :
  run (Bench.one_axis true 500 200) 1 FastApproach
    (Bench.at_rest [0] [Build_Event true true false false 0 0])
  = (Raised HomingFailReset,
     snd (run (Bench.one_axis true 500 200) 1 FastApproach
            (Bench.at_rest [0] [Build_Event true true false false 0 0])))
  /\ Raised HomingFailReset <> (Fault : Outcome unit)
  /\ Raised HomingFailReset <> (Starved : Outcome unit)
  /\ rtStatusReport
       (snd (run (Bench.one_axis true 500 200) 1 FastApproach
               (Bench.at_rest [0] [Build_Event true true false false 0 0])))
     = false.
Proof.
  assert (H : run (Bench.one_axis true 500 200) 1 FastApproach
                (Bench.at_rest [0] [Build_Event true true false false 0 0])
              = (Raised HomingFailReset,
                 snd (run (Bench.one_axis true 500 200) 1 FastApproach
                        (Bench.at_rest [0]
                           [Build_Event true true false false 0 0]))))
    by (vm_compute; reflexivity).
  assert (Hf : Raised HomingFailReset <> (Fault : Outcome unit))
    by discriminate.
  assert (Hs : Raised HomingFailReset <> (Starved : Outcome unit))
    by discriminate.
  repeat (split; [assumption|]).
  destruct (run_consumes_report _ _ _ _ _ _ H Hf Hs) as [Hg|Hr];
    [|exact Hr].
  rewrite Hg. reflexivity.
Defined.

(** ** [run]: a cycle stop during the loop *)

(** The turns of the loop before a signal is raised. *)
Lemma poll_loop_prefix :
  forall before tail r g,
    rtReset g = false -> rtSafetyDoor g = false -> rtCycleStop g = false ->
    keeps_polling (_approach g) r before = true ->
    exists rk gk pre,
      poll_loop (before ++ tail) r g = poll_loop tail rk gk
      /\ rtReset gk = false /\ rtSafetyDoor gk = false
      /\ rtCycleStop gk = false
      /\ _approach gk = _approach g
      /\ calls gk = calls g ++ pre
      /\ (_approach g = false -> rk = r).
Proof.
  induction before as [|e bs IH]; intros tail r g Hr Hd Hs Hk.
  - exists r, g, []. rewrite app_nil_r. repeat split; auto.
  - cbn [keeps_polling] in Hk. cbv zeta in Hk.
    apply andb_prop in Hk as [Hk Hrest].
    apply andb_prop in Hk as [Hq Hne].
    unfold raises_nothing in Hq. apply andb_prop in Hq as [Hq Hq3].
    apply andb_prop in Hq as [Hq1 Hq2].
    apply negb_true_iff in Hq1, Hq2, Hq3, Hne.
    change ((e :: bs) ++ tail) with (e :: (bs ++ tail)).
    rewrite poll_loop_turn. cbv zeta.
    set (g0 := deliver e (bs ++ tail) g).
    assert (Hr0 : rtReset g0 = false)
      by (change (rtReset g || ev_reset e = false); rewrite Hr, Hq1; auto).
    assert (Hd0 : rtSafetyDoor g0 = false)
      by (change (rtSafetyDoor g || ev_safety_door e = false);
          rewrite Hd, Hq2; auto).
    assert (Hs0 : rtCycleStop g0 = false)
      by (change (rtCycleStop g || ev_cycle_stop e = false);
          rewrite Hs, Hq3; auto).
    set (r1 := still_to_home g0 r).
    change ((r1 =? 0) = false) in Hne.
    change (keeps_polling (_approach g) r1 bs = true) in Hrest.
    assert (Hst : _approach g = false -> r1 = r)
      by (intros Hf; unfold r1, still_to_home;
          change (_approach g0) with (_approach g); rewrite Hf; reflexivity).
    rewrite Hr0, Hd0, Hs0, Hne.
    pose proof (polled_signals g0) as Hsig.
    pose proof (polled_approach g0) as Hap.
    destruct (IH tail r1 (channels_polled (polled g0)))
      as (rk & gk & pre & Hrun & Hrk & Hdk & Hsk & Hak & Hck & Hrr).
    + change (rtReset (polled g0) = false). congruence.
    + change (rtSafetyDoor (polled g0) = false). congruence.
    + change (rtCycleStop (polled g0) = false). congruence.
    + change (_approach (channels_polled (polled g0)))
        with (_approach (polled g0)). rewrite Hap. exact Hrest.
    + assert (Hpc : exists pre0, calls (polled g0) = calls g ++ pre0).
      { unfold polled. destruct (rtStatusReport g0); simpl.
        - exists [Stepper_prep_buffer; report_realtime_status_call].
          rewrite <- app_assoc. reflexivity.
        - exists [Stepper_prep_buffer]. reflexivity. }
      destruct Hpc as (pre0 & Hpc).
      exists rk, gk, (pre0 ++ [pollChannels_call] ++ pre).
      repeat split; auto.
      * rewrite Hak. exact Hap.
      * rewrite Hck. simpl. rewrite Hpc, <- !app_assoc. reflexivity.
      * intros Hfalse. rewrite Hrr; [exact (Hst Hfalse)|].
        change (_approach (polled g0) = false). rewrite Hap. exact Hfalse.
Qed.

(** C4.  [run] starts a phase with no signal pending, its loop takes some
    turns without a signal, and then a turn finds the cycle stop raised,
    with neither reset nor safety door.  Then the cycle-stop flag is
    cleared, and: if the phase is an approach, [run] raises
    HomingFailApproach; if it is a pull-off and a limit switch of a
    remaining motor is active, [run] raises HomingFailPulloff; otherwise
    [run] leaves the loop without a further turn, resets the stepper,
    delays exactly the settle time that [plan_move] returned, and returns
    with the approach flag clear. *)
Theorem run_cycle_stop_outcomes config motors phase g before ev rest :
  homing_readyb config motors = true ->
  motors <> 0 ->
  (phase = PrePulloff -> Z.land (limitedMotors g) motors <> 0) ->
  rtReset g = false -> rtSafetyDoor g = false -> rtCycleStop g = false ->
  pending g = before ++ ev :: rest ->
  keeps_polling (is_approach phase) motors before = true ->
  ev_reset ev = false -> ev_safety_door ev = false ->
  ev_cycle_stop ev = true ->
  exists settle_ms g1 outcome g',
    plan_move config motors phase (with_approach (is_approach phase) g)
    = (Done settle_ms, g1)
    /\ run config motors phase g = (outcome, g')
    /\ rtCycleStop g' = false
    /\ (if is_approach phase then
          outcome = Raised HomingFailApproach
        else if negb (Z.land (ev_limits ev) motors =? 0) then
          outcome = Raised HomingFailPulloff
        else
          outcome = Done tt
          /\ _approach g' = false
          /\ pending g' = rest
          /\ exists polls,
               calls g'
               = calls g1 ++ polls
                 ++ [pollChannels_call; Stepper_reset;
                     delay_ms_call settle_ms]).
Proof.
  intros Hready Hm Hpre Hr Hd Hs Hpend Hkeep Her Hed Hes.
  apply homing_readyb_sound in Hready.
  destruct (run_cases config motors phase g)
    as [(_ & [E|(Hp & Hl)])|(_ & _ & Hrun)];
    [contradiction|exfalso; exact (Hpre Hp Hl)|].
  destruct (plan_move_runs config motors phase
              (with_approach (is_approach phase) g) Hready)
    as (v & gf & tgt & g2 & H1 & H2 & Hp).
  assert (Hs1 : rtCycleStop (planned v tgt g2) = rtCycleStop g).
  { change (rtCycleStop g2 = rtCycleStop g).
    rewrite (second_loop_frame _ _ _ _ _ _ _ H2).
    rewrite (first_loop_frame _ _ _ _ _ _ _ H1). reflexivity. }
  clear H1 H2.
  set (g1 := planned v tgt g2) in *. clearbody g1.
  destruct (plan_move_signals _ _ _ _ _ _ Hp)
    as (Hq & Hr1 & Hd1 & _ & Ha1 & _).
  simpl in Hq, Hr1, Hd1, Ha1.
  rewrite Hp, Hq, Hpend in Hrun.
  assert (Hk1 : keeps_polling (_approach g1) motors before = true)
    by (rewrite Ha1; exact Hkeep).
  destruct (poll_loop_prefix before (ev :: rest) motors g1
              (eq_trans Hr1 Hr) (eq_trans Hd1 Hd) (eq_trans Hs1 Hs) Hk1)
    as (rk & gk & pre & Hloop & Hrk & Hdk & Hsk & Hak & Hck & Hrr).
  rewrite Hloop, poll_loop_turn in Hrun. cbv zeta in Hrun.
  set (g0 := deliver ev rest gk) in *.
  assert (Hr0 : rtReset g0 = false)
    by (change (rtReset gk || ev_reset ev = false); rewrite Hrk, Her; auto).
  assert (Hd0 : rtSafetyDoor g0 = false)
    by (change (rtSafetyDoor gk || ev_safety_door ev = false);
        rewrite Hdk, Hed; auto).
  assert (Hs0 : rtCycleStop g0 = true)
    by (change (rtCycleStop gk || ev_cycle_stop ev = true);
        rewrite Hes; apply orb_true_r).
  assert (Ha0 : _approach g0 = is_approach phase)
    by (change (_approach gk = is_approach phase); congruence).
  rewrite Hr0, Hd0, Hs0, Ha0 in Hrun.
  exists (settle v), g1.
  destruct (is_approach phase) eqn:Hphase.
  - exists (Raised HomingFailApproach), (with_rtCycleStop false (polled g0)).
    repeat split; auto.
  - assert (Hst : still_to_home g0 rk = motors).
    { unfold still_to_home. rewrite Ha0. apply Hrr. congruence. }
    assert (Hl0 : limitedMotors g0 = ev_limits ev) by reflexivity.
    rewrite Hst, Hl0 in Hrun.
    destruct (negb (Z.land (ev_limits ev) motors =? 0)).
    + exists (Raised HomingFailPulloff),
             (with_rtCycleStop false (polled g0)).
      repeat split; auto.
    + eexists (Done tt), _. split; [exact Hp|]. split; [exact Hrun|].
      assert (Hpc : exists pre0, calls (polled g0) = calls gk ++ pre0).
      { unfold polled. destruct (rtStatusReport g0); simpl.
        - exists [Stepper_prep_buffer; report_realtime_status_call].
          rewrite <- app_assoc. reflexivity.
        - exists [Stepper_prep_buffer]. reflexivity. }
      destruct Hpc as (pre0 & Hpc).
      assert (Hpp : pending (polled g0) = rest).
      { pose proof (polled_signals g0) as Hsig.
        assert (pending (polled g0) = pending g0) by congruence.
        assumption. }
      repeat split; auto.
      exists (pre ++ pre0). simpl. rewrite Hpc, Hck, <- !app_assoc.
      reflexivity.
Qed.

(** Witness for C4: a pull-off of one axis whose move ends at the second
    poll, with no switch active. *)
Lemma run_cycle_stop_outcomes_witness :
  homing_readyb (Bench.one_axis true 500 200) 1 = true
  /\ 1 <> 0
  /\ keeps_polling (is_approach Pulloff0) 1 [Bench.quiet] = true
  /\ exists settle_ms g1 outcome g',
      plan_move (Bench.one_axis true 500 200) 1 Pulloff0
        (with_approach (is_approach Pulloff0)
           (Bench.at_rest [0] [Bench.quiet; Bench.cycle_stop 0]))
      = (Done settle_ms, g1)
      /\ run (Bench.one_axis true 500 200) 1 Pulloff0
           (Bench.at_rest [0] [Bench.quiet; Bench.cycle_stop 0])
         = (outcome, g')
      /\ rtCycleStop g' = false
      /\ outcome = Done tt
      /\ _approach g' = false
      /\ pending g' = []
      /\ exists polls,
           calls g'
           = calls g1 ++ polls
             ++ [pollChannels_call; Stepper_reset; delay_ms_call settle_ms].
Proof.
  assert (H1 : homing_readyb (Bench.one_axis true 500 200) 1 = true)
    by reflexivity.
  assert (H2 : 1 <> 0) by discriminate.
  assert (H3 : keeps_polling (is_approach Pulloff0) 1 [Bench.quiet] = true)
    by reflexivity.
  repeat (split; [assumption|]).
  destruct (run_cycle_stop_outcomes (Bench.one_axis true 500 200) 1 Pulloff0
              (Bench.at_rest [0] [Bench.quiet; Bench.cycle_stop 0])
              [Bench.quiet] (Bench.cycle_stop 0) [])
    as (s & g1 & o & g' & Hp & Hrun & Hflag & Hcase);
    try reflexivity; try assumption; try discriminate.
  exists s, g1, o, g'. simpl in Hcase.
  destruct Hcase as (Ho & Ha & Hq & Hc). repeat split; auto.
Defined.

(** In an approach the cycle stop fails the phase even in the turn in which
    the last motor meets its switch. *)
Example approach_stop_with_last_limit :
  fst (run (Bench.one_axis true 500 200) 1 FastApproach
         (Bench.at_rest [0] [Bench.cycle_stop 1]))
  = Raised HomingFailApproach.
Proof. vm_compute. reflexivity. Qed.

(** ** [set_mpos] *)

Lemma set_mpos_unfold config axisMask g :
  set_mpos config axisMask g
  = match for_axes (set_axis_mpos config axisMask) 0 (_axis config) tt g with
    | (Done _, g1) => (Done tt, homing_left axisMask g1)
    | (Raised alarm, g1) => (Raised alarm, g1)
    | (Fault, g1) => (Fault, g1)
    | (Starved, g1) => (Starved, g1)
    end.
Proof.
  unfold set_mpos. unfold bind at 1.
  change (fun axis axisConfig (_ : unit) =>
            if bitnum_is_true axisMask axis
            then match _homing axisConfig with
                 | Some homing =>
                     set_motor_steps axis
                       (mpos_to_steps config (_mpos homing) axis)
                 | None => fault
                 end
            else ret tt)
    with (set_axis_mpos config axisMask).
  destruct (for_axes _ _ _ _ _) as [[[]| | |] g1]; reflexivity.
Qed.

Lemma set_axis_mpos_cases config axisMask axis a u g :
  (Z.testbit axisMask (Z.of_nat axis) = false
   /\ set_axis_mpos config axisMask axis a u g = (Done tt, g))
  \/ (Z.testbit axisMask (Z.of_nat axis) = true /\ _homing a = None
      /\ set_axis_mpos config axisMask axis a u g = (Fault, g))
  \/ (exists h,
        Z.testbit axisMask (Z.of_nat axis) = true /\ _homing a = Some h
        /\ set_axis_mpos config axisMask axis a u g
           = (Done tt,
              with_motor_steps
                (<[axis := mpos_to_steps config (_mpos h) axis]>
                   (motor_steps g)) g)).
Proof.
  unfold set_axis_mpos. rewrite bitnum_is_true_testbit.
  destruct (Z.testbit axisMask (Z.of_nat axis)).
  - destruct (_homing a) as [h|]; [right; right; exists h|right; left]; auto.
  - left. destruct u. auto.
Qed.

(** The loop of [set_mpos] writes only the step counters. *)
Lemma set_mpos_loop_frame config axisMask :
  forall axes k g g',
    for_axes (set_axis_mpos config axisMask) k axes tt g = (Done tt, g') ->
    g' = with_motor_steps (motor_steps g') g.
Proof.
  intros axes k g g' H.
  apply (for_axes_invariant (set_axis_mpos config axisMask)
           (fun _ _ g1 => g1 = with_motor_steps (motor_steps g1) g)
           axes k tt g tt g' H).
  - destruct g; reflexivity.
  - intros i a [] g1 [] g2 _ IH Hb.
    destruct (set_axis_mpos_cases config axisMask (k + i) a tt g1)
      as [(_ & E)|[(_ & _ & E)|(h & _ & _ & E)]];
      rewrite E in Hb; try discriminate; injection Hb as <-.
    + exact IH.
    + rewrite IH at 2. reflexivity.
Qed.

Lemma set_mpos_loop_steps config axisMask axes g g' :
  for_axes (set_axis_mpos config axisMask) 0 axes tt g = (Done tt, g') ->
  length (motor_steps g') = length (motor_steps g)
  /\ (forall j a h,
         axes !! j = Some a -> _homing a = Some h ->
         Z.testbit axisMask (Z.of_nat j) = true ->
         (j < length (motor_steps g))%nat ->
         motor_steps g' !! j = Some (mpos_to_steps config (_mpos h) j))
  /\ (forall j,
         Z.testbit axisMask (Z.of_nat j) = false \/ (length axes <= j)%nat ->
         motor_steps g' !! j = motor_steps g !! j).
Proof.
  intros H.
  pose (I := fun (k : nat) (_ : unit) (g1 : Globals) =>
       length (motor_steps g1) = length (motor_steps g) /\
       (forall j a h,
           (j < k)%nat -> axes !! j = Some a -> _homing a = Some h ->
           Z.testbit axisMask (Z.of_nat j) = true ->
           (j < length (motor_steps g))%nat ->
           motor_steps g1 !! j = Some (mpos_to_steps config (_mpos h) j)) /\
       (forall j,
           Z.testbit axisMask (Z.of_nat j) = false \/ (k <= j)%nat ->
           motor_steps g1 !! j = motor_steps g !! j)).
  assert (Hinv : I (0 + length axes)%nat tt g').
  { apply (for_axes_invariant (set_axis_mpos config axisMask) I
             axes 0%nat tt g tt g' H); unfold I.
    - repeat split; auto. intros; lia.
    - intros i a [] g1 [] g2 Hi (Hl & Hset & Hkeep) Hb. simpl in Hb |- *.
      destruct (set_axis_mpos_cases config axisMask i a tt g1)
        as [(Hbit & E)|[(_ & _ & E)|(h & Hbit & Hh & E)]];
        rewrite E in Hb; try discriminate; injection Hb as <-.
      + repeat split; auto.
        * intros j a' h' Hlt Hj Hh' Hb' Hlen.
          destruct (Nat.eq_dec j i) as [->|Hne]; [congruence|].
          apply (Hset j a' h'); auto. lia.
        * intros j [Hf|Hge]; apply Hkeep; auto. right. lia.
      + simpl. repeat split.
        * rewrite length_insert. exact Hl.
        * intros j a' h' Hlt Hj Hh' Hb' Hlen.
          destruct (Nat.eq_dec i j) as [->|Hne].
          -- rewrite list_lookup_insert_eq by lia.
             assert (a' = a) by congruence. subst a'.
             assert (h' = h) by congruence. subst h'. reflexivity.
          -- rewrite list_lookup_insert_ne by exact Hne.
             apply (Hset j a' h'); auto. lia.
        * intros j Hj.
          assert (i <> j) by (destruct Hj as [Hf|Hge]; [congruence|lia]).
          rewrite list_lookup_insert_ne by assumption.
          apply Hkeep. destruct Hj; [auto|right; lia]. }
  destruct Hinv as (Hl & Hset & Hkeep). repeat split; auto.
  intros j a h Hj. apply (Hset j a h); auto.
  apply lookup_lt_Some in Hj. simpl. exact Hj.
Qed.

Lemma set_mpos_loop_total config axisMask :
  forall axes k g,
    (forall i a, axes !! i = Some a ->
                 Z.testbit axisMask (Z.of_nat (k + i)) = true ->
                 is_Some (_homing a)) ->
    exists g', for_axes (set_axis_mpos config axisMask) k axes tt g
               = (Done tt, g').
Proof.
  intros axes k g Hready.
  destruct (for_axes_total (set_axis_mpos config axisMask) axes k tt g)
    as ([] & g' & H); [|eauto].
  intros i a [] g1 Hi.
  destruct (set_axis_mpos_cases config axisMask (k + i) a tt g1)
    as [(_ & E)|[(Hbit & Hn & _)|(h & _ & _ & E)]]; eauto.
  destruct (Hready i a Hi Hbit) as [h Hh]. congruence.
Qed.

(** A set bit on an axis without homing settings stops the loop. *)
Lemma set_mpos_loop_fault config axisMask :
  forall axes k g i a,
    axes !! i = Some a -> _homing a = None ->
    Z.testbit axisMask (Z.of_nat (k + i)) = true ->
    fst (for_axes (set_axis_mpos config axisMask) k axes tt g) = Fault.
Proof.
  induction axes as [|a0 rest IH]; intros k g i a Hi Hn Hbit; [discriminate|].
  simpl. unfold bind.
  destruct (set_axis_mpos_cases config axisMask k a0 tt g)
    as [(Hb0 & E)|[(_ & _ & E)|(h & _ & Hh & E)]]; rewrite E;
    try reflexivity.
  - destruct i as [|i]; simpl in Hi.
    + rewrite Nat.add_0_r in Hbit. congruence.
    + apply (IH (S k) g i a Hi Hn).
      replace (S k + i)%nat with (k + S i)%nat by lia. exact Hbit.
  - destruct i as [|i]; simpl in Hi.
    + congruence.
    + apply (IH (S k) _ i a Hi Hn).
      replace (S k + i)%nat with (k + S i)%nat by lia. exact Hbit.
Qed.

Lemma set_mpos_no_raise config axisMask g alarm g' :
  set_mpos config axisMask g <> (Raised alarm, g').
Proof.
  rewrite set_mpos_unfold.
  destruct (for_axes _ _ _ _ _) as [[[]| | |] g1] eqn:H; try discriminate.
  exfalso. revert H. apply for_axes_no_raise.
  intros i a [] g0 al g2 Hb.
  destruct (set_axis_mpos_cases config axisMask i a tt g0)
    as [(_ & E)|[(_ & _ & E)|(h & _ & _ & E)]]; rewrite E in Hb;
    discriminate.
Qed.

(** X14.  When every axis of the mask has homing settings, [set_mpos]
    sets the step counter of each of them to [mpos_to_steps] of its [_mpos],
    leaves the other counters alone, returns step control to normal
    operation, plans nothing and calls [set_homing_mode(axisMask, false)]. *)
Theorem set_mpos_positions config axisMask g :
  (forall j a, _axis config !! j = Some a ->
               Z.testbit axisMask (Z.of_nat j) = true ->
               is_Some (_homing a)) ->
  exists g',
    set_mpos config axisMask g = (Done tt, g')
    /\ length (motor_steps g') = length (motor_steps g)
    /\ (forall j a h,
           _axis config !! j = Some a -> _homing a = Some h ->
           Z.testbit axisMask (Z.of_nat j) = true ->
           (j < length (motor_steps g))%nat ->
           motor_steps g' !! j = Some (mpos_to_steps config (_mpos h) j))
    /\ (forall j,
           Z.testbit axisMask (Z.of_nat j) = false
           \/ (_numberAxis config <= j)%nat ->
           motor_steps g' !! j = motor_steps g !! j)
    /\ executeSysMotion g' = false
    /\ planner g' = planner g
    /\ calls g' = calls g ++ [set_homing_mode_call axisMask false].
Proof.
  intros Hready.
  destruct (set_mpos_loop_total config axisMask (_axis config) 0 g Hready)
    as (g1 & H).
  pose proof (set_mpos_loop_frame config axisMask _ _ _ _ H) as F.
  destruct (set_mpos_loop_steps config axisMask _ _ _ H) as (Hl & Hset & Hkeep).
  exists (homing_left axisMask g1).
  rewrite set_mpos_unfold, H. repeat split; auto.
  - simpl. rewrite F. reflexivity.
  - simpl. rewrite F. reflexivity.
Qed.

Lemma set_mpos_positions_witness :
  (forall j a, _axis Bench.four_axes !! j = Some a ->
               Z.testbit 0x3 (Z.of_nat j) = true ->
               is_Some (_homing a))
  /\ exists g',
      set_mpos Bench.four_axes 0x3 (Bench.at_rest [7; 8; 9; 10] [])
      = (Done tt, g')
      /\ motor_steps g' = [0; 0; 9; 10].
Proof.
  assert (H : forall j a, _axis Bench.four_axes !! j = Some a ->
                          Z.testbit 0x3 (Z.of_nat j) = true ->
                          is_Some (_homing a)).
  { intros [|[|[|[|j]]]] a Hj Hb; simpl in Hj; try discriminate;
      injection Hj as <-; simpl; eauto; discriminate. }
  split; [exact H|].
  destruct (set_mpos_positions Bench.four_axes 0x3
              (Bench.at_rest [7; 8; 9; 10] []) H) as (g' & Hrun & _).
  exists g'. split; [exact Hrun|].
  assert (E : snd (set_mpos Bench.four_axes 0x3
                     (Bench.at_rest [7; 8; 9; 10] [])) = g')
    by (rewrite Hrun; reflexivity).
  rewrite <- E. reflexivity.
Defined.

(** X15.  [set_mpos] dereferences [_homing] without a null check: a bit of
    the mask on a configured axis without homing settings makes it fault. *)
Theorem set_mpos_null_homing config axisMask g j a :
  _axis config !! j = Some a ->
  _homing a = None ->
  Z.testbit axisMask (Z.of_nat j) = true ->
  fst (set_mpos config axisMask g) = Fault.
Proof.
  intros Hj Hn Hbit. rewrite set_mpos_unfold.
  pose proof (set_mpos_loop_fault config axisMask (_axis config) 0 g j a
                Hj Hn Hbit) as Hf.
  destruct (for_axes _ _ _ _ _) as [[[]| | |] g1]; try discriminate.
  reflexivity.
Qed.

Lemma set_mpos_null_homing_witness :
  _axis Bench.four_axes !! 3%nat
  = Some (Bench.axis_of None 50 (F32.of_Z 1) F32.zero)
  /\ _homing (Bench.axis_of None 50 (F32.of_Z 1) F32.zero) = None
  /\ Z.testbit 0x8 (Z.of_nat 3) = true
  /\ fst (set_mpos Bench.four_axes 0x8 (Bench.at_rest [7; 8; 9; 10] []))
     = Fault.
Proof.
  assert (H1 : _axis Bench.four_axes !! 3%nat
               = Some (Bench.axis_of None 50 (F32.of_Z 1) F32.zero))
    by reflexivity.
  assert (H2 : _homing (Bench.axis_of None 50 (F32.of_Z 1) F32.zero) = None)
    by reflexivity.
  assert (H3 : Z.testbit 0x8 (Z.of_nat 3) = true) by reflexivity.
  repeat (split; [assumption|]).
  exact (set_mpos_null_homing Bench.four_axes 0x8
           (Bench.at_rest [7; 8; 9; 10] []) 3 _ H1 H2 H3).
Defined.

(** ** A homing cycle, and all of them *)

Lemma phase_step_refl g : phase_step 0 g g.
Proof.
  repeat split. exists []. rewrite app_nil_r. split; [reflexivity|simpl; lia].
Qed.

Lemma phase_step_trans n p g g1 g2 :
  phase_step n g g1 -> phase_step p g1 g2 -> phase_step (n + p) g g2.
Proof.
  intros (Ha & Hs & b1 & Hb1 & Hl1) (Ha' & Hs' & b2 & Hb2 & Hl2).
  repeat split; try congruence.
  exists (b1 ++ b2). rewrite Hb2, Hb1, <- app_assoc. split; [reflexivity|].
  rewrite length_app. lia.
Qed.

Lemma phase_step_weaken n p g g' :
  (n <= p)%nat -> phase_step n g g' -> phase_step p g g'.
Proof.
  intros Hle (Ha & Hs & b & Hb & Hl). repeat split; auto.
  exists b. split; [exact Hb|lia].
Qed.

Lemma plans_ret {A} (a : A) : plans_at_most 0 (ret a).
Proof. intros g o g' H _ _. injection H as _ <-. apply phase_step_refl. Qed.

Lemma plans_call c : plans_at_most 0 (call c).
Proof.
  intros g o g' H _ _. injection H as _ <-. repeat split.
  exists []. simpl. rewrite app_nil_r. split; [reflexivity|lia].
Qed.

Lemma plans_bind {A B} n p (m : M A) (k : A -> M B) :
  plans_at_most n m -> (forall a, plans_at_most p (k a)) ->
  plans_at_most (n + p) (bind m k).
Proof.
  intros Hm Hk g o g' H Hf Hs. unfold bind in H.
  destruct (m g) as [[a|alarm| |] g1] eqn:E.
  - apply (phase_step_trans n p g g1 g').
    + apply (Hm g (Done a) g1 E); discriminate.
    + exact (Hk a g1 o g' H Hf Hs).
  - injection H as <- <-.
    apply (phase_step_weaken n); [lia|].
    apply (Hm g (Raised alarm) g1 E); discriminate.
  - injection H as <- _. congruence.
  - injection H as <- _. congruence.
Qed.

Lemma plans_weaken {A} n p (m : M A) :
  (n <= p)%nat -> plans_at_most n m -> plans_at_most p m.
Proof.
  intros Hle Hm g o g' H Hf Hs.
  exact (phase_step_weaken n p g g' Hle (Hm g o g' H Hf Hs)).
Qed.

(** A phase plans at most one move and raises its alarms by [throw] only. *)
Lemma plans_run config motors phase : plans_at_most 1 (run config motors phase).
Proof.
  intros g o g' H Hf Hs.
  destruct (run_cases config motors phase g)
    as [(Hrun & _)|(_ & _ & Hrun)]; rewrite Hrun in H.
  - injection H as _ <-. apply (phase_step_weaken 0); [lia|].
    apply phase_step_refl.
  - destruct (plan_move config motors phase _) as [[s| | |] g1] eqn:Hp.
    + destruct (plan_move_machine _ _ _ _ _ _ Hp)
        as (tgt & data & Hpl & Ha & Hst & _).
      simpl in Hpl, Ha, Hst.
      assert (Hmach : forall o2 g2,
                 poll_loop (pending g1) motors g1 = (o2, g2) ->
                 phase_step 1 g g2).
      { intros o2 g2 Hl. apply poll_loop_machine in Hl.
        unfold machine_part in Hl.
        repeat split; [congruence|congruence|].
        exists [(tgt, data)]. split; [congruence|simpl; lia]. }
      destruct (poll_loop (pending g1) motors g1) as [[[]| | |] g2] eqn:Hl;
        injection H as <- <-; try congruence;
        exact (Hmach _ _ eq_refl).
    + exfalso. exact (plan_move_no_raise _ _ _ _ _ _ Hp).
    + injection H as <- _. congruence.
    + injection H as <- _. congruence.
Qed.

Lemma plans_first_phases config motors :
  plans_at_most 5 (first_phases config motors).
Proof.
  unfold first_phases.
  change 5%nat
    with (0 + (1 + (0 + (1 + (0 + (1 + (0 + (1 + (0 + 1)))))))))%nat.
  repeat (apply plans_bind;
          [first [apply plans_call | apply plans_run]|intros _]).
  apply plans_run.
Qed.

Lemma plans_phases config motors :
  plans_at_most (if needsPulloff2 config motors then 6 else 5)
    (phases config motors).
Proof.
  unfold phases. destruct (needsPulloff2 config motors).
  - change 6%nat with (5 + (0 + 1))%nat.
    apply plans_bind; [apply plans_first_phases|intros _].
    apply plans_bind; [apply plans_call|intros _]. apply plans_run.
  - change 5%nat with (5 + 0)%nat.
    apply plans_bind; [apply plans_first_phases|intros _]. apply plans_ret.
Qed.

Lemma cycle_start_step config axisMask g :
  phase_step 0 g (cycle_start config axisMask g)
  /\ calls (cycle_start config axisMask g)
     = calls g ++ [log_debug_call "Homing"; set_homing_mode_call axisMask true].
Proof.
  split.
  - repeat split. exists []. simpl. rewrite app_nil_r.
    split; [reflexivity|lia].
  - simpl. rewrite <- app_assoc. reflexivity.
Qed.

Lemma homing_failed_eq config axisMask alarm g :
  exists g',
    homing_failed config axisMask alarm g = (Done tt, g')
    /\ rtAlarm g' = Some alarm
    /\ planner g' = planner g
    /\ motor_steps g' = motor_steps g
    /\ calls g'
       = calls g ++ [set_homing_mode_call axisMask false;
                     log_error_call "Homing fail"; mc_reset_call;
                     protocol_execute_realtime_call].
Proof.
  eexists. split; [reflexivity|]. simpl. repeat split.
  rewrite <- !app_assoc. reflexivity.
Qed.

Lemma set_mpos_done config axisMask g g' :
  set_mpos config axisMask g = (Done tt, g') ->
  rtAlarm g' = rtAlarm g /\ sys_state g' = sys_state g
  /\ planner g' = planner g /\ executeSysMotion g' = false
  /\ forall j a h,
       _axis config !! j = Some a -> _homing a = Some h ->
       Z.testbit axisMask (Z.of_nat j) = true ->
       (j < length (motor_steps g'))%nat ->
       motor_steps g' !! j = Some (mpos_to_steps config (_mpos h) j).
Proof.
  rewrite set_mpos_unfold.
  destruct (for_axes _ _ _ _ _) as [[[]| | |] g1] eqn:H; try discriminate.
  intros E. injection E as <-.
  pose proof (set_mpos_loop_frame config axisMask _ _ _ _ H) as F.
  destruct (set_mpos_loop_steps config axisMask _ _ _ H) as (Hl & Hset & _).
  repeat split; try (simpl; rewrite F; reflexivity).
  intros j a h Hj Hh Hb Hlen. simpl in Hlen |- *.
  apply (Hset j a h); auto. lia.
Qed.

(** X16.  No [ExecAlarm] escapes [run_cycles]: whether it runs one cycle
    or all of them, a failure is caught in [run_one_cycle]. *)
Theorem run_cycles_no_raise config axisMask g :
  raised (fst (run_cycles config axisMask g)) = false.
Proof.
  assert (Hone : forall m g0 al g1,
             run_one_cycle config m g0 <> (Raised al, g1)).
  { intros m g0 al g1. rewrite run_one_cycle_unfold. unfold cycle_end.
    destruct (phases config _ _) as [[[]|a| |] g2];
      first [discriminate|apply set_mpos_no_raise]. }
  assert (Hall : forall cycles homed g0 al g1,
             all_cycles config cycles homed g0 <> (Raised al, g1)).
  { induction cycles as [|c rest IH]; intros homed g0 al g1 H.
    - simpl in H. destruct homed; discriminate.
    - simpl in H. unfold bind at 1, get at 1 in H.
      destruct (State_eqb (sys_state g0) Alarm); [discriminate|].
      destruct (negb (axis_mask_from_cycle config (Z.of_nat c) =? 0)).
      + unfold bind at 1 in H.
        destruct (run_one_cycle config _ g0) as [[[]|a| |] g2] eqn:E;
          try discriminate.
        * exact (IH _ _ _ _ H).
        * exact (Hone _ _ _ _ E).
      + exact (IH _ _ _ _ H). }
  destruct (run_cycles config axisMask g) as [[[]|al| |] g'] eqn:E;
    try reflexivity.
  exfalso. unfold run_cycles in E.
  destruct (negb (axisMask =? AllCycles));
    [exact (Hone _ _ _ _ E)|exact (Hall _ _ _ _ _ E)].
Qed.

(** X17.  The axis mask of a cycle has bits of configured axes only, and
    the masks of two different cycle numbers share no axis. *)
Theorem cycle_masks_partition config cycle1 cycle2 :
  0 <= axis_mask_from_cycle config cycle1
       < 2 ^ Z.of_nat (_numberAxis config)
  /\ (cycle1 <> cycle2 ->
      Z.land (axis_mask_from_cycle config cycle1)
        (axis_mask_from_cycle config cycle2) = 0).
Proof.
  assert (Hnn : forall axes k acc, 0 <= acc ->
                  0 <= cycle_axes cycle1 k axes acc).
  { induction axes as [|a rest IH]; intros k acc Hacc; [exact Hacc|].
    simpl. apply IH. destruct (_homing a) as [h|]; [|exact Hacc].
    destruct (_cycle h =? cycle1); [|exact Hacc].
    unfold set_bitnum, bitnum_to_mask. apply Z.lor_nonneg. split; [exact Hacc|].
    apply Z.shiftl_nonneg. lia. }
  assert (H0 : 0 <= axis_mask_from_cycle config cycle1)
    by (apply Hnn; lia).
  split; [split; [exact H0|]|].
  - destruct (Z.eq_dec (axis_mask_from_cycle config cycle1) 0) as [->|Hne].
    { apply Z.pow_pos_nonneg; lia. }
    set (m := axis_mask_from_cycle config cycle1) in *.
    assert (Hpos : 0 < m) by lia.
    pose proof (Z.bit_log2 m Hpos) as Hbit.
    pose proof (Z.log2_nonneg m) as Hl.
    rewrite <- (Z2Nat.id (Z.log2 m)) in Hbit by exact Hl.
    apply axis_mask_from_cycle_spec in Hbit as (a & h & Hj & _).
    apply lookup_lt_Some in Hj.
    apply Z.log2_lt_pow2; [exact Hpos|].
    unfold _numberAxis. lia.
  - intros Hne. apply Z.bits_inj'. intros n Hn.
    rewrite Z.land_spec, Z.bits_0.
    destruct (Z.testbit (axis_mask_from_cycle config cycle1) n) eqn:H1;
      [|reflexivity].
    destruct (Z.testbit (axis_mask_from_cycle config cycle2) n) eqn:H2;
      [|reflexivity].
    rewrite <- (Z2Nat.id n) in H1, H2 by exact Hn.
    apply axis_mask_from_cycle_spec in H1 as (a1 & h1 & Hj1 & Hh1 & Hc1).
    apply axis_mask_from_cycle_spec in H2 as (a2 & h2 & Hj2 & Hh2 & Hc2).
    congruence.
Qed.

Lemma cycle_masks_partition_witness :
  0 <= axis_mask_from_cycle Bench.four_axes 1
       < 2 ^ Z.of_nat (_numberAxis Bench.four_axes)
  /\ (1 <> 2 ->
      Z.land (axis_mask_from_cycle Bench.four_axes 1)
        (axis_mask_from_cycle Bench.four_axes 2) = 0).
Proof. exact (cycle_masks_partition Bench.four_axes 1 2). Defined.

(** X18.  A homing cycle that returns has handed at most six moves to the
    planner, and at most five when [needsPulloff2] is false of its motors. *)
Theorem cycle_plans_six_moves config axisMask g g' :
  run_one_cycle config axisMask g = (Done tt, g') ->
  exists blocks,
    planner g' = planner g ++ blocks
    /\ (length blocks <= 6)%nat
    /\ (needsPulloff2 config
          (homing_motors config (Z.land axisMask (homingMask config))) = false ->
        (length blocks <= 5)%nat).
Proof.
  rewrite run_one_cycle_unfold.
  set (mask := Z.land axisMask (homingMask config)).
  set (motors := homing_motors config mask).
  destruct (cycle_start_step config mask g) as ((_ & _ & b0 & Hb0 & Hl0) & _).
  pose proof (plans_phases config motors (cycle_start config mask g)) as Hph.
  destruct (phases config motors (cycle_start config mask g))
    as [[[]|alarm| |] g1]; simpl; try discriminate.
  - intros Hset.
    destruct (Hph (Done tt) g1 eq_refl) as (_ & _ & b & Hb & Hl);
      try discriminate.
    destruct (set_mpos_done _ _ _ _ Hset) as (_ & _ & Hpl & _).
    exists (b0 ++ b). rewrite Hpl, Hb, Hb0, <- app_assoc.
    split; [reflexivity|]. rewrite length_app.
    destruct (needsPulloff2 config motors); split; intros;
      first [lia|discriminate].
  - intros Hfail.
    destruct (Hph (Raised alarm) g1 eq_refl) as (_ & _ & b & Hb & Hl);
      try discriminate.
    destruct (homing_failed_eq config mask alarm g1)
      as (g2 & E & _ & Hpl & _).
    rewrite E in Hfail. injection Hfail as <-.
    exists (b0 ++ b). rewrite Hpl, Hb, Hb0, <- app_assoc.
    split; [reflexivity|]. rewrite length_app.
    destruct (needsPulloff2 config motors); split; intros;
      first [lia|discriminate].
Qed.

Lemma cycle_plans_six_moves_witness :
  run_one_cycle Bench.four_axes 0x2 (Bench.at_rest [0; 0; 0; 0] Bench.y_homes)
  = (Done tt,
     snd (run_one_cycle Bench.four_axes 0x2
            (Bench.at_rest [0; 0; 0; 0] Bench.y_homes)))
  /\ exists blocks,
      planner (snd (run_one_cycle Bench.four_axes 0x2
                      (Bench.at_rest [0; 0; 0; 0] Bench.y_homes)))
      = planner (Bench.at_rest [0; 0; 0; 0] Bench.y_homes) ++ blocks
      /\ (length blocks <= 6)%nat.
Proof.
  assert (H : run_one_cycle Bench.four_axes 0x2
                (Bench.at_rest [0; 0; 0; 0] Bench.y_homes)
              = (Done tt,
                 snd (run_one_cycle Bench.four_axes 0x2
                        (Bench.at_rest [0; 0; 0; 0] Bench.y_homes))))
    by (vm_compute; reflexivity).
  split; [exact H|].
  destruct (cycle_plans_six_moves _ _ _ _ H) as (blocks & Hb & Hl & _).
  exists blocks. split; [exact Hb|exact Hl].
Defined.

(** X19.  A cycle entered without a pending alarm ends in one of two
    ways: without an alarm, step control back to normal and the step counter
    of every homed axis set to its home position; or with the alarm recorded
    in [rtAlarm], after [set_homing_mode(mask, false)], the error log,
    [mc_reset] and [protocol_execute_realtime], in that order. *)
Theorem cycle_outcome config axisMask g g' :
  run_one_cycle config axisMask g = (Done tt, g') ->
  rtAlarm g = None ->
  (rtAlarm g' = None
   /\ executeSysMotion g' = false
   /\ forall j a h,
        _axis config !! j = Some a -> _homing a = Some h ->
        Z.testbit (Z.land axisMask (homingMask config)) (Z.of_nat j) = true ->
        (j < length (motor_steps g'))%nat ->
        motor_steps g' !! j = Some (mpos_to_steps config (_mpos h) j))
  \/ (exists alarm pre,
        rtAlarm g' = Some alarm
        /\ calls g'
           = pre ++ [set_homing_mode_call
                       (Z.land axisMask (homingMask config)) false;
                     log_error_call "Homing fail"; mc_reset_call;
                     protocol_execute_realtime_call]).
Proof.
  rewrite run_one_cycle_unfold.
  set (mask := Z.land axisMask (homingMask config)).
  set (motors := homing_motors config mask).
  destruct (cycle_start_step config mask g) as ((Ha0 & _) & _).
  pose proof (plans_phases config motors (cycle_start config mask g)) as Hph.
  destruct (phases config motors (cycle_start config mask g))
    as [[[]|alarm| |] g1]; simpl; try discriminate.
  - intros Hset Hnone. left.
    destruct (Hph (Done tt) g1 eq_refl) as (Ha1 & _); try discriminate.
    destruct (set_mpos_done _ _ _ _ Hset) as (Ha2 & _ & _ & He & Hpos).
    repeat split; [congruence|exact He|exact Hpos].
  - intros Hfail _. right.
    destruct (homing_failed_eq config mask alarm g1)
      as (g2 & E & Hal & _ & _ & Hc).
    rewrite E in Hfail. injection Hfail as <-.
    exists alarm, (calls g1). split; [exact Hal|exact Hc].
Qed.

Lemma cycle_outcome_witness :
  run_one_cycle Bench.four_axes 0x2 (Bench.at_rest [5; 6; 7; 8] Bench.y_homes)
  = (Done tt,
     snd (run_one_cycle Bench.four_axes 0x2
            (Bench.at_rest [5; 6; 7; 8] Bench.y_homes)))
  /\ rtAlarm (Bench.at_rest [5; 6; 7; 8] Bench.y_homes) = None
  /\ rtAlarm (snd (run_one_cycle Bench.four_axes 0x2
                     (Bench.at_rest [5; 6; 7; 8] Bench.y_homes))) = None
  /\ motor_steps (snd (run_one_cycle Bench.four_axes 0x2
                         (Bench.at_rest [5; 6; 7; 8] Bench.y_homes)))
     = [5; 0; 7; 8].
Proof.
  assert (H : run_one_cycle Bench.four_axes 0x2
                (Bench.at_rest [5; 6; 7; 8] Bench.y_homes)
              = (Done tt,
                 snd (run_one_cycle Bench.four_axes 0x2
                        (Bench.at_rest [5; 6; 7; 8] Bench.y_homes))))
    by (vm_compute; reflexivity).
  assert (H0 : rtAlarm (Bench.at_rest [5; 6; 7; 8] Bench.y_homes) = None)
    by reflexivity.
  split; [exact H|]. split; [exact H0|].
  destruct (cycle_outcome _ _ _ _ H H0) as [(Ha & _)|(alarm & pre & Ha & _)].
  - split; [exact Ha|]. vm_compute. reflexivity.
  - exfalso. revert Ha. vm_compute. intros Hx. discriminate Hx.
Defined.

(** ** Cycles without axes, and axis names *)

Lemma set_mpos_loop_idle config :
  forall axes k g,
    for_axes (set_axis_mpos config 0) k axes tt g = (Done tt, g).
Proof.
  induction axes as [|a rest IH]; intros k g; [reflexivity|].
  simpl. rewrite (bind_Done _ _ _ tt g); [apply IH|].
  unfold set_axis_mpos. rewrite bitnum_is_true_testbit, Z.bits_0. reflexivity.
Qed.

Lemma list_ascii_of_append (a b : string) :
  list_ascii_of_string (String.append a b)
  = list_ascii_of_string a ++ list_ascii_of_string b.
Proof. induction a as [|c a IH]; simpl; [reflexivity|]. rewrite IH. reflexivity. Qed.

(** X20.  A cycle requested for axes none of which is in [homingMask]
    succeeds silently: given that [set_homing_mode] engages no motor for the
    empty mask, nothing is planned, no counter changes, no alarm is raised
    and no signal is consumed. *)
Theorem cycle_without_axes config axisMask g :
  Z.land axisMask (homingMask config) = 0 ->
  homing_motors config 0 = 0 ->
  exists g',
    run_one_cycle config axisMask g = (Done tt, g')
    /\ planner g' = planner g
    /\ motor_steps g' = motor_steps g
    /\ rtAlarm g' = rtAlarm g
    /\ sys_state g' = sys_state g
    /\ _approach g' = _approach g
    /\ signal_part g' = signal_part g.
Proof.
  intros Hmask Hmotors. rewrite run_one_cycle_unfold, Hmask, Hmotors.
  set (s := cycle_start config 0 g).
  set (s1 := snd (phases config 0 s)).
  assert (Hph : phases config 0 s = (Done tt, s1)) by reflexivity.
  rewrite Hph. unfold cycle_end.
  rewrite set_mpos_unfold, set_mpos_loop_idle.
  exists (homing_left 0 s1). repeat split.
Qed.

Lemma cycle_without_axes_witness :
  Z.land 0x8 (homingMask (Bench.machine [Bench.x_axis true 500 200] 0)) = 0
  /\ homing_motors (Bench.machine [Bench.x_axis true 500 200] 0) 0 = 0
  /\ exists g',
      run_one_cycle (Bench.machine [Bench.x_axis true 500 200] 0) 0x8
        (Bench.at_rest [7] [Bench.reset]) = (Done tt, g')
      /\ planner g' = planner (Bench.at_rest [7] [Bench.reset])
      /\ motor_steps g' = motor_steps (Bench.at_rest [7] [Bench.reset])
      /\ rtAlarm g' = rtAlarm (Bench.at_rest [7] [Bench.reset])
      /\ sys_state g' = sys_state (Bench.at_rest [7] [Bench.reset])
      /\ _approach g' = _approach (Bench.at_rest [7] [Bench.reset])
      /\ signal_part g' = signal_part (Bench.at_rest [7] [Bench.reset]).
Proof.
  split; [reflexivity|]. split; [reflexivity|].
  apply (cycle_without_axes (Bench.machine [Bench.x_axis true 500 200] 0) 0x8
           (Bench.at_rest [7] [Bench.reset])); reflexivity.
Defined.

(** X21.  [axisNames] yields one letter per configured axis of the mask,
    in increasing axis order. *)
Theorem axisNames_letters _names config axisMask :
  list_ascii_of_string (axisNames _names config axisMask)
  = map _names
      (List.filter (fun axis => Z.testbit axisMask (Z.of_nat axis))
         (seq 0 (_numberAxis config))).
Proof.
  unfold axisNames.
  enough (H : forall axes retval,
             list_ascii_of_string
               (fold_left
                  (fun retval axis =>
                     if bitnum_is_true axisMask axis
                     then String.append retval
                            (String (_names axis) EmptyString)
                     else retval) axes retval)
             = list_ascii_of_string retval
               ++ map _names
                    (List.filter
                       (fun axis => Z.testbit axisMask (Z.of_nat axis)) axes))
    by (rewrite H; reflexivity).
  induction axes as [|axis rest IH]; intros retval; simpl.
  - rewrite app_nil_r. reflexivity.
  - rewrite IH, bitnum_is_true_testbit.
    destruct (Z.testbit axisMask (Z.of_nat axis)); [|reflexivity].
    rewrite list_ascii_of_append. simpl. rewrite <- app_assoc. reflexivity.
Qed.

(** ** The approach flag when a phase fails *)

(** X22.  When [run] throws, the approach flag still has the value set at
    phase entry: true for the approach phases, false for the pull-offs. *)
Theorem run_alarm_keeps_approach config motors phase g alarm g' :
  run config motors phase g = (Raised alarm, g') ->
  _approach g' = is_approach phase.
Proof.
  intros H.
  destruct (run_cases config motors phase g)
    as [(Hrun & _)|(Hm & _ & Hrun)]; rewrite Hrun in H; [discriminate|].
  destruct (plan_move config motors phase _) as [[s| | |] g1] eqn:Hp;
    try discriminate.
  - destruct (plan_move_signals _ _ _ _ _ _ Hp) as (_ & _ & _ & _ & Ha & _).
    simpl in Ha.
    destruct (poll_loop (pending g1) motors g1) as [[[]| | |] g2] eqn:Hl;
      try discriminate.
    injection H as _ <-.
    apply poll_loop_machine in Hl. unfold machine_part in Hl.
    congruence.
  - exfalso. exact (plan_move_no_raise _ _ _ _ _ _ Hp).
Qed.

Lemma run_alarm_keeps_approach_witness :
  run (Bench.one_axis true 500 200) 1 SlowApproach
    (Bench.at_rest [0] [Bench.quiet; Bench.door])
  = (Raised HomingFailDoor,
     snd (run (Bench.one_axis true 500 200) 1 SlowApproach
            (Bench.at_rest [0] [Bench.quiet; Bench.door])))
  /\ _approach
       (snd (run (Bench.one_axis true 500 200) 1 SlowApproach
               (Bench.at_rest [0] [Bench.quiet; Bench.door])))
     = is_approach SlowApproach.
Proof.
  assert (H : run (Bench.one_axis true 500 200) 1 SlowApproach
                (Bench.at_rest [0] [Bench.quiet; Bench.door])
              = (Raised HomingFailDoor,
                 snd (run (Bench.one_axis true 500 200) 1 SlowApproach
                        (Bench.at_rest [0] [Bench.quiet; Bench.door]))))
    by (vm_compute; reflexivity).
  split; [exact H|].
  exact (run_alarm_keeps_approach _ _ _ _ _ _ H).
Defined.
